(** * hashdist.core.run_job: job execution in a controlled environment

    A shallow embedding of [hashdist/core/run_job.py] (Python 2) and the
    properties of its variable substituter, import resolver, virtuals
    packing, command tree executor and log line assembly.

    Python byte strings are [string]; dicts with string keys are
    [gmap string _]; a raised exception is the [Raise] case of [result]. *)

From Stdlib Require Import Ascii.
From stdpp Require Import base option list strings gmap sorting pretty.

Local Open Scope stdpp_scope.
Set Warnings "-register-all".

(** ** Exceptions *)

(** The exception classes the module raises or lets through. *)
Inductive exn : Type :=
  | KeyError
  | ValueError
  | TypeError
  | InvalidJobSpecError
  | NotImplementedError
  | AssertionError
  | IndexError
  | CalledProcessError
  | OSError.

Inductive result (A : Type) : Type :=
  | Ok (a : A)
  | Raise (e : exn).
Arguments Ok {A} a.
Arguments Raise {A} e.

Definition rbind {A B} (r : result A) (k : A → result B) : result B :=
  match r with
  | Ok a => k a
  | Raise e => Raise e
  end.

Definition rmap {A B} (f : A → B) (r : result A) : result B :=
  rbind r (λ a, Ok (f a)).

Definition is_ok {A} (r : result A) : Prop := ∃ a, r = Ok a.

(** ** Python string primitives *)

Module PyStr.

(** [s.startswith(p)] *)
Definition startswith (s p : string) : bool := String.prefix p s.

(** [sub in s] *)
Fixpoint contains (sub s : string) : bool :=
  match s with
  | EmptyString => String.prefix sub ""
  | String _ s' => String.prefix sub s || contains sub s'
  end.

(** [s.replace(old, new)] for a non-empty [old]: non-overlapping
    occurrences, leftmost first.  [skip] counts the characters of a matched
    occurrence that are still to be dropped. *)
Fixpoint replace_go (old new : string) (skip : nat) (s : string) : string :=
  match s with
  | EmptyString => ""
  | String c s' =>
      match skip with
      | S k => replace_go old new k s'
      | O =>
          if String.prefix old s
          then new +:+ replace_go old new (String.length old - 1) s'
          else String c (replace_go old new 0 s')
      end
  end.

Definition replace (old new s : string) : string := replace_go old new 0 s.

(** [sep.join(l)] *)
Fixpoint join (sep : string) (l : list string) : string :=
  match l with
  | [] => ""
  | [x] => x
  | x :: l' => x +:+ sep +:+ join sep l'
  end.

(** [s.split(c)] for a one-character separator: never the empty list. *)
Fixpoint split_go (c : ascii) (cur : string) (s : string) : list string :=
  match s with
  | EmptyString => [String.rev cur]
  | String a s' =>
      if Ascii.eqb a c
      then String.rev cur :: split_go c "" s'
      else split_go c (String a cur) s'
  end.

Definition split (c : ascii) (s : string) : list string := split_go c "" s.

(** The bytes [str.strip()] removes: space, tab, LF, VT, FF, CR. *)
Definition is_space (a : ascii) : bool := Ascii.is_space a.

Fixpoint lstrip (s : string) : string :=
  match s with
  | EmptyString => ""
  | String a s' => if is_space a then lstrip s' else s
  end.

(** [s.strip()] *)
Definition strip (s : string) : string :=
  String.rev (lstrip (String.rev (lstrip s))).

End PyStr.

(** [c] occurs in [s]. *)
Fixpoint has_char (c : ascii) (s : string) : bool :=
  match s with
  | EmptyString => false
  | String a s' => Ascii.eqb a c || has_char c s'
  end.

(** ** [string.Template(x).substitute(env)]

    The standard library's template engine, as the source calls it: the
    pattern is [$$] (escaped), [$identifier] (named), [${identifier}]
    (braced), or a [$] followed by anything else (invalid); identifiers are
    [[_a-z][_a-z0-9]*], case-insensitive.  Matches are replaced left to right;
    a named or braced match whose name is missing from the mapping raises
    [KeyError], an invalid one raises [ValueError]. *)

Module Template.

Definition is_idstart (a : ascii) : bool :=
  let n := nat_of_ascii a in
  Ascii.eqb a "_" || ((97 <=? n) && (n <=? 122)) || ((65 <=? n) && (n <=? 90)).

Definition is_idchar (a : ascii) : bool :=
  let n := nat_of_ascii a in
  is_idstart a || ((48 <=? n) && (n <=? 57)).

(** The longest prefix of identifier characters. *)
Fixpoint idchars (s : string) : string :=
  match s with
  | EmptyString => ""
  | String a s' => if is_idchar a then String a (idchars s') else ""
  end.

(** The identifier at the head of [s]: empty when there is none. *)
Definition ident (s : string) : string :=
  match s with
  | EmptyString => ""
  | String a _ => if is_idstart a then idchars s else ""
  end.

Fixpoint drop (n : nat) (s : string) : string :=
  match n, s with
  | O, _ => s
  | S _, EmptyString => ""
  | S k, String _ s' => drop k s'
  end.

(** What follows a delimiter [$]. *)
Inductive placeholder : Type :=
  | Escaped
  | Named (name : string) (consumed : nat)
  | Invalid.

(** Classifies the text after a [$], with the number of characters the
    match takes after the delimiter. *)
Definition classify (s : string) : placeholder :=
  match s with
  | String "$" _ => Escaped
  | String "{" s' =>
      let n := ident s' in
      match n, drop (String.length n) s' with
      | String _ _, String "}" _ => Named n (String.length n + 2)
      | _, _ => Invalid
      end
  | _ =>
      match ident s with
      | EmptyString => Invalid
      | n => Named n (String.length n)
      end
  end.

Fixpoint substitute_go (env : gmap string string) (skip : nat) (s : string)
    : result string :=
  match s with
  | EmptyString => Ok ""
  | String c s' =>
      match skip with
      | S k => substitute_go env k s'
      | O =>
          if Ascii.eqb c "$" then
            match classify s' with
            | Escaped => rmap (String "$") (substitute_go env 1 s')
            | Named n k =>
                match env !! n with
                | Some v => rmap (String.app v) (substitute_go env k s')
                | None => Raise KeyError
                end
            | Invalid => Raise ValueError
            end
          else rmap (String c) (substitute_go env 0 s')
      end
  end.

Definition substitute (s : string) (env : gmap string string) : result string :=
  substitute_go env 0 s.

(** The names the template refers to, in order; [None] when some [$] does
    not start a well-formed placeholder. *)
Fixpoint names_go (skip : nat) (s : string) : option (list string) :=
  match s with
  | EmptyString => Some []
  | String c s' =>
      match skip with
      | S k => names_go k s'
      | O =>
          if Ascii.eqb c "$" then
            match classify s' with
            | Escaped => names_go 1 s'
            | Named n k => cons n <$> names_go k s'
            | Invalid => None
            end
          else names_go 0 s'
      end
  end.

Definition names (s : string) : option (list string) := names_go 0 s.

End Template.

(** ** [substitute] *)

(** The two escape rewrites of [substitute], in source order: the raw
    literals are four backslashes to two, then backslash-dollar to two
    dollars. *)
Definition unescape (x : string) : string :=
  let x := PyStr.replace "\\\\" "\\" x in
  PyStr.replace "\$" "$$" x.

Definition substitute (x : string) (env : gmap string string) : result string :=
  if PyStr.contains "$$" x then Raise KeyError
  else Template.substitute (unescape x) env.

(** [n] is a key of [env]. *)
Definition bound (env : gmap string string) (n : string) : Prop :=
  is_Some (env !! n).

(** The variables [x] refers to once its escapes are rewritten. *)
Definition referenced (x : string) : option (list string) :=
  Template.names (unescape x).

(** [CommandTreeExecution.substitute]: a [KeyError] is logged and re-raised
    as [ValueError]; anything else passes through. *)
Definition self_substitute (x : string) (env : gmap string string) : result string :=
  match substitute x env with
  | Raise KeyError => Raise ValueError
  | r => r
  end.

(** ** The host system *)

(** What the module reads from [os] and [os.path]. *)
Record host : Type := Host {
  pathsep : string;
  path_exists : string → bool;
  realpath : string → string
}.

(** [os.path.join(a, b)] (posixpath). *)
Definition endswith_slash (s : string) : bool :=
  match String.rev s with
  | String "/" _ => true
  | _ => false
  end.

Definition pjoin (a b : string) : string :=
  if PyStr.startswith b "/" then b
  else if bool_decide (a = "") || endswith_slash a then a +:+ b
  else a +:+ "/" +:+ b.

(** [os.path.isabs] *)
Definition isabs (s : string) : bool := PyStr.startswith s "/".

(** ** [pack_virtuals_envvar] and [unpack_virtuals_envvar] *)

(** Python's order on 2-tuples of [str]: the first components decide unless
    they are equal. *)
Definition tuple_le (a b : string * string) : Prop :=
  if decide (a.1 = b.1) then String.le a.2 b.2 else String.le a.1 b.1.

Global Instance tuple_le_dec : RelDecision tuple_le.
Proof. intros a b. unfold tuple_le. destruct (decide (a.1 = b.1)); apply _. Defined.

(** ['%s=%s' % tup] *)
Definition format_tuple (tup : string * string) : string :=
  tup.1 +:+ "=" +:+ tup.2.

(** The body of [pack_virtuals_envvar] on the list [virtuals.items()]
    yields, whatever its order. *)
Definition pack_items (items : list (string * string)) : string :=
  PyStr.join ";" (format_tuple <$> merge_sort tuple_le items).

Definition pack_virtuals_envvar (virtuals : gmap string string) : string :=
  pack_items (map_to_list virtuals).

(** [dict(iterable)]: every element must have exactly two components, a
    later key overrides an earlier one. *)
Fixpoint dict_of_tuples (acc : gmap string string) (l : list (list string))
    : result (gmap string string) :=
  match l with
  | [] => Ok acc
  | [k; v] :: l' => dict_of_tuples (<[k:=v]> acc) l'
  | _ :: _ => Raise ValueError
  end.

Definition unpack_virtuals_envvar (x : string) : result (gmap string string) :=
  match x with
  | EmptyString => Ok ∅
  | _ => dict_of_tuples ∅ (PyStr.split "=" <$> PyStr.split ";" x)
  end.

(** ** [get_imports_env] *)

(** An entry of the canonicalized ['import'] list. *)
Record import : Type := Import {
  imp_id : string;
  imp_ref : option string;
  imp_in_env : bool
}.

(** The loop's local variables. *)
Record imports_state : Type := ImportsState {
  is_env : gmap string string;
  is_PATH : list string;
  is_HDIST_CFLAGS : list string;
  is_HDIST_LDFLAGS : list string;
  is_HDIST_IMPORT : list string;
  is_HDIST_IMPORT_PATHS : list string
}.

Definition imports_init : imports_state :=
  ImportsState ∅ [] [] [] [] [].

(** One iteration of [for dep in imports]. *)
Definition import_step (os : host) (resolve : string → option string)
    (virtuals : gmap string string) (st : imports_state) (dep : import)
    : result imports_state :=
  let dep_ref := imp_ref dep in
  let dep_id := imp_id dep in
  let HDIST_IMPORT := is_HDIST_IMPORT st ++ [dep_id] in
  rbind
    (if PyStr.startswith dep_id "virtual:" then
       match virtuals !! dep_id with
       | Some d => Ok d
       | None => Raise ValueError
       end
     else Ok dep_id)
    (λ dep_id,
      match resolve dep_id with
      | None => Raise InvalidJobSpecError
      | Some dep_dir =>
          let HDIST_IMPORT_PATHS := is_HDIST_IMPORT_PATHS st ++ [dep_dir] in
          let env :=
            match dep_ref with
            | Some r => <[r +:+ "_ID" := dep_id]> (<[r := dep_dir]> (is_env st))
            | None => is_env st
            end in
          if imp_in_env dep then
            let bin_dir := pjoin dep_dir "bin" in
            let PATH :=
              if path_exists os bin_dir then is_PATH st ++ [bin_dir]
              else is_PATH st in
            let libdirs :=
              List.filter (path_exists os) (pjoin dep_dir <$> ["lib"; "lib32"; "lib64"]) in
            rbind
              (match libdirs with
               | [] => Ok (is_HDIST_LDFLAGS st)
               | [d] => Ok (is_HDIST_LDFLAGS st ++ ["-L" +:+ d; "-Wl,-R," +:+ d])
               | _ => Raise InvalidJobSpecError
               end)
              (λ HDIST_LDFLAGS,
                let incdir := pjoin dep_dir "include" in
                let HDIST_CFLAGS :=
                  if path_exists os incdir
                  then is_HDIST_CFLAGS st ++ ["-I" +:+ incdir]
                  else is_HDIST_CFLAGS st in
                Ok (ImportsState env PATH HDIST_CFLAGS HDIST_LDFLAGS
                      HDIST_IMPORT HDIST_IMPORT_PATHS))
          else
            Ok (ImportsState env (is_PATH st) (is_HDIST_CFLAGS st)
                  (is_HDIST_LDFLAGS st) HDIST_IMPORT HDIST_IMPORT_PATHS)
      end).

Fixpoint imports_loop (os : host) (resolve : string → option string)
    (virtuals : gmap string string) (st : imports_state) (imports : list import)
    : result imports_state :=
  match imports with
  | [] => Ok st
  | dep :: rest =>
      rbind (import_step os resolve virtuals st dep)
        (λ st', imports_loop os resolve virtuals st' rest)
  end.

Definition get_imports_env (os : host) (resolve : string → option string)
    (virtuals : gmap string string) (imports : list import)
    : result (gmap string string) :=
  rbind (imports_loop os resolve virtuals imports_init imports) (λ st,
    let env := is_env st in
    let env := <["PATH" := PyStr.join (pathsep os) (is_PATH st)]> env in
    let env := <["HDIST_CFLAGS" := PyStr.join " " (is_HDIST_CFLAGS st)]> env in
    let env := <["HDIST_LDFLAGS" := PyStr.join " " (is_HDIST_LDFLAGS st)]> env in
    let env := <["HDIST_IMPORT" := PyStr.join " " (is_HDIST_IMPORT st)]> env in
    let env := <["HDIST_IMPORT_PATHS" := PyStr.join " " (is_HDIST_IMPORT_PATHS st)]> env in
    Ok env).

(** ** Job spec nodes *)

(** An entry of a node's ['inputs'] list: a dict that should hold exactly
    one of the keys.  [in_json] is the document as
    [json.dumps(_, indent=4)] renders it. *)
Record input : Type := Input {
  in_text : option (list string);
  in_string : option string;
  in_json : option string
}.

(** A command node: a dict, a field is [None] when the key is absent.
    Values have the types the job spec gives them. *)
Inductive node : Type := Node {
  n_commands : option (list node);
  n_cmd : option (list string);
  n_hit : option (list string);
  n_set : option string;
  n_prepend_path : option string;
  n_append_path : option string;
  n_prepend_flag : option string;
  n_append_flag : option string;
  n_value : option string;
  n_cwd : option string;
  n_inputs : option (list input);
  n_to_var : option string;
  n_append_to_file : option string;
  n_stdout_to_file : option string
}.

(** The node without any key. *)
Definition empty_node : node :=
  Node None None None None None None None None None None None None None None.

(** [key in node], as a number for [sum([...])]. *)
Definition has {A} (o : option A) : nat :=
  match o with Some _ => 1 | None => 0 end.

(** ** The executor and its world *)

Inductive level : Type := CRITICAL | ERROR | WARNING | INFO | DEBUG.

Global Instance level_eq_dec : EqDecision level.
Proof. solve_decision. Defined.

Global Instance level_countable : Countable level.
Proof.
  refine (inj_countable'
    (λ l, match l with
          | CRITICAL => 0 | ERROR => 1 | WARNING => 2 | INFO => 3 | DEBUG => 4
          end)
    (λ n, match n with
          | 0 => CRITICAL | 1 => ERROR | 2 => WARNING | 3 => INFO | _ => DEBUG
          end) _).
  by intros [].
Defined.

(** Where a child's standard output goes: the log, the [StringIO] of
    [to_var], or a file opened in append mode. *)
Inductive sink : Type :=
  | ToLog
  | ToBuffer
  | ToFile (path : string).

Inductive tool : Type := ByCmd | ByHit.

(** A command that was started: [func(args, node_env, node_cwd, stdout_to)]. *)
Record call : Type := Call {
  call_tool : tool;
  call_args : list string;
  call_env : gmap string string;
  call_cwd : string;
  call_sink : sink
}.

(** [CommandTreeExecution]'s attributes, with the files written and the
    commands started so far. *)
Record executor : Type := Executor {
  temp_dir : string;
  log_fifo_filenames : gmap (string * level) string;
  last_env : option (gmap string string);
  last_cwd : option string;
  files : gmap string string;
  calls : list call
}.

(** The programs outside the module: [popen] is the child process run by
    [logged_check_call] (its standard output, or the exception of a failed
    spawn or non-zero exit), [cli_main] the in-process [hit] tool (what it
    printed and the environment dict as it left it). *)
Record world : Type := World {
  os : host;
  popen : executor → list string → gmap string string → string → result string;
  cli_main : executor → list string → gmap string string → string
             → result (string * gmap string string)
}.

(** State threaded through the calls; it survives a raised exception. *)
Definition M (A : Type) : Type := executor → executor * result A.

Definition ret {A} (a : A) : M A := λ ex, (ex, Ok a).
Definition raise {A} (e : exn) : M A := λ ex, (ex, Raise e).
Definition bind {A B} (m : M A) (k : A → M B) : M B :=
  λ ex, match m ex with
        | (ex', Ok a) => k a ex'
        | (ex', Raise e) => (ex', Raise e)
        end.
Definition lift {A} (r : result A) : M A := λ ex, (ex, r).
Definition get : M executor := λ ex, (ex, Ok ex).
Definition modify (f : executor → executor) : M unit := λ ex, (f ex, Ok tt).

Notation "'let*' x ':=' m 'in' k" := (bind m (λ x, k))
  (at level 10, x name, m at level 100, k at level 200, only parsing).
Notation "m '>>>' k" := (bind m (λ _, k))
  (at level 100, k at level 200, right associativity, only parsing).

Definition set_files (f : gmap string string) (ex : executor) : executor :=
  Executor (temp_dir ex) (log_fifo_filenames ex) (last_env ex) (last_cwd ex)
    f (calls ex).

Definition set_last (e : gmap string string) (c : string) (ex : executor) : executor :=
  Executor (temp_dir ex) (log_fifo_filenames ex) (Some e) (Some c)
    (files ex) (calls ex).

Definition set_fifos (r : gmap (string * level) string) (ex : executor) : executor :=
  Executor (temp_dir ex) r (last_env ex) (last_cwd ex) (files ex) (calls ex).

Definition add_call (c : call) (ex : executor) : executor :=
  Executor (temp_dir ex) (log_fifo_filenames ex) (last_env ex) (last_cwd ex)
    (files ex) (calls ex ++ [c]).

(** [open(filename, 'w')] then [f.write(value)] *)
Definition write_file (filename value : string) : M unit :=
  modify (λ ex, set_files (<[filename := value]> (files ex)) ex).

(** [file(filename, 'a')]: creates the file when it is missing. *)
Definition open_append (filename : string) : M unit :=
  modify (λ ex, set_files (<[filename := default "" (files ex !! filename)]> (files ex)) ex).

Definition append_file (filename out : string) : M unit :=
  modify (λ ex,
    set_files (<[filename := default "" (files ex !! filename) +:+ out]> (files ex)) ex).

(** ** [dump_inputs] *)

(** ['_'.join(str(x) for x in node_pos) + '_' + name] *)
Definition input_filename (node_pos : list nat) (name : string) : string :=
  PyStr.join "_" (pretty <$> node_pos) +:+ "_" +:+ name.

Fixpoint dump_inputs_go (inputs : list input) (node_pos : list nat) (i : nat)
    (env : gmap string string) : M (gmap string string) :=
  match inputs with
  | [] => ret env
  | inp :: rest =>
      let* ex := get in
      let name := "in" +:+ pretty i in
      let filename := pjoin (temp_dir ex) (input_filename node_pos name) in
      if negb (has (in_text inp) + has (in_json inp) + has (in_string inp) =? 1)
      then raise ValueError
      else
        let '(value, filename) :=
          match in_text inp, in_string inp, in_json inp with
          | Some t, _, _ => (PyStr.join (String "010" "") t, filename)
          | None, Some s, _ => (s, filename)
          | None, None, Some j => (j, filename +:+ ".json")
          | None, None, None => ("", filename)
          end in
        write_file filename value >>>
        dump_inputs_go rest node_pos (S i) (<[name := filename]> env)
  end.

Definition dump_inputs (inputs : list input) (node_pos : list nat)
    : M (gmap string string) :=
  dump_inputs_go inputs node_pos 0 ∅.

(** ** [run_cmd], [run_hit], [create_log_pipe] *)

(** The dict lookup of [create_log_pipe]. *)
Definition level_of_string (level_str : string) : option level :=
  if bool_decide (level_str = "CRITICAL") then Some CRITICAL
  else if bool_decide (level_str = "ERROR") then Some ERROR
  else if bool_decide (level_str = "WARNING") then Some WARNING
  else if bool_decide (level_str = "INFO") then Some INFO
  else if bool_decide (level_str = "DEBUG") then Some DEBUG
  else None.

(** Returns what it writes to [sys.stdout]. *)
Definition create_log_pipe (sublogger_name level_str : string) : M string :=
  match level_of_string level_str with
  | None => raise KeyError
  | Some level =>
      let* ex := get in
      match log_fifo_filenames ex !! (sublogger_name, level) with
      | Some fifo_filename => ret fifo_filename
      | None =>
          let fifo_filename :=
            pjoin (temp_dir ex)
              ("logpipe-" +:+ sublogger_name +:+ "-" +:+ level_str) in
          modify (λ ex,
            set_fifos (<[(sublogger_name, level) := fifo_filename]>
                         (log_fifo_filenames ex)) ex) >>>
          ret fifo_filename
      end
  end.

(** A started command: its standard output, and the environment dict it was
    given as it is afterwards (only the in-process tool can change it). *)
Definition run_cmd (w : world) (args : list string) (env : gmap string string)
    (cwd : string) (stdout_to : sink) : M (string * gmap string string) :=
  modify (add_call (Call ByCmd args env cwd stdout_to)) >>>
  let* ex := get in
  let* out := lift (popen w ex args env cwd) in
  ret (out, env).

Definition run_hit (w : world) (args : list string) (env : gmap string string)
    (cwd : string) (stdout_to : sink) : M (string * gmap string string) :=
  modify (add_call (Call ByHit args env cwd stdout_to)) >>>
  let args := "hit" :: args in
  match args with
  | _ :: a1 :: rest =>
      if bool_decide (a1 = "logpipe") then
        match rest with
        | [sublogger_name; level] =>
            let* out := create_log_pipe sublogger_name level in
            ret (out, env)
        | _ => raise ValueError
        end
      else
        let* ex := get in
        lift (cli_main w ex args env cwd)
  | _ =>
      let* ex := get in
      lift (cli_main w ex args env cwd)
  end.

(** ** The command tree executor *)

Inductive action : Type := ActSet | ActPrepend | ActAppend.

(** [handle_env_mod]: returns the dict [env] as it leaves it. *)
Definition handle_env_mod (nd : node) (env : gmap string string)
    (varname : string) (act : action) (sep : string) : M (gmap string string) :=
  match n_value nd with
  | None => raise KeyError
  | Some raw =>
      let* value := lift (self_substitute raw env) in
      match act, env !! varname with
      | ActSet, _ | _, None => ret (<[varname := value]> env)
      | ActPrepend, Some old =>
          if String.length old =? 0 then ret (<[varname := value]> env)
          else ret (<[varname := PyStr.join sep [value; old]]> env)
      | ActAppend, Some old =>
          if String.length old =? 0 then ret (<[varname := value]> env)
          else ret (<[varname := PyStr.join sep [old; value]]> env)
      end
  end.

Definition process_cwd (nd : node) (cwd : string) : string :=
  match n_cwd nd with
  | Some c => pjoin cwd c
  | None => cwd
  end.

(** [[self.substitute(x, node_env) for x in args]] *)
Fixpoint substitute_all (args : list string) (env : gmap string string)
    : result (list string) :=
  match args with
  | [] => Ok []
  | x :: rest =>
      rbind (self_substitute x env) (λ y,
        rmap (cons y) (substitute_all rest env))
  end.

(** [handle_command_nodes]: the body of [handle_cmd] and [handle_hit]. *)
Definition handle_command_nodes (w : world) (nd : node) (env : gmap string string)
    (cwd : string) (node_pos : list nat) : M (gmap string string) :=
  if negb (has (n_cmd nd) + has (n_hit nd) + has (n_commands nd) + has (n_set nd) =? 1)
  then raise ValueError
  else if 1 <? has (n_to_var nd) + has (n_stdout_to_file nd)
  then raise ValueError
  else if bool_decide (is_Some (n_commands nd))
          && (bool_decide (is_Some (n_append_to_file nd))
              || bool_decide (is_Some (n_to_var nd))
              || bool_decide (is_Some (n_inputs nd)))
  then raise ValueError
  else
    let node_env := env in
    let node_cwd := process_cwd nd cwd in
    let leaf :=
      match n_cmd nd, n_hit nd with
      | Some args, _ => Some (args, run_cmd w)
      | None, Some args => Some (args, run_hit w)
      | None, None => None
      end in
    match leaf with
    | None => raise AssertionError
    | Some (args, func) =>
        let inputs := default [] (n_inputs nd) in
        let* in_env := dump_inputs inputs node_pos in
        let node_env := in_env ∪ node_env in
        let* args := lift (substitute_all args node_env) in
        let* envs :=
          match n_to_var nd, n_append_to_file nd with
          | Some var, _ =>
              let* r := func args node_env node_cwd ToBuffer in
              ret (<[var := PyStr.strip r.1]> env, r.2)
          | None, Some raw =>
              let* stdout_filename := lift (self_substitute raw node_env) in
              let stdout_filename :=
                if isabs stdout_filename then stdout_filename
                else pjoin node_cwd stdout_filename in
              let stdout_filename := realpath (os w) stdout_filename in
              let* ex := get in
              if PyStr.startswith stdout_filename (temp_dir ex)
              then raise NotImplementedError
              else
                open_append stdout_filename >>>
                let* r := func args node_env node_cwd (ToFile stdout_filename) in
                append_file stdout_filename r.1 >>>
                ret (env, r.2)
          | None, None =>
              let* r := func args node_env node_cwd ToLog in
              ret (env, r.2)
          end in
        modify (set_last envs.2 node_cwd) >>>
        ret envs.1
    end.

Inductive type_key : Type :=
  | TCommands | TCmd | THit | TSet
  | TPrependPath | TAppendPath | TPrependFlag | TAppendFlag.

Definition type_keys : list type_key :=
  [TCommands; TCmd; THit; TSet; TPrependPath; TAppendPath; TPrependFlag; TAppendFlag].

(** [t in node] *)
Definition has_key (nd : node) (t : type_key) : bool :=
  match t with
  | TCommands => bool_decide (is_Some (n_commands nd))
  | TCmd => bool_decide (is_Some (n_cmd nd))
  | THit => bool_decide (is_Some (n_hit nd))
  | TSet => bool_decide (is_Some (n_set nd))
  | TPrependPath => bool_decide (is_Some (n_prepend_path nd))
  | TAppendPath => bool_decide (is_Some (n_append_path nd))
  | TPrependFlag => bool_decide (is_Some (n_prepend_flag nd))
  | TAppendFlag => bool_decide (is_Some (n_append_flag nd))
  end.

(** The loop [for t in type_keys] of [run_node]. *)
Fixpoint find_type (nd : node) (keys : list type_key) (type : option type_key)
    : result (option type_key) :=
  match keys with
  | [] => Ok type
  | t :: rest =>
      if has_key nd t then
        match type with
        | Some _ => Raise InvalidJobSpecError
        | None => find_type nd rest (Some t)
        end
      else find_type nd rest type
  end.

(** The loop of [handle_commands] over [enumerate(node['commands'])], with
    [run] for the recursive [self.run_node]; all children share the one dict
    [sub_env]. *)
Definition run_children
    (run : node → gmap string string → string → list nat → M (gmap string string))
    (node_cwd : string) (node_pos : list nat)
    : list node → nat → gmap string string → M (gmap string string) :=
  fix loop (children : list node) (i : nat) (sub_env : gmap string string) :=
    match children with
    | [] => ret sub_env
    | command_node :: rest =>
        let pos := node_pos ++ [i] in
        let* sub_env := run command_node sub_env node_cwd pos in
        loop rest (S i) sub_env
    end.

(** [handle_commands], given [run_node] for the children: the caller's
    [env] is copied and the copy is dropped at the end. *)
Definition handle_commands
    (run : node → gmap string string → string → list nat → M (gmap string string))
    (children : list node) (nd : node) (env : gmap string string) (cwd : string)
    (node_pos : list nat) : M (gmap string string) :=
  let node_cwd := process_cwd nd cwd in
  let sub_env := env in
  run_children run node_cwd node_pos children 0 sub_env >>>
  ret env.

(** [run_node]: returns the dict [env] as the node leaves it. *)
Fixpoint run_node (w : world) (nd : node) (env : gmap string string)
    (cwd : string) (node_pos : list nat) {struct nd} : M (gmap string string) :=
  match find_type nd type_keys None with
  | Raise e => raise e
  | Ok None => raise InvalidJobSpecError
  | Ok (Some type) =>
      match type with
      | TCommands =>
          match n_commands nd with
          | Some children => handle_commands (run_node w) children nd env cwd node_pos
          | None => raise KeyError
          end
      | TCmd | THit => handle_command_nodes w nd env cwd node_pos
      | TSet =>
          handle_env_mod nd env (default "" (n_set nd)) ActSet ""
      | TAppendPath =>
          handle_env_mod nd env (default "" (n_append_path nd)) ActAppend (pathsep (os w))
      | TPrependPath =>
          handle_env_mod nd env (default "" (n_prepend_path nd)) ActPrepend (pathsep (os w))
      | TAppendFlag =>
          handle_env_mod nd env (default "" (n_append_flag nd)) ActAppend " "
      | TPrependFlag =>
          handle_env_mod nd env (default "" (n_prepend_flag nd)) ActPrepend " "
      end
  end.

(** A fresh executor over a given (empty) [temp_dir]. *)
Definition new_executor (temp_dir : string) : executor :=
  Executor temp_dir ∅ None None ∅ [].

(** ** Line assembly in [logged_check_call] *)

Module LogMux.

Definition LF : ascii := "010"%char.
Definition CR : ascii := "013"%char.

(** [s.splitlines(True)] on a byte string: a line ends after a line feed,
    after a carriage return, or after the two in that order; line endings
    are kept; no empty last line. *)
Fixpoint splitlines (s : string) : list string :=
  match s with
  | EmptyString => []
  | String c s' =>
      if Ascii.eqb c LF then String c "" :: splitlines s'
      else if Ascii.eqb c CR then
        match s' with
        | String c' s'' =>
            if Ascii.eqb c' LF then String c (String c' "") :: splitlines s''
            else String c "" :: splitlines s'
        | EmptyString => String c "" :: splitlines s'
        end
      else
        match splitlines s' with
        | [] => [String c ""]
        | l :: ls => String c l :: ls
        end
  end.

(** [s[-1]] *)
Fixpoint last_char (s : string) : option ascii :=
  match s with
  | EmptyString => None
  | String c EmptyString => Some c
  | String _ s' => last_char s'
  end.

(** [s[:-1]] *)
Fixpoint chop (s : string) : string :=
  match s with
  | EmptyString => ""
  | String _ EmptyString => ""
  | String c s' => String c (chop s')
  end.

(** A record handed to [sublogger.log(level, line)]: the sub-logger's
    heading ([None] for the job's own logger), the level, the message. *)
Definition record : Type := option string * level * string.

(** The local dicts of [logged_check_call] and its two descriptors, the
    log records emitted so far, and what was forwarded to [stdout_to]
    ([None] when standard output is not captured). *)
Record mux : Type := Mux {
  loggers : gmap nat (option string * level);
  buffers : gmap nat string;
  fd_to_logpipe : gmap nat string;
  stdout_fd : nat;
  stderr_fd : nat;
  stdout_to : option string;
  log : list record
}.

(** [for line in lines]: strip one trailing line feed and log. *)
Definition emit (lg : option string * level) (lines : list string) : list record :=
  (λ line,
    let line := if bool_decide (last_char line = Some LF) then chop line else line in
    (lg.1, lg.2, line)) <$> lines.

Definition set_capture (c : option string) (m : mux) : mux :=
  Mux (loggers m) (buffers m) (fd_to_logpipe m) (stdout_fd m) (stderr_fd m) c (log m).

Definition set_buffers (b : gmap nat string) (m : mux) : mux :=
  Mux (loggers m) b (fd_to_logpipe m) (stdout_fd m) (stderr_fd m) (stdout_to m)
    (log m).

Definition add_log (rs : list record) (m : mux) : mux :=
  Mux (loggers m) (buffers m) (fd_to_logpipe m) (stdout_fd m) (stderr_fd m)
    (stdout_to m) (log m ++ rs).

(** The [POLLIN] branch for [fd], [new_bytes] being what [os.read]
    returned. *)
Definition on_pollin (fd : nat) (new_bytes : string) (m : mux) : result mux :=
  if bool_decide (is_Some (stdout_to m)) && bool_decide (fd = stdout_fd m) then
    Ok (set_capture (Some (default "" (stdout_to m) +:+ new_bytes)) m)
  else if bool_decide (new_bytes = "") then Raise AssertionError
  else
    match buffers m !! fd with
    | None => Raise KeyError
    | Some old =>
        let buf := old +:+ new_bytes in
        let lines := splitlines buf in
        match last lines with
        | None => Raise IndexError
        | Some l =>
            match last_char l with
            | None => Raise IndexError
            | Some c =>
                let rest := if Ascii.eqb c LF then "" else l in
                let lines := if Ascii.eqb c LF then lines else removelast lines in
                match loggers m !! fd with
                | None => Raise KeyError
                | Some lg =>
                    Ok (add_log (emit lg lines)
                          (set_buffers (<[fd := rest]> (buffers m)) m))
                end
            end
        end
    end.

(** [flush_buffer(fd)] *)
Definition flush_buffer (fd : nat) (m : mux) : result mux :=
  match buffers m !! fd with
  | None => Raise KeyError
  | Some buf =>
      let dropped := set_buffers (delete fd (buffers m)) in
      if bool_decide (buf = "") then Ok (dropped m)
      else
        match loggers m !! fd with
        | None => Raise KeyError
        | Some lg => Ok (dropped (add_log [(lg.1, lg.2, buf)] m))
        end
  end.

(** [close_fifo(fd)]: the buffer is flushed, the descriptor closed and
    forgotten. *)
Definition close_fifo (fd : nat) (m : mux) : result mux :=
  rbind (flush_buffer fd m) (λ m,
    match loggers m !! fd, fd_to_logpipe m !! fd with
    | Some _, Some _ =>
        Ok (Mux (delete fd (loggers m)) (buffers m) (delete fd (fd_to_logpipe m))
              (stdout_fd m) (stderr_fd m) (stdout_to m) (log m))
    | _, _ => Raise KeyError
    end).

(** [open_fifo(fifo_filename, logger, level)], [fd] being the descriptor
    [os.open] returned. *)
Definition open_fifo (fd : nat) (fifo_filename : string)
    (lg : option string * level) (m : mux) : mux :=
  Mux (<[fd := lg]> (loggers m)) (<[fd := ""]> (buffers m))
    (<[fd := fifo_filename]> (fd_to_logpipe m))
    (stdout_fd m) (stderr_fd m) (stdout_to m) (log m).

(** [reopen_fifo(fd)], [opened] being what [os.open] does with the name
    of the pipe. *)
Definition reopen_fifo (fd : nat) (opened : result nat) (m : mux) : result mux :=
  match fd_to_logpipe m !! fd with
  | None => Raise KeyError
  | Some fifo_filename =>
      match loggers m !! fd with
      | None => Raise KeyError
      | Some lg =>
          rbind (close_fifo fd m) (λ m,
            rbind opened (λ new_fd, Ok (open_fifo new_fd fifo_filename lg m)))
      end
  end.

(** What [poller.poll] reports of a descriptor, by the branch the loop
    takes: bytes to read ([POLLIN], with or without [POLLHUP]), the writer
    gone and nothing left to read ([POLLHUP] alone), anything else. *)
Inductive event : Type :=
  | POLLIN (fd : nat) (new_bytes : string)
  | POLLHUP (fd : nat) (opened : result nat)
  | POLLOTHER (fd : nat).

(** The body of [for fd, reason in events]. *)
Definition on_event (ev : event) (m : mux) : result mux :=
  match ev with
  | POLLHUP fd opened =>
      if bool_decide (is_Some (fd_to_logpipe m !! fd)) then reopen_fifo fd opened m
      else Ok m
  | POLLIN fd new_bytes => on_pollin fd new_bytes m
  | POLLOTHER _ => Ok m
  end.

(** The poll loop over the events of a run, in the order it serves them. *)
Fixpoint poll_loop (events : list event) (m : mux) : result mux :=
  match events with
  | [] => Ok m
  | ev :: rest => rbind (on_event ev m) (poll_loop rest)
  end.

(** The state the loop starts from: the child's two descriptors under the
    job's logger at [DEBUG], then [open_fifo] for every item of
    [log_fifo_filenames], given as the descriptor [os.open] returned, the
    heading and level, and the name of the pipe; standard output is
    captured when [cap]. *)
Definition start (out err : nat) (cap : bool)
    (pipes : list (nat * (string * level) * string)) : mux :=
  foldl (λ m p, open_fifo p.1.1 p.2 (Some p.1.2.1, p.1.2.2) m)
    (Mux (<[err := (None, DEBUG)]> {[ out := (None, DEBUG) ]})
         (<[err := ""]> {[ out := "" ]}) ∅ out err
         (if cap then Some "" else None) [])
    pipes.


(** ** The framing the claim describes *)

(** The text split at line feeds only: the terminated lines and the
    unterminated rest. *)
Definition terminated (s : string) : list string := removelast (PyStr.split LF s).
Definition unterminated (s : string) : string := List.last (PyStr.split LF s) "".

(** The descriptors that are open, as the claim speaks of them: each with
    its logger and level and with all the bytes read from it since it was
    opened, and the names of the log pipes among them. *)
Record streams : Type := Streams {
  s_loggers : gmap nat (option string * level);
  s_text : gmap nat string;
  s_pipes : gmap nat string
}.




(** The streams a run starts with: nothing read yet. *)
Definition opened (m : mux) : streams :=
  Streams (loggers m) ((λ _, "") <$> buffers m) (fd_to_logpipe m).



(** All the bytes read from [fd]. *)
Definition stream (fd : nat) (events : list event) : string :=
  foldr (λ ev acc,
           match ev with
           | POLLIN fd' new_bytes =>
               if bool_decide (fd' = fd) then new_bytes +:+ acc else acc
           | _ => acc
           end) "" events.


(** A line with its line feed. *)
Definition with_LF (line : string) : string := line +:+ String LF "".


(** What [open_fifo] keeps true of a state that has read nothing yet. *)
Definition fresh (out : nat) (cap : bool) (m : mux) : Prop :=
  (∀ fd b, buffers m !! fd = Some b → b = "")
  ∧ (∀ fd, is_Some (fd_to_logpipe m !! fd) →
       is_Some (loggers m !! fd) ∧ is_Some (buffers m !! fd))
  ∧ stdout_fd m = out
  ∧ stdout_to m = (if cap then Some "" else None)
  ∧ log m = [].

End LogMux.

(** ** Sample nodes *)

(** [{"set": var, "value": raw}] *)
Definition set_node (var raw : string) : node :=
  Node None None None (Some var) None None None None (Some raw)
    None None None None None.

(** [{"prepend_path": var, "value": raw}] *)
Definition prepend_path_node (var raw : string) : node :=
  Node None None None None (Some var) None None None (Some raw)
    None None None None None.

(** [{"cmd": args}] *)
Definition cmd_node (args : list string) : node :=
  Node None (Some args) None None None None None None None
    None None None None None.

(** [{"cmd": args, "to_var": var}] *)
Definition cmd_to_var_node (args : list string) (var : string) : node :=
  Node None (Some args) None None None None None None None
    None None (Some var) None None.

(** [{"cmd": args, "append_to_file": path}] *)
Definition cmd_append_node (args : list string) (path : string) : node :=
  Node None (Some args) None None None None None None None
    None None None (Some path) None.

(** [{"cmd": args, "to_var": var, "append_to_file": path}] *)
Definition cmd_both_node (args : list string) (var path : string) : node :=
  Node None (Some args) None None None None None None None
    None None (Some var) (Some path) None.

(** [{"commands": children}] *)
Definition group_node (children : list node) : node :=
  Node (Some children) None None None None None None None None
    None None None None None.

(** [{"commands": children, "to_var": var}] *)
Definition group_to_var_node (children : list node) (var : string) : node :=
  Node (Some children) None None None None None None None None
    None None (Some var) None None.

(** A host with [:] for [os.pathsep], no file on disk and paths that are
    their own canonical form; a world in which every command prints
    [out] and the in-process tool prints nothing. *)
Definition sample_host : host := Host ":" (λ _, false) (λ p, p).

Definition sample_world (out : string) : world :=
  World sample_host (λ _ _ _ _, Ok out) (λ _ _ env _, Ok ("", env)).


(** [{"commands": children, "cwd": ..., "inputs": ..., "to_var": ...,
     "append_to_file": ...}], each modifier optional. *)
Definition group_with (children : list node) (cwd : option string)
    (inputs : option (list input)) (to_var append_to_file : option string) : node :=
  Node (Some children) None None None None None None None None
    cwd inputs to_var append_to_file None.

(** A world whose commands print the value of [$A]. *)
Definition echo_A_world : world :=
  World sample_host (λ _ _ env _, Ok (default "" (env !! "A") +:+ String "010" ""))
    (λ _ _ env _, Ok ("", env)).

(** Scenario 2 of the job spec tests: the inner group's [set] is not seen
    by the command that follows the group. *)
Definition scope_scenario : node :=
  group_node
    [set_node "A" "1";
     group_node [set_node "A" "2"];
     cmd_to_var_node ["/bin/sh"; "-c"; "echo \$A"] "OUT"].


(** [p] is the directory [dir] or lies below it. *)
Definition path_under (dir p : string) : bool :=
  bool_decide (p = dir)
  || PyStr.startswith p (if endswith_slash dir then dir else dir +:+ "/").


(** ** What the import claim speaks of *)

(** The directory of an import: its id, mapped through [virtuals] when
    virtual, resolved by the store. *)
Definition import_dir (resolve : string → option string)
    (virtuals : gmap string string) (dep : import) : option string :=
  (if PyStr.startswith (imp_id dep) "virtual:" then virtuals !! imp_id dep
   else Some (imp_id dep)) ≫= resolve.

(** The existing [bin] sub-directories of the imports [keep] selects, in
    the order of the list. *)
Definition bin_dirs (os : host) (resolve : string → option string)
    (virtuals : gmap string string) (keep : import → bool)
    (imports : list import) : list string :=
  omap (λ dep,
    dir ← import_dir resolve virtuals dep;
    if keep dep && path_exists os (pjoin dir "bin")
    then Some (pjoin dir "bin") else None) imports.

(** An import the loop gets through: its directory is known and, when it
    is taken into the environment, at most one library directory exists. *)
Definition import_ok (os : host) (resolve : string → option string)
    (virtuals : gmap string string) (dep : import) : Prop :=
  ∃ dir, import_dir resolve virtuals dep = Some dir
    ∧ (imp_in_env dep = true →
       length (List.filter (path_exists os)
                 (pjoin dir <$> ["lib"; "lib32"; "lib64"])) ≤ 1).

(** A store with the one artifact [a] at [/a], on a host where every path
    exists. *)
Definition one_artifact (id : string) : option string :=
  if bool_decide (id = "a") then Some "/a" else None.

Definition full_host : host := Host ":" (λ _, true) (λ p, p).

(** A host on which the [bin] directories exist and nothing else. *)
Definition bin_host : host :=
  Host ":" (λ p, bool_decide (p = "/a/bin") || bool_decide (p = "/b/bin")) (λ p, p).

Definition two_artifacts (id : string) : option string :=
  if bool_decide (id = "a") then Some "/a"
  else if bool_decide (id = "b/1") then Some "/b"
  else None.


(** ** What the virtuals claim speaks of *)

(** The pairs as [dict] receives them from the two splits. *)
Definition as_lists (l : list (string * string)) : list (list string) :=
  (λ tup, [tup.1; tup.2]) <$> l.

(** A virtual id or artifact id that can be packed: no [=], no [;]. *)
Definition packable (s : string) : Prop :=
  has_char "=" s = false ∧ has_char ";" s = false.


(** A virtual import the caller gave no artifact for. *)
Definition virtual_missing (virtuals : gmap string string) (dep : import) : Prop :=
  PyStr.startswith (imp_id dep) "virtual:" = true ∧ virtuals !! imp_id dep = None.


(** ** What the other import variables hold *)

(** The artifact id an import stands for: a virtual id is looked up. *)
Definition import_target (virtuals : gmap string string) (dep : import)
    : option string :=
  if PyStr.startswith (imp_id dep) "virtual:" then virtuals !! imp_id dep
  else Some (imp_id dep).

(** The compiler flag of an import: its [include] directory, when the
    import is taken into the environment and the directory exists. *)
Definition import_cflags (os : host) (resolve : string → option string)
    (virtuals : gmap string string) (dep : import) : list string :=
  match import_dir resolve virtuals dep with
  | Some dir =>
      if imp_in_env dep && path_exists os (pjoin dir "include")
      then ["-I" +:+ pjoin dir "include"] else []
  | None => []
  end.

(** The linker flags of an import: its one library directory, twice. *)
Definition import_ldflags (os : host) (resolve : string → option string)
    (virtuals : gmap string string) (dep : import) : list string :=
  match import_dir resolve virtuals dep with
  | Some dir =>
      if imp_in_env dep then
        match List.filter (path_exists os) (pjoin dir <$> ["lib"; "lib32"; "lib64"]) with
        | [d] => ["-L" +:+ d; "-Wl,-R," +:+ d]
        | _ => []
        end
      else []
  | None => []
  end.

(** The variables an import sets for its [ref]. *)
Definition import_keys (dep : import) : list string :=
  match imp_ref dep with
  | Some r => [r; r +:+ "_ID"]
  | None => []
  end.

(** The variables [get_imports_env] sets at the end. *)
Definition aggregate_keys : list string :=
  ["PATH"; "HDIST_CFLAGS"; "HDIST_LDFLAGS"; "HDIST_IMPORT"; "HDIST_IMPORT_PATHS"].


(** ** What [dump_inputs] writes *)

(** An input with exactly one of the keys [text], [json], [string]. *)
Definition input_ok (inp : input) : bool :=
  has (in_text inp) + has (in_json inp) + has (in_string inp) =? 1.

(** The text written for an input. *)
Definition input_value (inp : input) : string :=
  match in_text inp, in_string inp, in_json inp with
  | Some t, _, _ => PyStr.join (String "010" "") t
  | None, Some s, _ => s
  | None, None, Some j => j
  | None, None, None => ""
  end.

(** [.json] for a [json] input, nothing otherwise. *)
Definition input_suffix (inp : input) : string :=
  match in_text inp, in_string inp, in_json inp with
  | None, None, Some _ => ".json"
  | _, _, _ => ""
  end.

(** The variable of the [i]-th input. *)
Definition input_name (i : nat) : string := "in" +:+ pretty i.

(** The file of the [i]-th input of the node at [node_pos]. *)
Definition input_path (temp_dir : string) (node_pos : list nat) (i : nat)
    (inp : input) : string :=
  pjoin temp_dir (input_filename node_pos (input_name i)) +:+ input_suffix inp.


(** ** More sample nodes *)

(** [{"cmd": args}] with any of [cwd], [to_var], [append_to_file]. *)
Definition cmd_with (args : list string) (cwd to_var append_to_file : option string)
    : node :=
  Node None (Some args) None None None None None None None
    cwd None to_var append_to_file None.

(** [{"hit": args}] with any of [cwd], [to_var], [append_to_file]. *)
Definition hit_with (args : list string) (cwd to_var append_to_file : option string)
    : node :=
  Node None None (Some args) None None None None None None
    cwd None to_var append_to_file None.

(** The name [create_log_pipe] gives a new FIFO. *)
Definition fifo_path (temp_dir sublogger_name level_str : string) : string :=
  pjoin temp_dir ("logpipe-" +:+ sublogger_name +:+ "-" +:+ level_str).


(** ** What a run leaves of the executor *)

(** Whether a call returned. *)
Definition returned {A} (r : result A) : bool :=
  match r with Ok _ => true | Raise _ => false end.

(** The executor only grows: the temporary directory is the same, every
    log pipe stays registered under its path, no file is removed, and the
    commands started so far are still the first ones. *)
Definition extends (ex ex' : executor) : Prop :=
  temp_dir ex' = temp_dir ex
  ∧ log_fifo_filenames ex ⊆ log_fifo_filenames ex'
  ∧ dom (files ex) ⊆ dom (files ex')
  ∧ calls ex `prefix_of` calls ex'.

(** A tree without a [cmd] or [hit] key anywhere. *)
Fixpoint quiet (nd : node) : bool :=
  match nd with
  | Node commands cmd hit _ _ _ _ _ _ _ _ _ _ _ =>
      bool_decide (cmd = None) && bool_decide (hit = None)
      && match commands with
         | Some children => forallb quiet children
         | None => true
         end
  end.

(** What starting a command with [run_cmd] or [run_hit] does. *)
Definition started (tl : tool) (args : list string) (env : gmap string string)
    (cwd : string) (stdout_to : sink) (ex ex' : executor)
    (r : result (string * gmap string string)) : Prop :=
  temp_dir ex' = temp_dir ex
  ∧ log_fifo_filenames ex ⊆ log_fifo_filenames ex'
  ∧ files ex' = files ex
  ∧ last_env ex' = last_env ex
  ∧ calls ex' = calls ex ++ [Call tl args env cwd stdout_to]
  ∧ (tl = ByCmd → ∀ v, r = Ok v → v.2 = env).

(** The variables the nodes of a tree may assign: the targets of the
    environment nodes and of [to_var]. *)
Fixpoint assigned (nd : node) : list string :=
  match nd with
  | Node commands _ _ set prepend_path append_path prepend_flag append_flag
      _ _ _ to_var _ _ =>
      option_list set ++ option_list prepend_path ++ option_list append_path
      ++ option_list prepend_flag ++ option_list append_flag ++ option_list to_var
      ++ match commands with
         | Some children => flat_map assigned children
         | None => []
         end
  end.

(** What a run leaves of the record of the last command: nothing was
    started and the record is as before, or the last command started is [c]
    and, when the run returned, the record is the dict [c] left, which for a
    [cmd] is the dict it was given. *)
Definition last_command (k : bool) (ex ex' : executor) : Prop :=
  (calls ex' = calls ex ∧ (k = true → last_env ex' = last_env ex))
  ∨ ∃ cs c, calls ex' = calls ex ++ cs ++ [c]
      ∧ (k = true → ∃ e, last_env ex' = Some e
                      ∧ (call_tool c = ByCmd → e = call_env c)).

(** ** [canonicalize_job_spec] and [run_job] *)

(** An entry of the job spec's ['import'] list: the key ['ref'] may be
    absent or hold [None], the key ['in_env'] may be absent. *)
Record raw_import : Type := RawImport {
  ri_id : string;
  ri_ref : option (option string);
  ri_in_env : option bool
}.

(** The job spec: the root command node, with the two keys of its own. *)
Record job_spec : Type := JobSpec {
  js_import : option (list raw_import);
  js_nohash_params : option (gmap string string);
  js_node : node
}.

Definition canonicalize_import (item : raw_import) : result import :=
  let in_env := default true (ri_in_env item) in
  let ref := default None (ri_ref item) in
  if bool_decide (ref = Some "") then Raise ValueError
  else Ok (Import (ri_id item) ref in_env).

(** [[canonicalize_import(item) for item in ...]] *)
Fixpoint canonicalize_imports (items : list raw_import) : result (list import) :=
  match items with
  | [] => Ok []
  | item :: rest =>
      rbind (canonicalize_import item) (λ item,
        rmap (cons item) (canonicalize_imports rest))
  end.

(** The job spec with its defaults filled in. *)
Record canonical_job_spec : Type := CanonicalJobSpec {
  cjs_import : list import;
  cjs_nohash_params : gmap string string;
  cjs_node : node
}.

Definition canonicalize_job_spec (job_spec : job_spec) : result canonical_job_spec :=
  rbind (canonicalize_imports (default [] (js_import job_spec))) (λ imports,
    Ok (CanonicalJobSpec imports (default ∅ (js_nohash_params job_spec))
          (js_node job_spec))).

(** The temporary directories: what [os.listdir] finds in one, and the
    one [tempfile.mkdtemp] makes. *)
Record tempfiles : Type := TempFiles {
  listdir : string → result (list string);
  mkdtemp : string
}.

(** How [run_job] ends: it returns [executor.last_env], it lets an
    exception through, or [__init__] raises its plain [Exception]. *)
Inductive job_result : Type :=
  | Returned (out_env : option (gmap string string))
  | Raised (e : exn)
  | RaisedException.

(** [CommandTreeExecution.__init__]: the executor and its [rm_temp_dir]. *)
Definition CommandTreeExecution (fs : tempfiles) (temp_dir : option string)
    : job_result + executor * bool :=
  match temp_dir with
  | None => inr (new_executor (mkdtemp fs), true)
  | Some temp_dir =>
      match listdir fs temp_dir with
      | Raise e => inl (Raised e)
      | Ok entries =>
          if bool_decide (entries ≠ []) then inl RaisedException
          else inr (new_executor temp_dir, false)
      end
  end.

(** [close]: the directory tree it removes. *)
Definition close (rm_temp_dir : bool) (executor : executor) : option string :=
  if rm_temp_dir then Some (temp_dir executor) else None.

(** What [run_job] leaves: how it ended, the executor if one was made, and
    the directory tree removed on the way out. *)
Record job_outcome : Type := JobOutcome {
  jo_result : job_result;
  jo_executor : option executor;
  jo_rmtree : option string
}.

(** [run_job], with [config] as [json.dumps] renders it. *)
Definition run_job (w : world) (fs : tempfiles) (build_store : string → option string)
    (job_spec : job_spec) (override_env virtuals : gmap string string)
    (cwd : string) (config : string) (temp_dir : option string) : job_outcome :=
  match canonicalize_job_spec job_spec with
  | Raise e => JobOutcome (Raised e) None None
  | Ok job_spec =>
      match get_imports_env (os w) build_store virtuals (cjs_import job_spec) with
      | Raise e => JobOutcome (Raised e) None None
      | Ok env =>
          let env := cjs_nohash_params job_spec ∪ env in
          let env := override_env ∪ env in
          let env := <["HDIST_VIRTUALS" := pack_virtuals_envvar virtuals]> env in
          let env := <["HDIST_CONFIG" := config]> env in
          match CommandTreeExecution fs temp_dir with
          | inl failure => JobOutcome failure None None
          | inr (executor, rm_temp_dir) =>
              let '(executor, r) := run_node w (cjs_node job_spec) env cwd [] executor in
              let removed := close rm_temp_dir executor in
              match r with
              | Raise e => JobOutcome (Raised e) (Some executor) removed
              | Ok _ => JobOutcome (Returned (last_env executor)) (Some executor) removed
              end
          end
      end
  end.

(** No directory holds anything, [mkdtemp] makes [/tmp/hashdist-run-job-1]. *)
Definition sample_tempfiles : tempfiles :=
  TempFiles (λ _, Ok []) "/tmp/hashdist-run-job-1".

(** A job without imports: [A] is set, a command's output goes to [X],
    then [B] is set. *)
Definition sample_job : job_spec :=
  JobSpec None None
    (group_node [set_node "A" "1"; cmd_to_var_node ["echo"] "X"; set_node "B" "2"]).

(** ** What a read completes *)

(** The lines a read hands to the logger and the rest it keeps in the
    buffer, of the lines [buffers[fd].splitlines(True)] gave: the last line
    is kept unless it ends with a line feed. *)
Definition framed (lines : list string) : list string * string :=
  match last lines with
  | Some l =>
      if bool_decide (LogMux.last_char l = Some LogMux.LF) then (lines, "")
      else (removelast lines, l)
  | None => ([], "")
  end.

Definition complete_lines (s : string) : list string :=
  (framed (LogMux.splitlines s)).1.

Definition pending (s : string) : string :=
  (framed (LogMux.splitlines s)).2.

(** Two states that differ in the captured text only. *)
Definition same_but_capture (a a' : LogMux.mux) : Prop :=
  LogMux.loggers a' = LogMux.loggers a
  ∧ LogMux.buffers a' = LogMux.buffers a
  ∧ LogMux.fd_to_logpipe a' = LogMux.fd_to_logpipe a
  ∧ LogMux.stdout_fd a' = LogMux.stdout_fd a
  ∧ LogMux.stderr_fd a' = LogMux.stderr_fd a
  ∧ LogMux.log a' = LogMux.log a
  ∧ is_Some (LogMux.stdout_to a) ∧ is_Some (LogMux.stdout_to a').

(** A read of the descriptor [out]. *)
Definition reads_from (out : nat) (ev : LogMux.event) : bool :=
  match ev with
  | LogMux.POLLIN fd _ => bool_decide (fd = out)
  | _ => false
  end.

(** ** What cannot be unpacked *)

(** The number of times [c] occurs in [s]. *)
Fixpoint count_char (c : ascii) (s : string) : nat :=
  match s with
  | EmptyString => 0
  | String a s' => (if Ascii.eqb a c then 1 else 0) + count_char c s'
  end.

(** ** Working directories *)

(** The working directories of the leaves of a tree, in the order the
    leaves come: each [cwd] key is joined to the directory of the node
    above, as it is written. *)
Fixpoint cwds (nd : node) (cwd : string) : list string :=
  match nd with
  | Node commands cmd hit _ _ _ _ _ _ c _ _ _ _ =>
      let node_cwd := match c with Some c => pjoin cwd c | None => cwd end in
      match commands with
      | Some children => flat_map (λ child, cwds child node_cwd) children
      | None =>
          match cmd, hit with
          | None, None => []
          | _, _ => [node_cwd]
          end
      end
  end.

(** ** What the job leaves behind *)

(** A property of the executor that a computation keeps, whether it
    returns or raises. *)
Definition preserves {A} (P : executor → Prop) (m : M A) : Prop :=
  ∀ ex ex' r, m ex = (ex', r) → P ex → P ex'.

(** The name of a level, as [hit logpipe] takes it. *)
Definition level_name (lv : level) : string :=
  match lv with
  | CRITICAL => "CRITICAL"
  | ERROR => "ERROR"
  | WARNING => "WARNING"
  | INFO => "INFO"
  | DEBUG => "DEBUG"
  end.

(** Every log pipe is the FIFO of its heading and level in [temp_dir]. *)
Definition pipes_in_temp_dir (ex : executor) : Prop :=
  ∀ sublogger_name lv path,
    log_fifo_filenames ex !! (sublogger_name, lv) = Some path →
    path = fifo_path (temp_dir ex) sublogger_name (level_name lv).

(** A world in which every command exits with a non-zero status. *)
Definition failing_world : world :=
  World sample_host (λ _ _ _ _, Raise CalledProcessError) (λ _ _ env _, Ok ("", env)).

(** A job that asks for a log pipe and then starts a command. *)
Definition logpipe_job : job_spec :=
  JobSpec None None
    (group_node [hit_with ["logpipe"; "mylog"; "INFO"] None (Some "LOG") None;
                 cmd_node ["make"]]).

(** ** The names in the temporary directory *)

(** The pieces of the name of an input file, between underscores: the
    position of the node, number by number, and the name of the input with
    its suffix. *)
Definition input_pieces (node_pos : list nat) (i : nat) (inp : input)
    : list string :=
  match node_pos with
  | [] => [""]
  | _ => pretty <$> node_pos
  end ++ [input_name i +:+ input_suffix inp].

(** ** Leaves *)

(** The tool and the argument list of a node that [run_node] hands to
    [handle_cmd] or [handle_hit]: its one type key is [cmd] or [hit]. *)
Definition leaf_command (nd : node) : option (tool * list string) :=
  match find_type nd type_keys None with
  | Ok (Some TCmd) => pair ByCmd <$> n_cmd nd
  | Ok (Some THit) => pair ByHit <$> n_hit nd
  | _ => None
  end.

(** [self.run_cmd] or [self.run_hit], the [func] of [handle_command_nodes]. *)
Definition run_tool (w : world) (tl : tool)
    : list string → gmap string string → string → sink
      → M (string * gmap string string) :=
  match tl with
  | ByCmd => run_cmd w
  | ByHit => run_hit w
  end.

(** [{"hit": args, "cwd": "sub", "inputs": [{"string": "x"}],
     "append_to_file": path}] *)
Definition hit_append_node (args : list string) (path : string) : node :=
  Node None None (Some args) None None None None None None
    (Some "sub") (Some [Input None (Some "x") None]) None (Some path) None.

(** ** What the scope claim speaks of *)

(** Only white space. *)
Fixpoint blank (s : string) : bool :=
  match s with
  | EmptyString => true
  | String a s' => PyStr.is_space a && blank s'
  end.

(** The first character is white space. *)
Definition starts_blank (s : string) : bool :=
  match s with
  | EmptyString => false
  | String a _ => PyStr.is_space a
  end.

(** The last character is white space. *)
Fixpoint ends_blank (s : string) : bool :=
  match s with
  | EmptyString => false
  | String a EmptyString => PyStr.is_space a
  | String _ s' => ends_blank s'
  end.

(** [v] is [out] without the white space at its two ends. *)
Definition stripped (out v : string) : Prop :=
  (∃ l r, out = l +:+ v +:+ r ∧ blank l = true ∧ blank r = true)
  ∧ starts_blank v = false
  ∧ ends_blank v = false.

(** A variable set, an inner group that sets it again, a command whose
    output goes to a variable, and a command that reads that variable. *)
Definition to_var_scenario : node :=
  group_node
    [set_node "A" "1";
     group_node [set_node "A" "2"];
     cmd_to_var_node ["/bin/sh"; "-c"; "echo \$A"] "OUT";
     cmd_node ["echo"; "$OUT"]].

(** * Properties *)

(** ** Variable substitution *)

Section substitute_props.
Context (env : gmap string string).

Lemma rmap_is_ok {A B} (f : A → B) (r : result A) :
  is_ok r → is_ok (rmap f r).
Proof. intros [a ->]. by eexists. Qed.

Lemma rmap_raise {A B} (f : A → B) (r : result A) x :
  r = Raise x → rmap f r = Raise x.
Proof. by intros ->. Qed.

(** The template engine against the names of the template: it succeeds
    when all are bound, raises [KeyError] when the template is well formed
    and a name is missing, and raises one of the two errors otherwise. *)
Lemma template_go_names (s : string) : ∀ skip,
  match Template.names_go skip s with
  | Some names =>
      (Forall (bound env) names → is_ok (Template.substitute_go env skip s))
      ∧ (¬ Forall (bound env) names → Template.substitute_go env skip s = Raise KeyError)
  | None =>
      ∃ x, Template.substitute_go env skip s = Raise x
           ∧ (x = KeyError ∨ x = ValueError)
  end.
Proof.
  induction s as [|c s IH]; intros skip; simpl.
  { split; [by eexists|]. intros H. destruct H. constructor. }
  destruct skip as [|k]; [|apply IH].
  destruct (Ascii.eqb c "$").
  - destruct (Template.classify s) as [|n k|].
    + specialize (IH 1). destruct (Template.names_go 1 s) as [names|].
      * destruct IH as [IH1 IH2]. split; intros H.
        -- by apply rmap_is_ok, IH1.
        -- by apply rmap_raise, IH2.
      * destruct IH as (x & Hx & Hx'). exists x. split; [by apply rmap_raise|done].
    + specialize (IH k). destruct (Template.names_go k s) as [names|]; simpl.
      * destruct IH as [IH1 IH2]. split; intros H.
        -- apply Forall_cons in H as [[v Hv] H]. rewrite Hv.
           by apply rmap_is_ok, IH1.
        -- destruct (env !! n) as [v|] eqn:Hv; [|done].
           apply rmap_raise, IH2. intros H'. apply H.
           constructor; [by eexists|done].
      * destruct IH as (x & Hx & Hx').
        destruct (env !! n) as [v|]; [|by exists KeyError; auto].
        exists x. split; [by apply rmap_raise|done].
    + exists ValueError. auto.
  - specialize (IH 0). destruct (Template.names_go 0 s) as [names|].
    + destruct IH as [IH1 IH2]. split; intros H.
      * by apply rmap_is_ok, IH1.
      * by apply rmap_raise, IH2.
    + destruct IH as (x & Hx & Hx'). exists x. split; [by apply rmap_raise|done].
Qed.

End substitute_props.

(** C2 (as stated) fails: a lone dollar sign has no [$$] and names no
    variable, and [substitute] raises [ValueError] on it. *)
Lemma substitute_lone_dollar_fails :
  PyStr.contains "$$" "$" = false
  ∧ (∀ n : string, n ≠ "" →
       PyStr.contains ("$" +:+ n) "$" = false
       ∧ PyStr.contains ("${" +:+ n +:+ "}") "$" = false)
  ∧ substitute "$" ∅ = Raise ValueError.
Proof.
  split; [done|]. split; [|done].
  intros [|a n] Hn; [done|]. split; reflexivity.
Qed.

(** C2 (amended): [substitute s e] succeeds exactly when [s] has no [$$],
    every [$] left after the escapes starts a well-formed [$NAME] or
    [${NAME}], and every such NAME is bound in [e]; with [$$] in [s], or
    with a well-formed [s] and an unbound NAME, it raises [KeyError]; it
    never raises anything but [KeyError] or [ValueError]. *)
Theorem substitute_succeeds_iff (s : string) (e : gmap string string) :
  (is_ok (substitute s e) ↔
     PyStr.contains "$$" s = false
     ∧ ∃ names, referenced s = Some names ∧ Forall (bound e) names)
  ∧ (PyStr.contains "$$" s = true → substitute s e = Raise KeyError)
  ∧ (∀ names, PyStr.contains "$$" s = false → referenced s = Some names →
       ¬ Forall (bound e) names → substitute s e = Raise KeyError)
  ∧ (∀ x, substitute s e = Raise x → x = KeyError ∨ x = ValueError).
Proof.
  unfold substitute, referenced, Template.names, Template.substitute.
  pose proof (template_go_names e (unescape s) 0) as H.
  destruct (PyStr.contains "$$" s).
  { split; [split|split; [done|split; [done|]]].
    - by intros [a Ha].
    - by intros [? _].
    - intros x [= <-]. auto. }
  destruct (Template.names_go 0 (unescape s)) as [names|].
  - destruct H as [H1 H2].
    assert (Forall (bound e) names ∨ ¬ Forall (bound e) names) as Hdec.
    { assert (Decision (Forall (bound e) names)) as [?|?]
        by (unfold bound; apply _); auto. }
    split; [split|split; [done|split]].
    + intros [a Ha]. split; [done|]. exists names. split; [done|].
      destruct Hdec as [|Hn]; [done|]. apply H2 in Hn. congruence.
    + intros (_ & names' & [= <-] & Hb). by apply H1.
    + intros names' _ [= <-] Hn. by apply H2.
    + intros x Hx. destruct Hdec as [Hb|Hn].
      * apply H1 in Hb as [a Ha]. congruence.
      * apply H2 in Hn. left. congruence.
  - destruct H as (x & Hx & Hx').
    split; [split|split; [done|split; [done|]]].
    + intros [a Ha]. congruence.
    + by intros (_ & names & ? & _).
    + intros y Hy. assert (x = y) as <- by congruence. done.
Qed.

(** C3: the escape rewrite takes four backslashes to two, so a doubled
    backslash comes out doubled, not single; backslash-dollar gives a dollar
    sign and a backslash before another character is kept. *)
Theorem substitute_escapes (e : gmap string string) :
  substitute "\\" e = Ok "\\"
  ∧ substitute "\\\\" e = Ok "\\"
  ∧ substitute "\$" e = Ok "$"
  ∧ substitute "\a" e = Ok "\a".
Proof. repeat split; reflexivity. Qed.

(** ** Environment mutators *)

Lemma run_node_unfold w nd env cwd node_pos :
  run_node w nd env cwd node_pos =
  match find_type nd type_keys None with
  | Raise e => raise e
  | Ok None => raise InvalidJobSpecError
  | Ok (Some type) =>
      match type with
      | TCommands =>
          match n_commands nd with
          | Some children => handle_commands (run_node w) children nd env cwd node_pos
          | None => raise KeyError
          end
      | TCmd | THit => handle_command_nodes w nd env cwd node_pos
      | TSet =>
          handle_env_mod nd env (default "" (n_set nd)) ActSet ""
      | TAppendPath =>
          handle_env_mod nd env (default "" (n_append_path nd)) ActAppend (pathsep (os w))
      | TPrependPath =>
          handle_env_mod nd env (default "" (n_prepend_path nd)) ActPrepend (pathsep (os w))
      | TAppendFlag =>
          handle_env_mod nd env (default "" (n_append_flag nd)) ActAppend " "
      | TPrependFlag =>
          handle_env_mod nd env (default "" (n_prepend_flag nd)) ActPrepend " "
      end
  end.
Proof. by destruct nd. Qed.

Lemma length_zero_empty (s : string) :
  (String.length s =? 0) = bool_decide (s = "").
Proof. by destruct s. Qed.

(** What [handle_env_mod] leaves in [env] once the value is substituted. *)
Lemma handle_env_mod_ok nd env var act sep raw v ex :
  n_value nd = Some raw →
  self_substitute raw env = Ok v →
  handle_env_mod nd env var act sep ex =
    (ex, Ok (<[var :=
      match act, env !! var with
      | ActSet, _ | _, None => v
      | ActPrepend, Some old => if bool_decide (old = "") then v else v +:+ sep +:+ old
      | ActAppend, Some old => if bool_decide (old = "") then v else old +:+ sep +:+ v
      end]> env)).
Proof.
  intros Hraw Hv. unfold handle_env_mod, bind, lift. rewrite Hraw, Hv.
  destruct act, (env !! var) as [old|]; try done;
    rewrite length_zero_empty; by destruct (bool_decide (old = "")).
Qed.

(** C6: a [set] node assigns the substituted value; the [prepend_*] and
    [append_*] nodes assign it when the variable is absent or empty and
    otherwise join it with the old value, [os.pathsep] for [*_path] and a
    space for [*_flag], the new value first for [prepend] and last for
    [append]; two [prepend_path] of "a" then "b" on an absent variable leave
    "b", the separator, "a". *)
Theorem env_mutator_semantics w nd env cwd node_pos ex var raw v :
  n_value nd = Some raw →
  self_substitute raw env = Ok v →
  let old := default "" (env !! var) in
  let run := run_node w nd env cwd node_pos ex in
  let assigns (x : string) := run = (ex, Ok (<[var := x]> env)) in
  (find_type nd type_keys None = Ok (Some TSet) → n_set nd = Some var →
     assigns v)
  ∧ (find_type nd type_keys None = Ok (Some TPrependPath) →
     n_prepend_path nd = Some var →
     assigns (if bool_decide (old = "") then v else v +:+ pathsep (os w) +:+ old))
  ∧ (find_type nd type_keys None = Ok (Some TAppendPath) →
     n_append_path nd = Some var →
     assigns (if bool_decide (old = "") then v else old +:+ pathsep (os w) +:+ v))
  ∧ (find_type nd type_keys None = Ok (Some TPrependFlag) →
     n_prepend_flag nd = Some var →
     assigns (if bool_decide (old = "") then v else v +:+ " " +:+ old))
  ∧ (find_type nd type_keys None = Ok (Some TAppendFlag) →
     n_append_flag nd = Some var →
     assigns (if bool_decide (old = "") then v else old +:+ " " +:+ v))
  ∧ (env !! var = None →
     ∃ env1 env2,
       run_node w (prepend_path_node var "a") env cwd node_pos ex = (ex, Ok env1)
       ∧ env1 !! var = Some "a"
       ∧ run_node w (prepend_path_node var "b") env1 cwd node_pos ex = (ex, Ok env2)
       ∧ env2 !! var = Some ("b" +:+ pathsep (os w) +:+ "a")).
Proof.
  intros Hraw Hv old run assigns. subst run assigns old.
  repeat apply conj.
  1-5: intros Ht Hvar; rewrite run_node_unfold, Ht, Hvar; simpl;
       rewrite (handle_env_mod_ok _ _ _ _ _ raw v) by done;
       by destruct (env !! var) as [old|].
  intros Hnone.
  eexists _, _. split; [|split; [|split]].
  - rewrite run_node_unfold. simpl.
    by rewrite (handle_env_mod_ok _ _ _ _ _ "a" "a").
  - rewrite Hnone. apply lookup_insert_eq.
  - rewrite run_node_unfold. simpl.
    by rewrite (handle_env_mod_ok _ _ _ _ _ "b" "b").
  - by rewrite Hnone, !lookup_insert_eq.
Qed.

Lemma env_mutator_semantics_witness :
  run_node (sample_world "") (set_node "A" "x$B") {[ "B" := "1" ]} "/" []
    (new_executor "/tmp/job")
  = (new_executor "/tmp/job", Ok (<["A" := "x1"]> {[ "B" := "1" ]})).
Proof.
  apply (env_mutator_semantics (sample_world "") (set_node "A" "x$B")
           {[ "B" := "1" ]} "/" [] (new_executor "/tmp/job") "A" "x$B" "x1");
    reflexivity.
Defined.

(** ** Leaf commands *)

(** A [cmd] leaf with [to_var], no inputs and no [stdout_to_file] key:
    the command runs with an in-memory sink and the stripped output is
    written to the caller's dict, whatever [append_to_file] holds. *)
Lemma cmd_to_var_runs w nd env cwd node_pos ex args args' var out :
  n_cmd nd = Some args → n_hit nd = None → n_commands nd = None →
  n_set nd = None → n_inputs nd = None →
  n_to_var nd = Some var → n_stdout_to_file nd = None →
  substitute_all args env = Ok args' →
  let c := Call ByCmd args' env (process_cwd nd cwd) ToBuffer in
  popen w (add_call c ex) args' env (process_cwd nd cwd) = Ok out →
  handle_command_nodes w nd env cwd node_pos ex =
    (set_last env (process_cwd nd cwd) (add_call c ex),
     Ok (<[var := PyStr.strip out]> env)).
Proof.
  intros Hcmd Hhit Hcommands Hset Hinputs Hvar Hfile Hargs c Hout.
  unfold handle_command_nodes.
  rewrite Hcmd, Hhit, Hcommands, Hset, Hinputs, Hvar, Hfile. simpl.
  unfold dump_inputs, bind, lift, ret, run_cmd, modify, get, bind. simpl.
  rewrite (left_id_L ∅ (∪) env), Hargs. simpl.
  fold c. by rewrite Hout.
Qed.

(** C4: a [cmd] leaf carrying both [to_var] and [append_to_file] is not
    rejected (the check looks for the key [stdout_to_file]): the command is
    started with the in-memory sink and its stripped output lands in the
    variable. *)
Theorem to_var_with_append_to_file_runs w env cwd node_pos ex args args' var path out :
  substitute_all args env = Ok args' →
  let c := Call ByCmd args' env cwd ToBuffer in
  popen w (add_call c ex) args' env cwd = Ok out →
  run_node w (cmd_both_node args var path) env cwd node_pos ex =
    (set_last env cwd (add_call c ex), Ok (<[var := PyStr.strip out]> env)).
Proof.
  intros Hargs c Hout. rewrite run_node_unfold. simpl.
  by rewrite (cmd_to_var_runs w (cmd_both_node args var path) env cwd node_pos
                ex args args' var out).
Qed.

Lemma to_var_with_append_to_file_runs_witness :
  run_node (sample_world "hi ") (cmd_both_node ["/bin/echo"; "hi"] "X" "out.txt")
    ∅ "/" [0] (new_executor "/tmp/job")
  = (set_last ∅ "/"
       (add_call (Call ByCmd ["/bin/echo"; "hi"] ∅ "/" ToBuffer)
          (new_executor "/tmp/job")),
     Ok (<["X" := "hi"]> ∅)).
Proof.
  apply (to_var_with_append_to_file_runs (sample_world "hi ") ∅ "/" [0]
           (new_executor "/tmp/job") ["/bin/echo"; "hi"] ["/bin/echo"; "hi"]
           "X" "out.txt" "hi "); reflexivity.
Defined.

(** ** Groups *)

Lemma handle_commands_env run children nd env cwd node_pos ex ex' env' :
  handle_commands run children nd env cwd node_pos ex = (ex', Ok env') →
  env' = env.
Proof.
  unfold handle_commands, bind, ret.
  destruct (run_children _ _ _ _ _ _ _) as [ex1 [sub|e]]; by intros [= _ ->].
Qed.

(** C5: a [commands] node carrying [to_var], [append_to_file] or [inputs]
    is not rejected: it runs exactly as the node without them, and with no
    children it returns without an error. *)
Theorem group_modifiers_ignored w children c inputs to_var append_to_file
    env cwd node_pos ex :
  run_node w (group_with children c inputs to_var append_to_file) env cwd node_pos ex
  = run_node w (group_with children c None None None) env cwd node_pos ex
  ∧ run_node w (group_with [] c inputs to_var append_to_file) env cwd node_pos ex
    = (ex, Ok env).
Proof. by rewrite !run_node_unfold. Qed.

(** A leaf with [to_var] that returns has written the stripped output of
    its command to the caller's dict and nothing else. *)
Lemma leaf_to_var_env w nd env cwd node_pos ex ex' env' var :
  n_to_var nd = Some var →
  handle_command_nodes w nd env cwd node_pos ex = (ex', Ok env') →
  ∃ out, env' = <[var := PyStr.strip out]> env.
Proof.
  intros Hvar. unfold handle_command_nodes. rewrite Hvar.
  repeat (match goal with
          | |- context [if ?b then _ else _] => destruct b
          end; [by intros [= ]|]).
  destruct (match n_cmd nd with Some _ => _ | None => _ end) as [[args func]|];
    [|by intros [= ]].
  unfold bind, lift, ret, modify.
  destruct (dump_inputs _ _ _) as [ex1 [in_env|e]]; [|by intros [= ]].
  destruct (substitute_all _ _) as [args'|e]; [|by intros [= ]].
  destruct (func _ _ _ _ _) as [ex2 [[out node_env]|e]]; [|by intros [= ]].
  intros [= _ <-]. by exists out.
Qed.

Lemma run_children_cons run cwd node_pos nd rest i env ex ex' env' :
  run nd env cwd (node_pos ++ [i]) ex = (ex', Ok env') →
  run_children run cwd node_pos (nd :: rest) i env ex =
  run_children run cwd node_pos rest (S i) env' ex'.
Proof. intros H. simpl. unfold bind. by rewrite H. Qed.

Example scope_scenario_run :
  run_node echo_A_world scope_scenario ∅ "/" [] (new_executor "/tmp/job")
  = (set_last {[ "A" := "1" ]} "/"
       (add_call (Call ByCmd ["/bin/sh"; "-c"; "echo $A"] {[ "A" := "1" ]} "/" ToBuffer)
          (new_executor "/tmp/job")),
     Ok ∅).
Proof. vm_compute. reflexivity. Qed.

(** ** Redirection with [append_to_file] *)

Lemma prefix_refl (s : string) : String.prefix s s = true.
Proof. induction s as [|a s IH]; simpl; [done|]. by destruct (ascii_dec a a). Qed.

Lemma prefix_app_l (a b p : string) :
  String.prefix (a +:+ b) p = true → String.prefix a p = true.
Proof.
  revert p. induction a as [|c a IH]; intros p.
  { by destruct p. }
  change (String c a +:+ b) with (String c (a +:+ b)).
  destruct p as [|d p]; simpl; [done|]. destruct (ascii_dec c d); [apply IH|done].
Qed.

Lemma path_under_startswith (dir p : string) :
  path_under dir p = true → PyStr.startswith p dir = true.
Proof.
  unfold path_under, PyStr.startswith. intros [H|H]%orb_true_iff.
  - apply bool_decide_eq_true in H as ->. apply prefix_refl.
  - destruct (endswith_slash dir); [done|]. by eapply prefix_app_l.
Qed.

(** ** Imports *)

Section imports_props.
Context (hst : host) (resolve : string → option string)
        (virtuals : gmap string string).

Ltac case_paths :=
  repeat match goal with
         | |- context [path_exists ?h ?p] => destruct (path_exists h p) eqn:?
         end.

Lemma import_step_ok st dep st' :
  import_step hst resolve virtuals st dep = Ok st' →
  is_PATH st' = is_PATH st ++ bin_dirs hst resolve virtuals imp_in_env [dep]
  ∧ is_HDIST_IMPORT st' = is_HDIST_IMPORT st ++ [imp_id dep].
Proof.
  unfold import_step, bin_dirs, import_dir. simpl.
  destruct (PyStr.startswith (imp_id dep) "virtual:").
  - destruct (virtuals !! imp_id dep) as [d|]; simpl; [|done].
    destruct (resolve d) as [dir|]; simpl; [|done].
    destruct (imp_in_env dep); simpl.
    + case_paths; simpl; try done; intros [= <-]; simpl; by rewrite ?app_nil_r.
    + intros [= <-]. simpl. by rewrite app_nil_r.
  - simpl. destruct (resolve (imp_id dep)) as [dir|]; simpl; [|done].
    destruct (imp_in_env dep); simpl.
    + case_paths; simpl; try done; intros [= <-]; simpl; by rewrite ?app_nil_r.
    + intros [= <-]. simpl. by rewrite app_nil_r.
Qed.

Lemma bin_dirs_cons keep dep imports :
  bin_dirs hst resolve virtuals keep (dep :: imports) =
  bin_dirs hst resolve virtuals keep [dep]
  ++ bin_dirs hst resolve virtuals keep imports.
Proof. unfold bin_dirs. simpl. by destruct (_ ≫= _). Qed.

Lemma imports_loop_ok imports : ∀ st st',
  imports_loop hst resolve virtuals st imports = Ok st' →
  is_PATH st' = is_PATH st ++ bin_dirs hst resolve virtuals imp_in_env imports
  ∧ is_HDIST_IMPORT st' = is_HDIST_IMPORT st ++ (imp_id <$> imports).
Proof.
  induction imports as [|dep imports IH]; intros st st' Hloop; simpl in Hloop.
  { injection Hloop as <-. by rewrite !app_nil_r. }
  destruct (import_step _ _ _ st dep) as [st1|e] eqn:Hstep; simpl in Hloop; [|done].
  apply import_step_ok in Hstep as [HP HI].
  apply IH in Hloop as [HP' HI'].
  by rewrite HP', HI', HP, HI, (bin_dirs_cons _ dep imports), <-!app_assoc.
Qed.

Lemma import_step_total st dep :
  import_ok hst resolve virtuals dep →
  is_ok (import_step hst resolve virtuals st dep).
Proof.
  intros (dir & Hdir & Hlib). unfold import_step, import_dir in *.
  destruct (PyStr.startswith (imp_id dep) "virtual:").
  - destruct (virtuals !! imp_id dep) as [d|]; simpl in *; [|done].
    rewrite Hdir. destruct (imp_in_env dep); simpl; [|by eexists].
    specialize (Hlib eq_refl).
    case_paths; simpl in *; try lia; by eexists.
  - simpl in *. rewrite Hdir.
    destruct (imp_in_env dep); simpl; [|by eexists].
    specialize (Hlib eq_refl).
    case_paths; simpl in *; try lia; by eexists.
Qed.

Lemma imports_loop_total imports : ∀ st,
  Forall (import_ok hst resolve virtuals) imports →
  is_ok (imports_loop hst resolve virtuals st imports).
Proof.
  induction imports as [|dep imports IH]; intros st Hok; simpl.
  { by eexists. }
  apply Forall_cons in Hok as [Hdep Hok].
  destruct (import_step_total st dep Hdep) as [st1 ->]. simpl. by apply IH.
Qed.

End imports_props.

(** C7 (as stated) fails: an import with [in_env] false whose [bin]
    directory exists is left out of [PATH]. *)
Lemma imports_path_skips_not_in_env :
  PyStr.join ":"
    (bin_dirs full_host one_artifact ∅ (λ _, true) [Import "a" None false])
  = "/a/bin"
  ∧ rmap (λ env : gmap string string, env !! "PATH")
      (get_imports_env full_host one_artifact ∅ [Import "a" None false])
    = Ok (Some "").
Proof. split; vm_compute; reflexivity. Qed.

(** C7 (amended): when [get_imports_env] returns, [PATH] is the
    [os.pathsep] join of the existing [bin] directories of the imports that
    have [in_env] set, in the order of the import list, and [HDIST_IMPORT]
    is the space join of the raw ids in that order; it returns whenever
    every import resolves and no import taken into the environment has two
    library directories. *)
Theorem imports_order_and_aggregation hst resolve virtuals imports :
  (∀ env, get_imports_env hst resolve virtuals imports = Ok env →
     env !! "PATH"
       = Some (PyStr.join (pathsep hst)
                 (bin_dirs hst resolve virtuals imp_in_env imports))
     ∧ env !! "HDIST_IMPORT" = Some (PyStr.join " " (imp_id <$> imports)))
  ∧ (Forall (import_ok hst resolve virtuals) imports →
     is_ok (get_imports_env hst resolve virtuals imports)).
Proof.
  unfold get_imports_env. split.
  - intros env.
    destruct (imports_loop _ _ _ _ imports) as [st|e] eqn:Hloop; simpl; [|done].
    apply imports_loop_ok in Hloop as [HP HI]. simpl in HP, HI.
    intros [= <-]. rewrite HP, HI. split.
    + do 4 (rewrite lookup_insert_ne by done). by rewrite lookup_insert_eq.
    + rewrite lookup_insert_ne by done. by rewrite lookup_insert_eq.
  - intros Hok.
    destruct (imports_loop_total hst resolve virtuals imports imports_init Hok)
      as [st ->].
    by eexists.
Qed.

Lemma imports_order_and_aggregation_witness :
  let imports := [Import "virtual:b" (Some "B") true; Import "a" None true] in
  ∃ env,
    get_imports_env bin_host two_artifacts {[ "virtual:b" := "b/1" ]} imports = Ok env
    ∧ env !! "PATH" = Some "/b/bin:/a/bin"
    ∧ env !! "HDIST_IMPORT" = Some "virtual:b a".
Proof.
  intros imports.
  destruct (proj2 (imports_order_and_aggregation bin_host two_artifacts
                     {[ "virtual:b" := "b/1" ]} imports)) as [env Henv].
  { repeat constructor; [exists "/b"|exists "/a"]; split; try reflexivity;
      intros _; vm_compute; lia. }
  exists env. split; [done|].
  apply (proj1 (imports_order_and_aggregation bin_host two_artifacts
                  {[ "virtual:b" := "b/1" ]} imports) env Henv).
Defined.

(** ** Strings: append, reverse, split and join *)

Section string_lemmas.

Lemma str_app_nil_r (s : string) : s +:+ "" = s.
Proof. induction s as [|a s IH]; [done|]. unfold String.app in *. simpl. by rewrite IH. Qed.

Lemma str_app_cons (a : ascii) (s t : string) :
  String a s +:+ t = String a (s +:+ t).
Proof. done. Qed.

Lemma str_app_assoc (s t u : string) : (s +:+ t) +:+ u = s +:+ t +:+ u.
Proof.
  induction s as [|a s IH]; [done|]. by rewrite !str_app_cons, IH.
Qed.

Lemma rev_app_spec (s t : string) : String.rev_app s t = String.rev s +:+ t.
Proof.
  revert t. induction s as [|a s IH]; intros t; [done|].
  unfold String.rev. simpl. rewrite (IH (String a t)), (IH (String a "")).
  by rewrite str_app_assoc.
Qed.

Lemma rev_cons (a : ascii) (s : string) :
  String.rev (String a s) = String.rev s +:+ String a "".
Proof. unfold String.rev at 1. simpl. apply rev_app_spec. Qed.

Lemma has_char_app c (s t : string) :
  has_char c (s +:+ t) = has_char c s || has_char c t.
Proof.
  induction s as [|a s IH]; [done|].
  rewrite str_app_cons. simpl. by rewrite IH, orb_assoc.
Qed.

(** [split] without its accumulator. *)
Lemma split_go_acc c (s cur : string) :
  PyStr.split_go c cur s =
  match PyStr.split_go c "" s with
  | x :: r => (String.rev cur +:+ x) :: r
  | [] => []
  end.
Proof.
  revert cur. induction s as [|a s IH]; intros cur; simpl.
  { by rewrite str_app_nil_r. }
  destruct (Ascii.eqb a c).
  - by rewrite str_app_nil_r.
  - rewrite (IH (String a cur)), (IH (String a "")).
    destruct (PyStr.split_go c "" s) as [|x r]; [done|].
    by rewrite rev_cons, !str_app_assoc.
Qed.

Lemma split_nil c : PyStr.split c "" = [""].
Proof. done. Qed.

Lemma split_cons c a (s : string) :
  PyStr.split c (String a s) =
  if Ascii.eqb a c then "" :: PyStr.split c s
  else match PyStr.split c s with
       | x :: r => String a x :: r
       | [] => []
       end.
Proof.
  unfold PyStr.split. simpl. destruct (Ascii.eqb a c); [done|].
  rewrite split_go_acc. by destruct (PyStr.split_go c "" s).
Qed.

(** A piece without the separator, followed by the separator. *)
Lemma split_app_sep c (x s : string) :
  has_char c x = false →
  PyStr.split c (x +:+ String c s) = x :: PyStr.split c s.
Proof.
  induction x as [|a x IH]; simpl; intros Hx.
  - change ("" +:+ String c s) with (String c s).
    by rewrite split_cons, Ascii.eqb_refl.
  - apply orb_false_iff in Hx as [Ha Hx].
    by rewrite str_app_cons, split_cons, Ha, IH.
Qed.

Lemma split_no_sep c (x : string) :
  has_char c x = false → PyStr.split c x = [x].
Proof.
  induction x as [|a x IH]; simpl; intros Hx; [done|].
  apply orb_false_iff in Hx as [Ha Hx].
  by rewrite split_cons, Ha, IH.
Qed.

(** Splitting a join of separator-free pieces gives the pieces back. *)
Lemma split_join c (l : list string) :
  l ≠ [] → Forall (λ x, has_char c x = false) l →
  PyStr.split c (PyStr.join (String c "") l) = l.
Proof.
  induction l as [|x l IH]; [done|]. intros _ [Hx Hl]%Forall_cons.
  destruct l as [|y l].
  - by apply split_no_sep.
  - change (PyStr.join (String c "") (x :: y :: l))
      with (x +:+ String c "" +:+ PyStr.join (String c "") (y :: l)).
    change (String c "" +:+ ?t) with (String c t).
    rewrite split_app_sep by done. by rewrite IH.
Qed.

End string_lemmas.

(** ** Packing and unpacking the virtuals *)

Section virtuals_props.

Global Instance tuple_le_total : Total tuple_le.
Proof.
  intros a b. unfold tuple_le.
  destruct (decide (a.1 = b.1)), (decide (b.1 = a.1));
    try congruence; apply (total String.le).
Qed.

Global Instance tuple_le_antisymm : AntiSymm (=) tuple_le.
Proof.
  intros [a1 a2] [b1 b2]. unfold tuple_le. simpl.
  destruct (decide (a1 = b1)) as [Hab|Hab], (decide (b1 = a1)) as [Hba|Hba];
    try congruence; intros Hle Hge.
  - subst. f_equal. by apply (anti_symm String.le).
  - exfalso. by apply Hab, (anti_symm String.le).
Qed.

Global Instance tuple_le_trans : Transitive tuple_le.
Proof.
  intros [a1 a2] [b1 b2] [c1 c2]. unfold tuple_le. simpl.
  destruct (decide (a1 = b1)) as [Hab|Hab], (decide (b1 = c1)) as [Hbc|Hbc],
    (decide (a1 = c1)) as [Hac|Hac];
    subst; try congruence; intros Hle Hle';
    first [done | by etrans | exfalso; by apply Hab, (anti_symm String.le)].
Qed.

Lemma dict_of_tuples_as_lists (l : list (string * string)) : ∀ acc,
  NoDup l.*1 →
  dict_of_tuples acc (as_lists l) = Ok (list_to_map l ∪ acc).
Proof.
  induction l as [|[k v] l IH]; intros acc Hnd; simpl.
  { by rewrite (left_id_L ∅ (∪)). }
  apply NoDup_cons in Hnd as [Hk Hnd]. rewrite IH by done. f_equal.
  rewrite <-insert_union_r, insert_union_l; [done|].
  by apply not_elem_of_list_to_map_1.
Qed.

Lemma split_format_tuple (tup : string * string) :
  has_char "=" tup.1 = false → has_char "=" tup.2 = false →
  PyStr.split "=" (format_tuple tup) = [tup.1; tup.2].
Proof.
  intros H1 H2. unfold format_tuple.
  change ("=" +:+ tup.2) with (String "=" tup.2).
  rewrite split_app_sep by done. by rewrite split_no_sep.
Qed.

Lemma format_tuple_no_semicolon (tup : string * string) :
  has_char ";" tup.1 = false → has_char ";" tup.2 = false →
  has_char ";" (format_tuple tup) = false.
Proof.
  intros H1 H2. unfold format_tuple. rewrite !has_char_app, H1, H2. done.
Qed.

Lemma join_format_nonempty (tup : string * string) l :
  PyStr.join ";" (format_tuple <$> tup :: l) ≠ "".
Proof.
  destruct tup as [k v]. unfold format_tuple. simpl.
  destruct l; destruct k; done.
Qed.

(** Unpacking the packed form of a list of pairs with distinct keys. *)
Lemma unpack_join (l : list (string * string)) :
  NoDup l.*1 →
  Forall (λ tup, packable tup.1 ∧ packable tup.2) l →
  unpack_virtuals_envvar (PyStr.join ";" (format_tuple <$> l)) = Ok (list_to_map l).
Proof.
  intros Hnd Hl. destruct l as [|tup l]; [done|].
  unfold unpack_virtuals_envvar.
  pose proof (join_format_nonempty tup l) as Hne.
  destruct (PyStr.join ";" (format_tuple <$> tup :: l)) eqn:Hj; [done|].
  rewrite <-Hj. clear Hj Hne.
  rewrite split_join; [|done|].
  - replace (PyStr.split "=" <$> (format_tuple <$> tup :: l))
      with (as_lists (tup :: l)).
    { rewrite dict_of_tuples_as_lists by done. by rewrite (right_id_L ∅ (∪)). }
    unfold as_lists. rewrite <-list_fmap_compose.
    apply Forall_fmap_ext_1. eapply Forall_impl; [exact Hl|].
    intros x [[H1 _] [H2 _]]. simpl. by rewrite split_format_tuple.
  - apply Forall_fmap. eapply Forall_impl; [exact Hl|].
    intros x [[_ H1] [_ H2]]. simpl. by apply format_tuple_no_semicolon.
Qed.

End virtuals_props.

(** C10: unpacking the packed form of a mapping whose keys and values hold
    neither [=] nor [;] gives the mapping back; the empty mapping packs to
    the empty string, which unpacks to the empty mapping; and the packed
    string is the same whatever order the dict yields its items in. *)
Theorem virtuals_round_trip (v : gmap string string) :
  ((∀ k x, v !! k = Some x → packable k ∧ packable x) →
     unpack_virtuals_envvar (pack_virtuals_envvar v) = Ok v)
  ∧ pack_virtuals_envvar ∅ = ""
  ∧ unpack_virtuals_envvar "" = Ok ∅
  ∧ (∀ items, items ≡ₚ map_to_list v → pack_items items = pack_virtuals_envvar v).
Proof.
  split; [|split; [done|split; [done|]]].
  - intros Hv. unfold pack_virtuals_envvar, pack_items.
    pose proof (merge_sort_Permutation tuple_le (map_to_list v)) as Hperm.
    rewrite unpack_join.
    + f_equal. rewrite <-(list_to_map_to_list v) at 2.
      apply list_to_map_proper; [|done].
      rewrite Hperm. apply NoDup_fst_map_to_list.
    + rewrite Hperm. apply NoDup_fst_map_to_list.
    + rewrite Hperm. apply Forall_forall. intros [k x] Hin.
      apply elem_of_map_to_list in Hin. by apply Hv.
  - intros items Hperm. unfold pack_virtuals_envvar, pack_items. do 2 f_equal.
    apply (Sorted_unique tuple_le).
    + apply Sorted_merge_sort, _.
    + apply Sorted_merge_sort, _.
    + by rewrite !merge_sort_Permutation.
Qed.

Lemma virtuals_round_trip_witness :
  unpack_virtuals_envvar
    (pack_virtuals_envvar {[ "virtual:unix" := "unix/abc"; "virtual:bash" := "bash/x1" ]})
  = Ok {[ "virtual:unix" := "unix/abc"; "virtual:bash" := "bash/x1" ]}.
Proof.
  apply (virtuals_round_trip
           {[ "virtual:unix" := "unix/abc"; "virtual:bash" := "bash/x1" ]}).
  intros k x Hk.
  apply lookup_insert_Some in Hk as [[<- <-]|[_ Hk]]; [by vm_compute|].
  apply lookup_singleton_Some in Hk as [<- <-]. by vm_compute.
Defined.

Example pack_virtuals_sorted :
  pack_virtuals_envvar {[ "virtual:unix" := "unix/abc"; "virtual:bash" := "bash/x1" ]}
  = "virtual:bash=bash/x1;virtual:unix=unix/abc".
Proof. vm_compute. reflexivity. Qed.

(** ** Line assembly *)

Section framing.
Import LogMux.

Lemma split_nonempty c (s : string) : PyStr.split c s ≠ [].
Proof.
  induction s as [|a s IH]; [done|]. rewrite split_cons.
  destruct (Ascii.eqb a c); [done|]. by destruct (PyStr.split c s).
Qed.

Lemma terminated_nil : terminated "" = [].
Proof. done. Qed.

Lemma unterminated_nil : unterminated "" = "".
Proof. done. Qed.

Lemma terminated_cons a (s : string) :
  terminated (String a s) =
  if Ascii.eqb a LF then "" :: terminated s
  else match terminated s with
       | [] => []
       | x :: r => String a x :: r
       end.
Proof.
  unfold terminated. rewrite split_cons.
  pose proof (split_nonempty LF s) as Hne.
  destruct (Ascii.eqb a LF), (PyStr.split LF s) as [|x [|y r]]; done.
Qed.

Lemma unterminated_cons a (s : string) :
  unterminated (String a s) =
  if Ascii.eqb a LF then unterminated s
  else match terminated s with
       | [] => String a (unterminated s)
       | _ :: _ => unterminated s
       end.
Proof.
  unfold unterminated, terminated. rewrite split_cons.
  pose proof (split_nonempty LF s) as Hne.
  destruct (Ascii.eqb a LF), (PyStr.split LF s) as [|x [|y r]]; done.
Qed.











Lemma last_char_nonempty (s : string) : s ≠ "" → is_Some (last_char s).
Proof.
  induction s as [|a s IH]; [done|]. intros _. simpl.
  destruct s as [|b s]; [by eexists|]. by apply IH.
Qed.



Lemma unterminated_idem (s : string) : unterminated (unterminated s) = unterminated s.
Proof.
  induction s as [|a s IH]; [done|]. rewrite unterminated_cons.
  destruct (Ascii.eqb a LF) eqn:Ha; [done|].
  destruct (terminated s) eqn:HT; [|done].
  rewrite unterminated_cons, Ha, IH.
  assert (terminated (unterminated s) = []) as ->; [|done].
  clear IH. induction s as [|b s IHs]; [done|].
  rewrite terminated_cons in HT. rewrite unterminated_cons.
  destruct (Ascii.eqb b LF) eqn:Hb; [done|].
  destruct (terminated s) eqn:HT'; [|done].
  by rewrite terminated_cons, Hb, IHs.
Qed.


Lemma open_fifo_fresh out cap fd name lg m :
  fresh out cap m → fresh out cap (open_fifo fd name lg m).
Proof.
  intros (Hbuf & Hpipes & Hout & Hcap & Hlog).
  split; [|split; [|by repeat split]]; simpl.
  - intros fd' b. destruct (decide (fd' = fd)) as [->|Hne].
    + rewrite lookup_insert_eq. congruence.
    + rewrite lookup_insert_ne by done. apply Hbuf.
  - intros fd'. destruct (decide (fd' = fd)) as [->|Hne].
    + rewrite !lookup_insert_eq. intros _. by split; eexists.
    + rewrite !lookup_insert_ne by done. apply Hpipes.
Qed.

Lemma start_fresh out err cap pipes : fresh out cap (start out err cap pipes).
Proof.
  unfold start.
  set (m0 := Mux _ _ _ _ _ _ _).
  assert (fresh out cap m0) as H0.
  { split; [|split; [|by repeat split]]; simpl.
    - intros fd b. destruct (decide (fd = err)) as [->|Hne].
      + rewrite lookup_insert_eq. congruence.
      + rewrite lookup_insert_ne by done.
        by intros [_ <-]%lookup_singleton_Some.
    - intros fd [? Hfd]. by rewrite lookup_empty in Hfd. }
  clearbody m0. revert m0 H0.
  induction pipes as [|p pipes IH]; intros m0 H0; [done|].
  simpl. apply IH. by apply open_fifo_fresh.
Qed.





End framing.




(** * Further properties *)

(** ** Substitution *)

Section substitute_more.
Context (env : gmap string string).

Lemma substitute_raises x e :
  substitute x env = Raise e → e = KeyError ∨ e = ValueError.
Proof.
  unfold substitute, Template.substitute.
  destruct (PyStr.contains "$$" x); [intros [= <-]; auto|].
  pose proof (template_go_names env (unescape x) 0) as H.
  destruct (Template.names_go 0 (unescape x)) as [names|].
  - destruct H as [H1 H2]. intros He.
    assert (Decision (Forall (bound env) names)) as [Hb|Hn]
      by (unfold bound; apply _).
    + apply H1 in Hb as [a Ha]. congruence.
    + apply H2 in Hn. left. congruence.
  - destruct H as (y & Hy & Hy'). intros He.
    assert (y = e) as <- by congruence. done.
Qed.

Lemma self_substitute_raises x e :
  self_substitute x env = Raise e → e = ValueError.
Proof.
  unfold self_substitute. destruct (substitute x env) as [a|e0] eqn:Hs; [done|].
  apply substitute_raises in Hs as [-> | ->]; by intros [= <-].
Qed.

Lemma substitute_all_raises args e :
  substitute_all args env = Raise e → e = ValueError.
Proof.
  induction args as [|x args IH]; simpl; [done|].
  destruct (self_substitute x env) as [y|e0] eqn:Hx; simpl.
  - destruct (substitute_all args env) as [ys|e1]; simpl; [done|].
    intros [= <-]. by apply IH.
  - intros [= <-]. by eapply self_substitute_raises.
Qed.

End substitute_more.

(** X1: the executor's [substitute] and the substitution of an argument
    list fail with [ValueError] only: the [KeyError] of an unknown variable
    or of [$$] never leaves the executor. *)
Theorem executor_substitution_raises_value_error
    (env : gmap string string) (x : string) (args : list string) (e : exn) :
  (self_substitute x env = Raise e → e = ValueError)
  ∧ (substitute_all args env = Raise e → e = ValueError)
  ∧ (substitute x env = Raise KeyError → self_substitute x env = Raise ValueError).
Proof.
  split; [apply self_substitute_raises|].
  split; [apply substitute_all_raises|].
  unfold self_substitute. by intros ->.
Qed.

Lemma executor_substitution_raises_value_error_witness :
  self_substitute "$NOPE" ∅ = Raise ValueError.
Proof.
  apply (executor_substitution_raises_value_error ∅ "$NOPE" [] KeyError).
  reflexivity.
Defined.

Section plain_text.

Lemma prefix_head_absent c (old s : string) :
  has_char c s = false → String.prefix (String c old) s = false.
Proof.
  destruct s as [|a s]; [done|]. simpl. intros [Ha _]%orb_false_iff.
  destruct (ascii_dec c a) as [->|]; [|done]. by rewrite Ascii.eqb_refl in Ha.
Qed.

Lemma contains_head_absent c (old s : string) :
  has_char c s = false → PyStr.contains (String c old) s = false.
Proof.
  induction s as [|a s IH]; [done|]. intros Hs.
  change (PyStr.contains (String c old) (String a s))
    with (String.prefix (String c old) (String a s)
          || PyStr.contains (String c old) s).
  rewrite (prefix_head_absent c old _ Hs). simpl in Hs.
  apply orb_false_iff in Hs as [_ Hs]. by rewrite IH.
Qed.

Lemma replace_head_absent c (old new s : string) :
  has_char c s = false → PyStr.replace (String c old) new s = s.
Proof.
  unfold PyStr.replace. induction s as [|a s IH]; [done|]. intros Hs.
  change (PyStr.replace_go (String c old) new 0 (String a s))
    with (if String.prefix (String c old) (String a s)
          then new +:+ PyStr.replace_go (String c old) new
                         (String.length (String c old) - 1) s
          else String a (PyStr.replace_go (String c old) new 0 s)).
  rewrite (prefix_head_absent c old _ Hs). simpl in Hs.
  apply orb_false_iff in Hs as [_ Hs]. by rewrite IH.
Qed.

Lemma template_no_dollar env (s : string) :
  has_char "$" s = false → Template.substitute s env = Ok s.
Proof.
  unfold Template.substitute. induction s as [|a s IH]; [done|]. simpl.
  intros [Ha Hs]%orb_false_iff. by rewrite Ha, IH.
Qed.

End plain_text.

(** X2: a text without a dollar sign and without a backslash is returned
    as it is, whatever the environment. *)
Theorem substitute_plain_text (env : gmap string string) (s : string) :
  has_char "$" s = false → has_char "\" s = false →
  substitute s env = Ok s ∧ self_substitute s env = Ok s.
Proof.
  intros Hd Hb. assert (substitute s env = Ok s) as H.
  { unfold substitute, unescape.
    rewrite (contains_head_absent "$" "$" s Hd).
    rewrite (replace_head_absent "\" "\\\" "\\" s Hb).
    rewrite (replace_head_absent "\" "$" "$$" s Hb).
    by apply template_no_dollar. }
  split; [done|]. unfold self_substitute. by rewrite H.
Qed.

Lemma substitute_plain_text_witness :
  substitute "--prefix=/usr/local" {[ "A" := "1" ]} = Ok "--prefix=/usr/local".
Proof.
  apply (substitute_plain_text {[ "A" := "1" ]} "--prefix=/usr/local");
    reflexivity.
Defined.

Lemma template_go_weaken (env env' : gmap string string) (s : string) :
  env ⊆ env' → ∀ skip t,
  Template.substitute_go env skip s = Ok t →
  Template.substitute_go env' skip s = Ok t.
Proof.
  intros Hsub. induction s as [|c s IH]; intros skip t; simpl; [done|].
  destruct skip as [|k]; [|apply IH].
  destruct (Ascii.eqb c "$").
  - destruct (Template.classify s) as [|n k|]; [| |done].
    + destruct (Template.substitute_go env 1 s) as [u|] eqn:Hu; [|done].
      by rewrite (IH 1 u Hu).
    + destruct (env !! n) as [v|] eqn:Hv; [|done].
      rewrite (lookup_weaken _ _ _ _ Hv Hsub).
      destruct (Template.substitute_go env k s) as [u|] eqn:Hu; [|done].
      by rewrite (IH k u Hu).
  - destruct (Template.substitute_go env 0 s) as [u|] eqn:Hu; [|done].
    by rewrite (IH 0 u Hu).
Qed.

(** X3: a substitution that succeeds gives the same text in every larger
    environment: binding more variables never changes a result. *)
Theorem substitute_weaken (env env' : gmap string string) (s t : string) :
  env ⊆ env' → substitute s env = Ok t → substitute s env' = Ok t.
Proof.
  intros Hsub. unfold substitute, Template.substitute.
  destruct (PyStr.contains "$$" s); [done|]. by apply template_go_weaken.
Qed.

Lemma substitute_weaken_witness :
  substitute "$A/bin" {[ "A" := "/opt"; "B" := "x" ]} = Ok "/opt/bin".
Proof.
  apply (substitute_weaken {[ "A" := "/opt" ]} {[ "A" := "/opt"; "B" := "x" ]}
           "$A/bin" "/opt/bin"); [|reflexivity].
  apply map_subseteq_spec. intros k v [<- <-]%lookup_singleton_Some. reflexivity.
Defined.

(** ** Action keys *)

(** X4: [run_node] goes on to a handler exactly when the node holds one of
    the eight action keys; with none or with several it raises
    [InvalidJobSpecError] and leaves the executor as it was, nothing being
    started. *)
Theorem run_node_action_keys w nd env cwd node_pos ex :
  let n := length (List.filter (has_key nd) type_keys) in
  (n ≠ 1 → run_node w nd env cwd node_pos ex = (ex, Raise InvalidJobSpecError))
  ∧ (n = 1 → ∃ t, find_type nd type_keys None = Ok (Some t)
                  ∧ has_key nd t = true).
Proof.
  destruct nd as [[?|] [?|] [?|] [?|] [?|] [?|] [?|] [?|] ? ? ? ? ? ?];
    cbv zeta; split; intros H; vm_compute in H;
    try (by destruct H); try discriminate H;
    try (by rewrite run_node_unfold);
    eexists; split; reflexivity.
Qed.

Lemma run_node_action_keys_witness :
  run_node (sample_world "")
    (Node None (Some ["ls"]) None (Some "A") None None None None (Some "1")
       None None None None None)
    ∅ "/" [] (new_executor "/tmp/job")
  = (new_executor "/tmp/job", Raise InvalidJobSpecError).
Proof.
  apply (run_node_action_keys (sample_world "")
    (Node None (Some ["ls"]) None (Some "A") None None None None (Some "1")
       None None None None None) ∅ "/" [] (new_executor "/tmp/job")).
  vm_compute. discriminate.
Defined.

(** ** Imports that fail *)

Section imports_errors.
Context (hst : host) (resolve : string → option string)
        (virtuals : gmap string string).

Ltac case_lib_paths :=
  repeat match goal with
         | |- context [path_exists ?h ?p] => destruct (path_exists h p) eqn:?
         end.

(** One iteration either gets through, or stops on a virtual id without
    artifact, or stops on an unbuilt artifact or on two library
    directories. *)
Lemma import_step_cases st dep :
  (import_ok hst resolve virtuals dep
   ∧ is_ok (import_step hst resolve virtuals st dep))
  ∨ (virtual_missing virtuals dep
     ∧ import_step hst resolve virtuals st dep = Raise ValueError)
  ∨ (¬ virtual_missing virtuals dep
     ∧ ¬ import_ok hst resolve virtuals dep
     ∧ import_step hst resolve virtuals st dep = Raise InvalidJobSpecError).
Proof.
  unfold import_ok, virtual_missing, import_step, import_dir.
  destruct (if PyStr.startswith (imp_id dep) "virtual:"
            then virtuals !! imp_id dep else Some (imp_id dep))
    as [id|] eqn:Hid.
  - assert (¬ (PyStr.startswith (imp_id dep) "virtual:" = true
               ∧ virtuals !! imp_id dep = None)) as Hnm.
    { intros [Hv Hn]. rewrite Hv, Hn in Hid. done. }
    assert ((if PyStr.startswith (imp_id dep) "virtual:"
             then match virtuals !! imp_id dep with
                  | Some d => Ok d
                  | None => Raise ValueError
                  end
             else Ok (imp_id dep)) = Ok id) as ->.
    { destruct (PyStr.startswith (imp_id dep) "virtual:");
        [by rewrite Hid|by injection Hid as ->]. }
    cbn [rbind mbind option_bind].
    destruct (resolve id) as [dir|] eqn:Hdir.
    2:{ right. right. split; [done|]. split; [|done]. by intros (? & ? & _). }
    destruct (imp_in_env dep) eqn:Hin.
    2:{ left. split; [|by eexists]. exists dir. by split. }
    destruct (List.filter (path_exists hst) (pjoin dir <$> ["lib"; "lib32"; "lib64"]))
      as [|l1 [|l2 libs]] eqn:Hlibs; cbn [rbind].
    + left. split; [|by eexists]. exists dir. split; [done|].
      intros _. rewrite Hlibs. simpl. lia.
    + left. split; [|by eexists]. exists dir. split; [done|].
      intros _. rewrite Hlibs. simpl. lia.
    + right. right. split; [done|]. split; [|done].
      intros (dir' & [= <-] & Hle). specialize (Hle eq_refl).
      rewrite Hlibs in Hle. simpl in Hle. lia.
  - destruct (PyStr.startswith (imp_id dep) "virtual:") eqn:Hv; [|done].
    rewrite Hid. right. left. done.
Qed.

Lemma imports_loop_app pre post : ∀ st,
  imports_loop hst resolve virtuals st (pre ++ post) =
  rbind (imports_loop hst resolve virtuals st pre)
    (λ st', imports_loop hst resolve virtuals st' post).
Proof.
  induction pre as [|dep pre IH]; intros st; simpl; [done|].
  destruct (import_step _ _ _ st dep); simpl; [apply IH|done].
Qed.

Lemma imports_loop_is_ok imports : ∀ st,
  is_ok (imports_loop hst resolve virtuals st imports) →
  Forall (import_ok hst resolve virtuals) imports.
Proof.
  induction imports as [|dep imports IH]; intros st; simpl; [by constructor|].
  destruct (import_step_cases st dep) as [[Hok [st1 Hst]]|[[_ Hst]|(_ & _ & Hst)]];
    rewrite Hst; simpl; [|by intros [? ?]..].
  intros H. constructor; [done|]. by eapply IH.
Qed.

(** The loop stops at the first import that does not get through. *)
Lemma imports_loop_first_bad pre dep post e : ∀ st,
  Forall (import_ok hst resolve virtuals) pre →
  (∀ st', import_step hst resolve virtuals st' dep = Raise e) →
  imports_loop hst resolve virtuals st (pre ++ dep :: post) = Raise e.
Proof.
  intros st Hpre Hdep. rewrite imports_loop_app.
  destruct (imports_loop_total hst resolve virtuals pre st Hpre) as [st1 ->].
  simpl. by rewrite Hdep.
Qed.

End imports_errors.

(** X5: [get_imports_env] returns exactly when every import has a
    directory and, if taken into the environment, at most one library
    directory; it stops at the first import that does not: with
    [ValueError] for a virtual id the caller gave no artifact for, with
    [InvalidJobSpecError] for an artifact that is not built or has several
    library directories. *)
Theorem get_imports_env_failures hst resolve virtuals imports :
  (is_ok (get_imports_env hst resolve virtuals imports)
   ↔ Forall (import_ok hst resolve virtuals) imports)
  ∧ (∀ pre dep post,
       imports = pre ++ dep :: post →
       Forall (import_ok hst resolve virtuals) pre →
       ¬ import_ok hst resolve virtuals dep →
       get_imports_env hst resolve virtuals imports =
         Raise (if decide (virtual_missing virtuals dep)
                then ValueError else InvalidJobSpecError)).
Proof.
  split; [split|].
  - intros [env Henv]. unfold get_imports_env in Henv.
    destruct (imports_loop _ _ _ _ imports) as [st|e] eqn:Hloop; [|done].
    apply (imports_loop_is_ok hst resolve virtuals imports imports_init).
    rewrite Hloop. by eexists.
  - intros Hok. unfold get_imports_env.
    destruct (imports_loop_total hst resolve virtuals imports imports_init Hok)
      as [st ->]. by eexists.
  - intros pre dep post -> Hpre Hdep. unfold get_imports_env.
    rewrite (imports_loop_first_bad hst resolve virtuals pre dep post
               (if decide (virtual_missing virtuals dep)
                then ValueError else InvalidJobSpecError)); [done|done|].
    intros st'.
    destruct (import_step_cases hst resolve virtuals st' dep)
      as [[Hok _]|[[Hv Hst]|(Hv & _ & Hst)]]; [done| |].
    + by rewrite decide_True.
    + by rewrite decide_False.
Qed.

Lemma get_imports_env_failures_witness :
  get_imports_env full_host one_artifact ∅
    [Import "a" None true; Import "virtual:unix" (Some "U") true]
  = Raise InvalidJobSpecError.
Proof.
  assert (H : ¬ import_ok full_host one_artifact ∅ (Import "a" None true)).
  { intros (dir & [= <-] & Hle). specialize (Hle eq_refl).
    vm_compute in Hle. lia. }
  rewrite (proj2 (get_imports_env_failures full_host one_artifact ∅
             [Import "a" None true; Import "virtual:unix" (Some "U") true])
             [] (Import "a" None true) [Import "virtual:unix" (Some "U") true]
             eq_refl (Forall_nil_2 _) H).
  rewrite decide_False; [done|]. by intros [? _].
Defined.

(** ** The other import variables *)

Section imports_more.
Context (hst : host) (resolve : string → option string)
        (virtuals : gmap string string).

Ltac case_all_paths :=
  repeat match goal with
         | |- context [path_exists ?h ?p] => destruct (path_exists h p) eqn:?
         end.

Lemma import_step_flags st dep st' :
  import_step hst resolve virtuals st dep = Ok st' →
  is_HDIST_IMPORT_PATHS st'
    = is_HDIST_IMPORT_PATHS st ++ option_list (import_dir resolve virtuals dep)
  ∧ is_HDIST_CFLAGS st'
    = is_HDIST_CFLAGS st ++ import_cflags hst resolve virtuals dep
  ∧ is_HDIST_LDFLAGS st'
    = is_HDIST_LDFLAGS st ++ import_ldflags hst resolve virtuals dep.
Proof.
  unfold import_step, import_cflags, import_ldflags, import_dir.
  destruct (PyStr.startswith (imp_id dep) "virtual:").
  - destruct (virtuals !! imp_id dep) as [d|]; simpl; [|done].
    destruct (resolve d) as [dir|]; simpl; [|done].
    destruct (imp_in_env dep); simpl.
    + case_all_paths; simpl; try done; intros [= <-]; simpl;
        by rewrite ?app_nil_r.
    + intros [= <-]. simpl. by rewrite ?app_nil_r.
  - simpl. destruct (resolve (imp_id dep)) as [dir|]; simpl; [|done].
    destruct (imp_in_env dep); simpl.
    + case_all_paths; simpl; try done; intros [= <-]; simpl;
        by rewrite ?app_nil_r.
    + intros [= <-]. simpl. by rewrite ?app_nil_r.
Qed.

Lemma imports_loop_flags imports : ∀ st st',
  imports_loop hst resolve virtuals st imports = Ok st' →
  is_HDIST_IMPORT_PATHS st'
    = is_HDIST_IMPORT_PATHS st ++ omap (import_dir resolve virtuals) imports
  ∧ is_HDIST_CFLAGS st'
    = is_HDIST_CFLAGS st ++ (imports ≫= import_cflags hst resolve virtuals)
  ∧ is_HDIST_LDFLAGS st'
    = is_HDIST_LDFLAGS st ++ (imports ≫= import_ldflags hst resolve virtuals).
Proof.
  induction imports as [|dep imports IH]; intros st st' Hloop; simpl in Hloop.
  { injection Hloop as <-. simpl. by rewrite !app_nil_r. }
  destruct (import_step _ _ _ st dep) as [st1|e] eqn:Hstep; simpl in Hloop; [|done].
  apply import_step_flags in Hstep as (HP & HC & HL).
  apply IH in Hloop as (HP' & HC' & HL').
  rewrite HP', HC', HL', HP, HC, HL, <-!app_assoc. simpl.
  by destruct (import_dir resolve virtuals dep).
Qed.

(** What an iteration does to the dict: the two variables of the [ref],
    nothing else. *)
Lemma import_step_env st dep st' :
  import_step hst resolve virtuals st dep = Ok st' →
  (∀ k, k ∉ import_keys dep → is_env st' !! k = is_env st !! k)
  ∧ (∀ r, imp_ref dep = Some r →
       is_env st' !! r = import_dir resolve virtuals dep
       ∧ is_env st' !! (r +:+ "_ID") = import_target virtuals dep).
Proof.
  unfold import_step, import_dir, import_target, import_keys.
  intros Hstep.
  destruct (if PyStr.startswith (imp_id dep) "virtual:"
            then virtuals !! imp_id dep else Some (imp_id dep))
    as [id|] eqn:Hid.
  2:{ destruct (PyStr.startswith (imp_id dep) "virtual:"); [|done].
      by rewrite Hid in Hstep. }
  assert ((if PyStr.startswith (imp_id dep) "virtual:"
           then match virtuals !! imp_id dep with
                | Some d => Ok d
                | None => Raise ValueError
                end
           else Ok (imp_id dep)) = Ok id) as Hres.
  { destruct (PyStr.startswith (imp_id dep) "virtual:");
      [by rewrite Hid|by injection Hid as ->]. }
  rewrite Hres in Hstep. cbn [rbind] in Hstep.
  destruct (resolve id) as [dir|] eqn:Hdir; [|done].
  assert (is_env st' =
            match imp_ref dep with
            | Some r => <[r +:+ "_ID" := id]> (<[r := dir]> (is_env st))
            | None => is_env st
            end) as Henv.
  { destruct (imp_in_env dep).
    - destruct (List.filter (path_exists hst) (pjoin dir <$> ["lib"; "lib32"; "lib64"]))
        as [|l1 [|l2 libs]]; cbn [rbind] in Hstep; [| |done];
        by injection Hstep as <-.
    - by injection Hstep as <-. }
  rewrite Henv. cbn [mbind option_bind]. rewrite Hdir. split.
  - intros k Hk. destruct (imp_ref dep) as [r|]; [|done].
    apply not_elem_of_cons in Hk as [Hk1 Hk]. apply not_elem_of_cons in Hk as [Hk2 _].
    by rewrite !lookup_insert_ne.
  - intros r ->. split; [|by rewrite lookup_insert_eq].
    rewrite lookup_insert_ne, lookup_insert_eq; [done|].
    intros Heq. apply (f_equal String.length) in Heq.
    revert Heq. clear. induction r as [|a r IH]; simpl; [done|].
    intros [= H]. by apply IH.
Qed.

Lemma imports_loop_env imports : ∀ st st' k,
  imports_loop hst resolve virtuals st imports = Ok st' →
  k ∉ imports ≫= import_keys →
  is_env st' !! k = is_env st !! k.
Proof.
  induction imports as [|dep imports IH]; intros st st' k Hloop Hk;
    simpl in Hloop.
  { by injection Hloop as <-. }
  destruct (import_step _ _ _ st dep) as [st1|e] eqn:Hstep; simpl in Hloop; [|done].
  simpl in Hk. apply not_elem_of_app in Hk as [Hk1 Hk2].
  rewrite (IH st1 st' k Hloop Hk2).
  by apply (import_step_env st dep st1 Hstep).
Qed.

End imports_more.

(** X6: when [get_imports_env] returns, [HDIST_IMPORT_PATHS] is the space
    join of the directories of all imports, one per import and in import
    order, [HDIST_CFLAGS] the [-I] flags of the existing [include]
    directories and [HDIST_LDFLAGS] the [-L] and [-Wl,-R,] flags of the
    library directory, these two for the imports with [in_env] only. *)
Theorem imports_other_aggregates hst resolve virtuals imports env :
  get_imports_env hst resolve virtuals imports = Ok env →
  env !! "HDIST_IMPORT_PATHS"
    = Some (PyStr.join " " (omap (import_dir resolve virtuals) imports))
  ∧ length (omap (import_dir resolve virtuals) imports) = length imports
  ∧ env !! "HDIST_CFLAGS"
    = Some (PyStr.join " " (imports ≫= import_cflags hst resolve virtuals))
  ∧ env !! "HDIST_LDFLAGS"
    = Some (PyStr.join " " (imports ≫= import_ldflags hst resolve virtuals)).
Proof.
  intros Henv.
  assert (Forall (import_ok hst resolve virtuals) imports) as Hok.
  { apply (imports_loop_is_ok hst resolve virtuals imports imports_init).
    unfold get_imports_env in Henv.
    destruct (imports_loop _ _ _ _ imports); [by eexists|done]. }
  unfold get_imports_env in Henv.
  destruct (imports_loop _ _ _ _ imports) as [st|e] eqn:Hloop; simpl in Henv; [|done].
  apply imports_loop_flags in Hloop as (HP & HC & HL). simpl in HP, HC, HL.
  injection Henv as <-. rewrite HP, HC, HL.
  split; [by rewrite lookup_insert_eq|]. split.
  { clear -Hok. induction Hok as [|dep imports (dir & Hdir & _) _ IH]; [done|].
    simpl. rewrite Hdir. simpl. f_equal. exact IH. }
  split.
  - do 3 (rewrite lookup_insert_ne by done). by rewrite lookup_insert_eq.
  - do 2 (rewrite lookup_insert_ne by done). by rewrite lookup_insert_eq.
Qed.

Lemma imports_other_aggregates_witness :
  ∃ env,
    get_imports_env bin_host two_artifacts {[ "virtual:b" := "b/1" ]}
      [Import "virtual:b" (Some "B") false; Import "a" None true] = Ok env
    ∧ env !! "HDIST_IMPORT_PATHS" = Some "/b /a".
Proof.
  eexists. split; [reflexivity|].
  exact (proj1 (imports_other_aggregates bin_host two_artifacts
                  {[ "virtual:b" := "b/1" ]}
                  [Import "virtual:b" (Some "B") false; Import "a" None true]
                  _ eq_refl)).
Defined.

(** X7: an import with a [ref] binds the ref to the artifact's directory
    and ref + [_ID] to the artifact id the import stands for (the concrete
    id of a virtual import); each binding is in the result unless a later
    import or one of the five aggregate variables uses the same name. *)
Theorem import_ref_bindings hst resolve virtuals pre dep post r env :
  get_imports_env hst resolve virtuals (pre ++ dep :: post) = Ok env →
  imp_ref dep = Some r →
  (r ∉ post ≫= import_keys → r ∉ aggregate_keys →
     is_Some (env !! r) ∧ env !! r = import_dir resolve virtuals dep)
  ∧ (r +:+ "_ID" ∉ post ≫= import_keys → r +:+ "_ID" ∉ aggregate_keys →
     is_Some (env !! (r +:+ "_ID"))
     ∧ env !! (r +:+ "_ID") = import_target virtuals dep).
Proof.
  intros Henv Hr. unfold get_imports_env in Henv.
  rewrite imports_loop_app in Henv.
  destruct (imports_loop _ _ _ _ pre) as [st0|] eqn:Hpre; simpl in Henv; [|done].
  destruct (import_step _ _ _ st0 dep) as [st1|] eqn:Hstep; simpl in Henv; [|done].
  destruct (imports_loop _ _ _ st1 post) as [st2|] eqn:Hpost; simpl in Henv; [|done].
  injection Henv as <-.
  destruct (import_step_env hst resolve virtuals st0 dep st1 Hstep) as [_ Hb].
  destruct (Hb r Hr) as [Hdir Hid].
  assert (∀ k, k ∉ aggregate_keys → k ∉ post ≫= import_keys →
    <["HDIST_IMPORT_PATHS":=PyStr.join " " (is_HDIST_IMPORT_PATHS st2)]>
      (<["HDIST_IMPORT":=PyStr.join " " (is_HDIST_IMPORT st2)]>
         (<["HDIST_LDFLAGS":=PyStr.join " " (is_HDIST_LDFLAGS st2)]>
            (<["HDIST_CFLAGS":=PyStr.join " " (is_HDIST_CFLAGS st2)]>
               (<["PATH":=PyStr.join (pathsep hst) (is_PATH st2)]> (is_env st2)))))
      !! k = is_env st1 !! k) as Hlook.
  { intros k Hk Hpostk. unfold aggregate_keys in Hk.
    repeat (apply not_elem_of_cons in Hk as [? Hk]).
    do 5 (rewrite lookup_insert_ne by done).
    by apply (imports_loop_env hst resolve virtuals post st1 st2 k). }
  assert (is_Some (import_target virtuals dep)
          ∧ is_Some (import_dir resolve virtuals dep)) as [Ht Hd].
  { destruct (import_step_cases hst resolve virtuals st0 dep)
      as [[(dir & Hdir' & _) _]|[[_ Hst]|(_ & _ & Hst)]]; [|congruence..].
    split; [|by rewrite Hdir'].
    unfold import_dir, import_target in *.
    destruct (if PyStr.startswith _ _ then _ else _); [by eexists|done]. }
  split; intros Hpostk Hagg; rewrite Hlook by done.
  - by rewrite Hdir.
  - by rewrite Hid.
Qed.

Lemma import_ref_bindings_witness :
  ∃ env,
    get_imports_env bin_host two_artifacts {[ "virtual:b" := "b/1" ]}
      [Import "virtual:b" (Some "B") true; Import "a" None true] = Ok env
    ∧ env !! "B" = Some "/b" ∧ env !! "B_ID" = Some "b/1".
Proof.
  eexists. split; [reflexivity|].
  lazymatch goal with
  | |- ?e !! "B" = _ ∧ _ =>
      assert (get_imports_env bin_host two_artifacts {[ "virtual:b" := "b/1" ]}
                ([] ++ Import "virtual:b" (Some "B") true :: [Import "a" None true])
              = Ok e) as Henv by reflexivity;
      destruct (import_ref_bindings bin_host two_artifacts
                  {[ "virtual:b" := "b/1" ]}
                  [] (Import "virtual:b" (Some "B") true) [Import "a" None true]
                  "B" e Henv eq_refl) as [H1 H2]
  end.
  assert (∀ k, k ∉ [Import "a" None true] ≫= import_keys) as Hpost.
  { intros k. simpl. apply not_elem_of_nil. }
  split.
  - apply H1; [apply Hpost|]. unfold aggregate_keys.
    repeat (apply not_elem_of_cons; split; [done|]). apply not_elem_of_nil.
  - apply H2; [apply Hpost|]. unfold aggregate_keys.
    repeat (apply not_elem_of_cons; split; [done|]). apply not_elem_of_nil.
Defined.

(** ** Input files *)

Section inputs_props.

Lemma str_length_app (s t : string) :
  String.length (s +:+ t) = String.length s + String.length t.
Proof. induction s as [|a s IH]; [done|]. rewrite str_app_cons. simpl. by rewrite IH. Qed.

Lemma str_app_inv_r (s t u : string) : s +:+ u = t +:+ u → s = t.
Proof.
  revert t. induction s as [|a s IH]; intros [|b t] H.
  - done.
  - apply (f_equal String.length) in H. rewrite !str_length_app in H.
    simpl in H. lia.
  - apply (f_equal String.length) in H. rewrite !str_length_app in H.
    simpl in H. lia.
  - rewrite !str_app_cons in H. injection H as -> H. f_equal. by apply IH.
Qed.

(** A property of texts that holds of a digit in front of anything holds
    of every printed number. *)
Lemma pretty_N_go_preserves (Q : string → Prop) :
  (∀ d s, Q (String (pretty_N_char d) s)) →
  ∀ x s, Q s → Q (pretty_N_go x s).
Proof.
  intros Hd x. induction (N.lt_wf_0 x) as [x _ IH]; intros s Hs.
  assert (x = 0 ∨ 0 < x)%N as [->|Hx] by lia.
  - by rewrite pretty_N_go_0.
  - rewrite pretty_N_go_step by done. apply IH; [by apply N.div_lt|apply Hd].
Qed.

Lemma pretty_nat_relative (n : nat) : PyStr.startswith (pretty n) "/" = false.
Proof.
  unfold pretty, pretty_nat, pretty, pretty_N.
  case_decide; [done|].
  assert (0 < N.of_nat n)%N as Hpos by lia.
  rewrite pretty_N_go_step by done.
  apply (pretty_N_go_preserves (λ s, PyStr.startswith s "/" = false)).
  - intros d s. unfold pretty_N_char. by repeat case_match.
  - unfold pretty_N_char. by repeat case_match.
Qed.

Lemma pretty_nat_no_dot (n : nat) : has_char "." (pretty n) = false.
Proof.
  unfold pretty, pretty_nat, pretty, pretty_N.
  case_decide; [done|].
  assert (∀ x s, has_char "." s = false → has_char "." (pretty_N_go x s) = false)
    as Hgo; [|by apply Hgo].
  intros x. induction (N.lt_wf_0 x) as [x _ IH]; intros s Hs.
  assert (x = 0 ∨ 0 < x)%N as [->|Hx] by lia.
  - by rewrite pretty_N_go_0.
  - rewrite pretty_N_go_step by done. apply IH; [apply N.div_lt; lia|].
    cbn [has_char]. rewrite Hs, orb_false_r.
    generalize (x `mod` 10)%N. intros d. unfold pretty_N_char.
    by repeat case_match.
Qed.

Lemma startswith_app_relative (s t : string) :
  PyStr.startswith s "/" = false → PyStr.startswith t "/" = false →
  PyStr.startswith (s +:+ t) "/" = false.
Proof.
  destruct s as [|a s]; [done|]. rewrite str_app_cons.
  unfold PyStr.startswith.
  change (String.prefix "/" (String a s))
    with (if ascii_dec "/" a then String.prefix "" s else false).
  change (String.prefix "/" (String a (s +:+ t)))
    with (if ascii_dec "/" a then String.prefix "" (s +:+ t) else false).
  destruct (ascii_dec "/" a); [|done]. by destruct s.
Qed.

Lemma input_filename_relative node_pos name :
  PyStr.startswith (input_filename node_pos name) "/" = false.
Proof.
  unfold input_filename. destruct node_pos as [|n [|m rest]]; [done| |].
  - apply startswith_app_relative; [apply pretty_nat_relative|done].
  - change (PyStr.join "_" (pretty <$> n :: m :: rest))
      with (pretty n +:+ "_" +:+ PyStr.join "_" (pretty <$> m :: rest)).
    rewrite str_app_assoc.
    apply startswith_app_relative; [apply pretty_nat_relative|done].
Qed.

(** Joining a relative name to a directory puts the same text in front of
    every name. *)
Lemma pjoin_relative (dir b : string) :
  PyStr.startswith b "/" = false →
  pjoin dir b =
    (if bool_decide (dir = "") || endswith_slash dir then dir else dir +:+ "/")
    +:+ b.
Proof.
  intros Hb. unfold pjoin. rewrite Hb.
  destruct (bool_decide (dir = "") || endswith_slash dir); [done|].
  by rewrite str_app_assoc.
Qed.

Lemma input_name_inj i j : input_name i = input_name j → i = j.
Proof.
  unfold input_name. intros H. apply (inj (String.app "in")) in H.
  by apply (inj pretty) in H.
Qed.

Lemma input_suffix_cases inp :
  input_suffix inp = "" ∨ input_suffix inp = ".json".
Proof.
  unfold input_suffix.
  destruct (in_text inp), (in_string inp), (in_json inp); auto.
Qed.

(** Different inputs of a node go to different files. *)
Lemma input_path_inj dir node_pos i j inp inp' :
  input_path dir node_pos i inp = input_path dir node_pos j inp' → i = j.
Proof.
  unfold input_path.
  rewrite !pjoin_relative by apply input_filename_relative.
  unfold input_filename, input_name. rewrite !str_app_assoc.
  intros H. do 4 apply (inj (String.app _)) in H.
  destruct (input_suffix_cases inp) as [Hs|Hs],
           (input_suffix_cases inp') as [Hs'|Hs']; rewrite Hs, Hs' in H.
  - rewrite !str_app_nil_r in H. by apply (inj pretty) in H.
  - rewrite str_app_nil_r in H.
    pose proof (pretty_nat_no_dot i) as Hd. rewrite H, has_char_app in Hd.
    by rewrite orb_true_r in Hd.
  - rewrite str_app_nil_r in H.
    pose proof (pretty_nat_no_dot j) as Hd. rewrite <-H, has_char_app in Hd.
    by rewrite orb_true_r in Hd.
  - apply str_app_inv_r in H. by apply (inj pretty) in H.
Qed.

Lemma dump_inputs_go_step inp rest node_pos i env ex :
  input_ok inp = true →
  dump_inputs_go (inp :: rest) node_pos i env ex =
  dump_inputs_go rest node_pos (S i)
    (<[input_name i := input_path (temp_dir ex) node_pos i inp]> env)
    (set_files (<[input_path (temp_dir ex) node_pos i inp := input_value inp]>
                  (files ex)) ex).
Proof.
  unfold input_ok, input_path, input_value, input_suffix, input_name.
  intros Hok. cbn [dump_inputs_go]. unfold bind at 1. unfold get at 1.
  rewrite Hok. cbn [negb].
  destruct (in_text inp) as [t|], (in_string inp) as [s|],
    (in_json inp) as [j|]; try discriminate Hok;
    unfold bind, write_file, modify; by rewrite ?str_app_nil_r.
Qed.

Lemma dump_inputs_go_bad inp rest node_pos i env ex :
  input_ok inp = false →
  dump_inputs_go (inp :: rest) node_pos i env ex = (ex, Raise ValueError).
Proof.
  unfold input_ok. intros Hok. cbn [dump_inputs_go].
  unfold bind at 1. unfold get at 1. by rewrite Hok.
Qed.

(** The loop of [dump_inputs] from input number [i] on. *)
Lemma dump_inputs_go_ok inputs node_pos : ∀ i env ex,
  Forall (λ inp, input_ok inp = true) inputs →
  ∃ ex' env',
    dump_inputs_go inputs node_pos i env ex = (ex', Ok env')
    ∧ temp_dir ex' = temp_dir ex ∧ calls ex' = calls ex
    ∧ log_fifo_filenames ex' = log_fifo_filenames ex
    ∧ last_env ex' = last_env ex
    ∧ (∀ k inp, inputs !! k = Some inp →
         env' !! input_name (i + k)
           = Some (input_path (temp_dir ex) node_pos (i + k) inp)
         ∧ files ex' !! input_path (temp_dir ex) node_pos (i + k) inp
           = Some (input_value inp))
    ∧ (∀ key, (∀ k, k < length inputs → key ≠ input_name (i + k)) →
         env' !! key = env !! key)
    ∧ (∀ p, (∀ k inp, inputs !! k = Some inp →
               p ≠ input_path (temp_dir ex) node_pos (i + k) inp) →
         files ex' !! p = files ex !! p).
Proof.
  induction inputs as [|inp rest IH]; intros i env ex Hok.
  { exists ex, env. by repeat split. }
  apply Forall_cons in Hok as [Hinp Hrest].
  rewrite dump_inputs_go_step by done.
  destruct (IH (S i) (<[input_name i := input_path (temp_dir ex) node_pos i inp]> env)
              (set_files (<[input_path (temp_dir ex) node_pos i inp := input_value inp]>
                            (files ex)) ex) Hrest)
    as (ex' & env' & Hrun & Htmp & Hcalls & Hfifo & Hlast & Hbind & Hother & Hfiles).
  simpl in Htmp, Hcalls, Hfifo, Hlast, Hbind, Hfiles.
  exists ex', env'. split; [done|]. do 4 (split; [done|]).
  split; [|split].
  - intros [|k] inp' Hk; simpl in Hk.
    + injection Hk as <-. rewrite Nat.add_0_r. split.
      * rewrite Hother; [apply lookup_insert_eq|].
        intros k _ Heq. apply input_name_inj in Heq. lia.
      * rewrite Hfiles; [apply lookup_insert_eq|].
        intros k inp' _ Heq. apply input_path_inj in Heq. lia.
    + replace (i + S k) with (S (i + k)) by lia. by apply Hbind.
  - intros key Hkey. rewrite Hother.
    + apply lookup_insert_ne. intros <-. apply (Hkey 0); [simpl; lia|].
      by rewrite Nat.add_0_r.
    + intros k Hk. replace (S i + k) with (i + S k) by lia.
      apply Hkey. simpl. lia.
  - intros p Hp. rewrite Hfiles.
    + apply lookup_insert_ne. intros <-. apply (Hp 0 inp); [done|].
      by rewrite Nat.add_0_r.
    + intros k inp' Hk. replace (S (i + k)) with (i + S k) by lia.
      by apply Hp.
Qed.

Lemma dump_inputs_go_fail inputs node_pos : ∀ i env ex,
  ¬ Forall (λ inp, input_ok inp = true) inputs →
  ∃ ex', dump_inputs_go inputs node_pos i env ex = (ex', Raise ValueError)
    ∧ temp_dir ex' = temp_dir ex ∧ calls ex' = calls ex.
Proof.
  induction inputs as [|inp rest IH]; intros i env ex Hbad.
  { destruct Hbad. constructor. }
  destruct (input_ok inp) eqn:Hinp.
  - rewrite dump_inputs_go_step by done.
    destruct (IH (S i) (<[input_name i := input_path (temp_dir ex) node_pos i inp]> env)
                (set_files (<[input_path (temp_dir ex) node_pos i inp := input_value inp]>
                              (files ex)) ex)) as (ex' & Hrun & Htmp & Hcalls).
    { intros Hrest. apply Hbad. by constructor. }
    by exists ex'.
  - rewrite dump_inputs_go_bad by done. by exists ex.
Qed.

End inputs_props.

(** X8: when every entry of [inputs] holds exactly one of [text],
    [string], [json], [dump_inputs] returns a dict that binds [in0], [in1],
    ... (and nothing else) to one file each under [temp_dir], named after
    the node position and the input number, a [json] input with the suffix
    [.json]; each file holds the text of its input; no command is started.
    With an entry that holds none or several of the keys it raises
    [ValueError]. *)
Theorem dump_inputs_bindings inputs node_pos ex :
  (Forall (λ inp, input_ok inp = true) inputs →
   ∃ ex' env,
     dump_inputs inputs node_pos ex = (ex', Ok env)
     ∧ temp_dir ex' = temp_dir ex ∧ calls ex' = calls ex
     ∧ (∀ k inp, inputs !! k = Some inp →
          env !! input_name k = Some (input_path (temp_dir ex) node_pos k inp)
          ∧ files ex' !! input_path (temp_dir ex) node_pos k inp
            = Some (input_value inp))
     ∧ (∀ key, (∀ k, k < length inputs → key ≠ input_name k) →
          env !! key = None))
  ∧ (¬ Forall (λ inp, input_ok inp = true) inputs →
     ∃ ex', dump_inputs inputs node_pos ex = (ex', Raise ValueError)
       ∧ calls ex' = calls ex).
Proof.
  unfold dump_inputs. split.
  - intros Hok.
    destruct (dump_inputs_go_ok inputs node_pos 0 ∅ ex Hok)
      as (ex' & env & Hrun & Htmp & Hcalls & _ & _ & Hbind & Hother & _).
    exists ex', env. do 3 (split; [done|]). split; [exact Hbind|].
    intros key Hkey. by rewrite Hother.
  - intros Hbad.
    destruct (dump_inputs_go_fail inputs node_pos 0 ∅ ex Hbad)
      as (ex' & Hrun & _ & Hcalls).
    by exists ex'.
Qed.

Lemma dump_inputs_bindings_witness :
  ∃ ex' env,
    dump_inputs [Input (Some ["a"; "b"]) None None; Input None None (Some "{}")]
      [0; 2] (new_executor "/tmp/job") = (ex', Ok env)
    ∧ env !! "in1" = Some "/tmp/job/0_2_in1.json"
    ∧ files ex' !! "/tmp/job/0_2_in0" = Some (String "a" (String "010" "b")).
Proof.
  destruct (proj1 (dump_inputs_bindings
              [Input (Some ["a"; "b"]) None None; Input None None (Some "{}")]
              [0; 2] (new_executor "/tmp/job")))
    as (ex' & env & Hrun & _ & _ & Hbind & _).
  { by repeat constructor. }
  exists ex', env. split; [done|]. split.
  - exact (proj1 (Hbind 1 _ eq_refl)).
  - exact (proj2 (Hbind 0 _ eq_refl)).
Defined.

(** ** Log pipes *)

Section logpipe_props.




End logpipe_props.



(** ** Leaves that fail before they start *)

Section leaf_failures.

Lemma prefix_app_self (a b : string) : String.prefix a (a +:+ b) = true.
Proof.
  induction a as [|c a IH].
  - by destruct b.
  - rewrite str_app_cons. simpl. by destruct (ascii_dec c c).
Qed.

Lemma isabs_app (s u : string) : isabs s = true → isabs (s +:+ u) = true.
Proof.
  unfold isabs, PyStr.startswith. destruct s as [|a s]; [done|].
  rewrite str_app_cons.
  change (String.prefix "/" (String a s))
    with (if ascii_dec "/" a then String.prefix "" s else false).
  change (String.prefix "/" (String a (s +:+ u)))
    with (if ascii_dec "/" a then String.prefix "" (s +:+ u) else false).
  destruct (ascii_dec "/" a); [|done]. intros _. by destruct (s +:+ u).
Qed.

Lemma fifo_path_prefix temp sublogger_name level_str :
  ∃ rest, fifo_path temp sublogger_name level_str = temp +:+ rest.
Proof.
  unfold fifo_path. rewrite pjoin_relative by done.
  destruct (bool_decide (temp = "") || endswith_slash temp).
  - by eexists.
  - rewrite str_app_assoc. by eexists.
Qed.

Lemma fifo_path_under temp sublogger_name level_str :
  temp ≠ "" → path_under temp (fifo_path temp sublogger_name level_str) = true.
Proof.
  intros Hne. unfold path_under, fifo_path. rewrite pjoin_relative by done.
  rewrite (bool_decide_false (temp = "")) by done. simpl.
  apply orb_true_iff. right.
  destruct (endswith_slash temp); apply prefix_app_self.
Qed.

Lemma leaf_substitution_fails w nd env cwd node_pos ex args e :
  has (n_cmd nd) + has (n_hit nd) = 1 →
  n_commands nd = None → n_set nd = None → n_inputs nd = None →
  n_stdout_to_file nd = None →
  default [] (match n_cmd nd with Some a => Some a | None => n_hit nd end) = args →
  substitute_all args env = Raise e →
  handle_command_nodes w nd env cwd node_pos ex = (ex, Raise ValueError).
Proof.
  intros Hone Hcommands Hset Hinputs Hfile Hargs He.
  pose proof (substitute_all_raises env args e He) as ->.
  unfold handle_command_nodes.
  rewrite Hcommands, Hset, Hinputs, Hfile. simpl.
  destruct (n_cmd nd) as [a|], (n_hit nd) as [b|]; simpl in *; try lia;
    subst args; destruct (n_to_var nd); simpl;
    unfold dump_inputs, bind, lift, ret; simpl;
    by rewrite (left_id_L ∅ (∪) env), He.
Qed.

End leaf_failures.

(** X10: the path of a log pipe cannot be the target of
    [append_to_file]: with an absolute [temp_dir] the path starts with it,
    so a [cmd] leaf whose [append_to_file] substitutes to the path of a pipe
    (already canonical) raises [NotImplementedError] and starts nothing. *)
Theorem logpipe_redirect_rejected w sublogger_name level_str env cwd node_pos ex
    args args' c raw :
  isabs (temp_dir ex) = true →
  let path := fifo_path (temp_dir ex) sublogger_name level_str in
  realpath (os w) path = path →
  substitute_all args env = Ok args' →
  self_substitute raw env = Ok path →
  PyStr.startswith path (temp_dir ex) = true
  ∧ run_node w (cmd_with args c None (Some raw)) env cwd node_pos ex
    = (ex, Raise NotImplementedError).
Proof.
  intros Habs path Hreal Hargs Hraw.
  destruct (fifo_path_prefix (temp_dir ex) sublogger_name level_str)
    as [rest Hrest].
  assert (PyStr.startswith path (temp_dir ex) = true) as Hpre.
  { subst path. rewrite Hrest. apply prefix_app_self. }
  assert (isabs path = true) as Hpabs.
  { subst path. rewrite Hrest. by apply isabs_app. }
  split; [done|].
  rewrite run_node_unfold. simpl. unfold handle_command_nodes. simpl.
  unfold dump_inputs, bind, lift, ret, get. simpl.
  rewrite (left_id_L ∅ (∪) env), Hargs, Hraw. simpl.
  fold path. by rewrite Hpabs, Hreal, Hpre.
Qed.

Lemma logpipe_redirect_rejected_witness :
  run_node (sample_world "") (cmd_with ["/bin/echo"; "my warning"] None None (Some "$log"))
    {[ "log" := "/tmp/job/logpipe-mylog-WARNING" ]} "/" [1] (new_executor "/tmp/job")
  = (new_executor "/tmp/job", Raise NotImplementedError).
Proof.
  exact (proj2 (logpipe_redirect_rejected (sample_world "") "mylog" "WARNING"
           {[ "log" := "/tmp/job/logpipe-mylog-WARNING" ]} "/" [1]
           (new_executor "/tmp/job") ["/bin/echo"; "my warning"]
           ["/bin/echo"; "my warning"] None "$log"
           eq_refl eq_refl eq_refl eq_refl)).
Defined.

(** X11: a [cmd] or [hit] leaf one of whose arguments does not substitute
    (an unknown variable, a [$$], a malformed [$]) raises [ValueError]
    before anything is started: the executor is left as it was. *)
Theorem unresolved_argument_starts_nothing w args c to_var append_to_file
    env cwd node_pos ex e :
  substitute_all args env = Raise e →
  run_node w (cmd_with args c to_var append_to_file) env cwd node_pos ex
    = (ex, Raise ValueError)
  ∧ run_node w (hit_with args c to_var append_to_file) env cwd node_pos ex
    = (ex, Raise ValueError).
Proof.
  intros He. rewrite !run_node_unfold. simpl.
  split; by eapply leaf_substitution_fails.
Qed.

Lemma unresolved_argument_starts_nothing_witness :
  run_node (sample_world "") (cmd_with ["echo"; "$NOPE"] None None None)
    ∅ "/" [] (new_executor "/tmp/job")
  = (new_executor "/tmp/job", Raise ValueError).
Proof.
  exact (proj1 (unresolved_argument_starts_nothing (sample_world "") ["echo"; "$NOPE"]
           None None None ∅ "/" [] (new_executor "/tmp/job") ValueError eq_refl)).
Defined.

(** ** Induction over the command tree *)

Section tree_induction.

Lemma node_nested_ind (P : node → Prop) :
  (∀ nd, (∀ children, n_commands nd = Some children → Forall P children) → P nd) →
  ∀ nd, P nd.
Proof.
  intros H. fix IH 1. intros nd. apply H. intros children Hc.
  destruct nd as [[cs|] ? ? ? ? ? ? ? ? ? ? ? ? ?]; simpl in Hc; [|done].
  injection Hc as <-.
  induction cs as [|c cs IHcs]; constructor; [apply IH|apply IHcs].
Qed.

Lemma find_type_sound nd keys : ∀ type t,
  find_type nd keys type = Ok (Some t) → type = Some t ∨ has_key nd t = true.
Proof.
  induction keys as [|k keys IH]; intros type t; simpl.
  - intros [= ->]. by left.
  - destruct (has_key nd k) eqn:Hk; [|apply IH].
    destruct type; [done|]. intros [[= <-]|H]%IH; by right.
Qed.

Lemma find_type_has_key nd t :
  find_type nd type_keys None = Ok (Some t) → has_key nd t = true.
Proof. by intros [?|?]%find_type_sound. Qed.

(** What holds of one leaf and is kept by sequencing holds of a tree. *)
Lemma run_node_steps w (Q : node → Prop) (R : bool → executor → executor → Prop) :
  (∀ k ex, R k ex ex) →
  (∀ k a b c, R true a b → R k b c → R k a c) →
  (∀ nd children, Q nd → n_commands nd = Some children → Forall Q children) →
  (∀ nd env cwd node_pos ex ex' r,
     Q nd → is_Some (n_cmd nd) ∨ is_Some (n_hit nd) →
     handle_command_nodes w nd env cwd node_pos ex = (ex', r) →
     R (returned r) ex ex') →
  ∀ nd, Q nd → ∀ env cwd node_pos ex ex' r,
    run_node w nd env cwd node_pos ex = (ex', r) → R (returned r) ex ex'.
Proof.
  intros Hrefl Htrans Hsub Hleaf nd.
  induction nd as [nd IH] using node_nested_ind.
  intros HQ env cwd node_pos ex ex' r. rewrite run_node_unfold.
  assert (∀ var act sep, handle_env_mod nd env var act sep ex = (ex', r) →
            R (returned r) ex ex') as Hmod.
  { intros var act sep. unfold handle_env_mod, bind, lift, ret, raise.
    destruct (n_value nd) as [raw|]; [|by intros [= <- <-]].
    destruct (self_substitute raw env); [|by intros [= <- <-]].
    destruct act, (env !! var) as [old|];
      try destruct (String.length old =? 0); by intros [= <- <-]. }
  destruct (find_type nd type_keys None) as [[t|]|e] eqn:Ht;
    [|by intros [= <- <-]..].
  destruct t; try by apply Hmod.
  - destruct (n_commands nd) as [children|] eqn:Hc; [|by intros [= <- <-]].
    specialize (IH children eq_refl). specialize (Hsub nd children HQ Hc).
    unfold handle_commands, bind, ret.
    assert (∀ cs i sub ex1 ex2 r2, Forall Q cs →
              Forall (λ nd, Q nd → ∀ env cwd node_pos ex ex' r,
                run_node w nd env cwd node_pos ex = (ex', r) →
                R (returned r) ex ex') cs →
              run_children (run_node w) (process_cwd nd cwd) node_pos cs i sub ex1
                = (ex2, r2) → R (returned r2) ex1 ex2) as Hloop.
    { induction cs as [|c cs IHcs]; intros i sub ex1 ex2 r2 HQs HIH; simpl.
      - by intros [= <- <-].
      - apply Forall_cons in HQs as [HQc HQs].
        apply Forall_cons in HIH as [HIHc HIH].
        unfold bind.
        destruct (run_node w c sub (process_cwd nd cwd) (node_pos ++ [i]) ex1)
          as [ex1' [sub'|e]] eqn:Hrun.
        + intros Hrest. eapply Htrans.
          * exact (HIHc HQc _ _ _ _ _ _ Hrun).
          * by eapply IHcs.
        + intros [= <- <-]. exact (HIHc HQc _ _ _ _ _ _ Hrun). }
    destruct (run_children _ _ _ _ _ _ _) as [ex1 [sub|e]] eqn:Hrun;
      intros [= <- <-]; exact (Hloop _ _ _ _ _ _ Hsub IH Hrun).
  - apply Hleaf; [done|]. left.
    apply find_type_has_key in Ht. by apply bool_decide_eq_true in Ht.
  - apply Hleaf; [done|]. right.
    apply find_type_has_key in Ht. by apply bool_decide_eq_true in Ht.
Qed.

End tree_induction.

(** ** What one leaf does to the executor *)

Section leaf_steps.

Lemma bind_inv {A B} (m : M A) (k : A → M B) ex ex' r :
  bind m k ex = (ex', r) →
  (∃ ex1 a, m ex = (ex1, Ok a) ∧ k a ex1 = (ex', r))
  ∨ (∃ e, m ex = (ex', Raise e) ∧ r = Raise e).
Proof.
  unfold bind. destruct (m ex) as [ex1 [a|e]].
  - intros H. left. by exists ex1, a.
  - intros [= <- <-]. right. by exists e.
Qed.

Lemma dump_inputs_go_frame inputs node_pos : ∀ i env ex ex' r,
  dump_inputs_go inputs node_pos i env ex = (ex', r) →
  temp_dir ex' = temp_dir ex
  ∧ log_fifo_filenames ex' = log_fifo_filenames ex
  ∧ last_env ex' = last_env ex
  ∧ calls ex' = calls ex
  ∧ dom (files ex) ⊆ dom (files ex')
  ∧ ∀ env', r = Ok env' → ∀ k, (∀ j, k ≠ input_name j) → env' !! k = env !! k.
Proof.
  induction inputs as [|inp rest IH]; intros i env ex ex' r.
  { simpl. intros [= <- <-]. repeat split; try done. by intros env' [= <-]. }
  destruct (input_ok inp) eqn:Hinp.
  - rewrite dump_inputs_go_step by done. intros Hrun.
    apply IH in Hrun as (Htmp & Hfifo & Hlast & Hcalls & Hfiles & Henv).
    simpl in *. repeat split; try done.
    + etrans; [|exact Hfiles]. rewrite dom_insert. apply union_subseteq_r.
    + intros env' Hr k Hk. rewrite (Henv env' Hr k Hk).
      apply lookup_insert_ne. intros Heq. by apply (Hk i).
  - rewrite dump_inputs_go_bad by done. intros [= <- <-].
    repeat split; done.
Qed.

Lemma run_cmd_started w args env cwd stdout_to ex ex' r :
  run_cmd w args env cwd stdout_to ex = (ex', r) →
  started ByCmd args env cwd stdout_to ex ex' r.
Proof.
  unfold run_cmd, bind, modify, get, lift, ret. simpl.
  destruct (popen w _ args env cwd); intros [= <- <-];
    repeat split; try done. by intros _ v [= <-].
Qed.

Lemma create_log_pipe_frame sublogger_name level_str ex ex' r :
  create_log_pipe sublogger_name level_str ex = (ex', r) →
  temp_dir ex' = temp_dir ex
  ∧ log_fifo_filenames ex ⊆ log_fifo_filenames ex'
  ∧ files ex' = files ex
  ∧ last_env ex' = last_env ex
  ∧ calls ex' = calls ex.
Proof.
  unfold create_log_pipe.
  destruct (level_of_string level_str) as [lv|]; [|by intros [= <- <-]].
  unfold bind, get, modify, ret.
  destruct (log_fifo_filenames ex !! (sublogger_name, lv)) eqn:Hfifo;
    intros [= <- <-]; repeat split; try done.
  simpl. by apply insert_subseteq.
Qed.

Lemma run_hit_started w args env cwd stdout_to ex ex' r :
  run_hit w args env cwd stdout_to ex = (ex', r) →
  started ByHit args env cwd stdout_to ex ex' r.
Proof.
  unfold run_hit. intros [(ex1 & [] & [= <-] & Hrest)|(e & [=] & _)]%bind_inv.
  assert (∀ ex' r, (let* ex := get in lift (cli_main w ex ("hit" :: args) env cwd))
                     (add_call (Call ByHit args env cwd stdout_to) ex) = (ex', r) →
            started ByHit args env cwd stdout_to ex ex' r) as Hcli.
  { intros ex2 r2. unfold bind, get, lift. intros [= <- <-]. by repeat split. }
  destruct args as [|a1 rest]; [by apply Hcli|].
  destruct (bool_decide (a1 = "logpipe")); [|by apply Hcli].
  destruct rest as [|n [|l [|? ?]]];
    try (injection Hrest as <- <-; by repeat split).
  apply bind_inv in Hrest as [(ex2 & out & Hpipe & [= <- <-])|(e & Hpipe & ->)];
    apply create_log_pipe_frame in Hpipe as (? & ? & ? & ? & ?);
    by repeat split.
Qed.

(** The outcome of a leaf: at most one command is started, in the
    environment of the node with the input files' names added. *)
Lemma leaf_step w nd env cwd node_pos ex ex' r :
  handle_command_nodes w nd env cwd node_pos ex = (ex', r) →
  temp_dir ex' = temp_dir ex
  ∧ log_fifo_filenames ex ⊆ log_fifo_filenames ex'
  ∧ dom (files ex) ⊆ dom (files ex')
  ∧ ((calls ex' = calls ex ∧ last_env ex' = last_env ex ∧ returned r = false)
     ∨ ∃ c, calls ex' = calls ex ++ [c]
         ∧ (call_cwd c = process_cwd nd cwd
            ∧ ∀ k, (∀ j, k ≠ input_name j) → call_env c !! k = env !! k)
         ∧ (returned r = false → last_env ex' = last_env ex)
         ∧ ∀ env', r = Ok env' →
             (∃ e, last_env ex' = Some e ∧ (call_tool c = ByCmd → e = call_env c))
             ∧ (env' = env
                ∨ ∃ var v, n_to_var nd = Some var ∧ env' = <[var := v]> env)).
Proof.
  unfold handle_command_nodes.
  lazymatch goal with
  | |- _ → ?G => assert (∀ e : exn, (ex, Raise e) = (ex', r) → G) as Hraise
  end.
  { intros e [= <- <-]. do 3 (split; [done|]). left. by repeat split. }
  destruct (negb _); [apply Hraise|].
  destruct (1 <? _); [apply Hraise|].
  destruct (_ && _); [apply Hraise|].
  assert (∃ tl args func,
    (∀ args env cwd stdout_to ex ex' r,
       func args env cwd stdout_to ex = (ex', r) →
       started tl args env cwd stdout_to ex ex' r)
    ∧ match n_cmd nd, n_hit nd with
      | Some args, _ => Some (args, run_cmd w)
      | None, Some args => Some (args, run_hit w)
      | None, None => None
      end = Some (args, func)
    ∨ match n_cmd nd, n_hit nd with
      | Some args, _ => Some (args, run_cmd w)
      | None, Some args => Some (args, run_hit w)
      | None, None => None
      end = None) as Hleaf.
  { destruct (n_cmd nd) as [a|], (n_hit nd) as [b|].
    - exists ByCmd, a, (run_cmd w). left. split; [apply run_cmd_started|done].
    - exists ByCmd, a, (run_cmd w). left. split; [apply run_cmd_started|done].
    - exists ByHit, b, (run_hit w). left. split; [apply run_hit_started|done].
    - exists ByCmd, [], (run_cmd w). by right. }
  destruct Hleaf as (tl & args & func & [[Hfunc ->]| ->]); [|apply Hraise].
  clear Hraise.
  intros [(ex1 & in_env & Hdump & Hrest)|(e & Hdump & ->)]%bind_inv;
    apply dump_inputs_go_frame in Hdump
      as (Htmp1 & Hfifo1 & Hlast1 & Hcalls1 & Hfiles1 & Hin); cycle 1.
  { rewrite Htmp1, Hfifo1, Hlast1, Hcalls1. do 3 (split; [done|]).
    left. by repeat split. }
  specialize (Hin in_env eq_refl).
  assert (∀ k, (∀ j, k ≠ input_name j) → (in_env ∪ env) !! k = env !! k) as Henv.
  { intros k Hk. rewrite lookup_union, (Hin k Hk), lookup_empty.
    by destruct (env !! k). }
  clear Hin.
  apply bind_inv in Hrest as [(ex2 & args' & [= <- Hargs] & Hrest)|(e & [= <- _] & ->)];
    cycle 1.
  { rewrite Htmp1, Hfifo1, Hlast1, Hcalls1. do 3 (split; [done|]).
    left. by repeat split. }
  apply bind_inv in Hrest as [(ex3 & envs & Hrun & [= <- <-])|(e & Hrun & ->)].
  - (* the command returned *)
    simpl.
    destruct (n_to_var nd) as [var|] eqn:Hvar.
    + apply bind_inv in Hrun as [(ex4 & v & Hf & [= <- <-])|(e & _ & [=])].
      apply Hfunc in Hf as (Htmp & Hfifo & Hfiles & Hlast & Hcalls & Hcmd).
      rewrite Htmp, Htmp1, Hfiles, Hcalls, Hcalls1. split; [done|].
      split; [by rewrite <-Hfifo1|]. split; [done|]. right.
      eexists. split; [done|]. simpl. split; [done|]. split; [done|].
      intros env' [= <-]. split.
      * eexists. split; [done|]. intros ->. by apply Hcmd.
      * right. by eexists _, _.
    + destruct (n_append_to_file nd) as [raw|].
      * apply bind_inv in Hrun as [(ex4 & fn & [= <- Hfn] & Hrun)|(e & _ & [=])].
        apply bind_inv in Hrun as [(ex5 & ex0 & [= <- <-] & Hrun)|(e & _ & [=])].
        destruct (PyStr.startswith _ _); [done|].
        apply bind_inv in Hrun as [(ex6 & [] & [= <-] & Hrun)|(e & _ & [=])].
        apply bind_inv in Hrun as [(ex7 & v & Hf & Hrun)|(e & _ & [=])].
        apply bind_inv in Hrun as [(ex8 & [] & [= <-] & [= <- <-])|(e & _ & [=])].
        apply Hfunc in Hf as (Htmp & Hfifo & Hfiles & Hlast & Hcalls & Hcmd).
        simpl in *. rewrite Htmp, Htmp1, Hfiles, Hcalls, Hcalls1.
        split; [done|]. split; [by rewrite <-Hfifo1|]. split.
        { etrans; [exact Hfiles1|]. rewrite !dom_insert.
          etrans; [|apply union_subseteq_r]. apply union_subseteq_r. }
        right. eexists. split; [done|]. simpl. split; [done|]. split; [done|].
        intros env' [= <-]. split; [|by left].
        eexists. split; [done|]. intros ->. by apply Hcmd.
      * apply bind_inv in Hrun as [(ex4 & v & Hf & [= <- <-])|(e & _ & [=])].
        apply Hfunc in Hf as (Htmp & Hfifo & Hfiles & Hlast & Hcalls & Hcmd).
        rewrite Htmp, Htmp1, Hfiles, Hcalls, Hcalls1. split; [done|].
        split; [by rewrite <-Hfifo1|]. split; [done|]. right.
        eexists. split; [done|]. simpl. split; [done|]. split; [done|].
        intros env' [= <-]. split; [|by left].
        eexists. split; [done|]. intros ->. by apply Hcmd.
  - (* the command raised *)
    assert (∀ stdout_to ex4 ex5 r5 (fs : gmap string string),
      dom (files ex) ⊆ dom fs →
      func args' (in_env ∪ env) (process_cwd nd cwd) stdout_to
        (set_files fs ex4) = (ex5, r5) →
      temp_dir ex4 = temp_dir ex → log_fifo_filenames ex4 = log_fifo_filenames ex →
      last_env ex4 = last_env ex → calls ex4 = calls ex →
      temp_dir ex5 = temp_dir ex
      ∧ log_fifo_filenames ex ⊆ log_fifo_filenames ex5
      ∧ dom (files ex) ⊆ dom (files ex5)
      ∧ last_env ex5 = last_env ex
      ∧ ∃ c, calls ex5 = calls ex ++ [c]
          ∧ call_cwd c = process_cwd nd cwd
          ∧ ∀ k, (∀ j, k ≠ input_name j) → call_env c !! k = env !! k) as Hstart.
    { intros stdout_to ex4 ex5 r5 fs Hfs Hf Htmp4 Hfifo4 Hlast4 Hcalls4.
      apply Hfunc in Hf as (Htmp & Hfifo & Hfiles & Hlast & Hcalls & _).
      simpl in *. rewrite Htmp, Hfiles, Hlast, Hcalls, Htmp4, Hlast4, Hcalls4.
      split; [done|]. split; [by rewrite <-Hfifo4|]. do 2 (split; [done|]).
      by eexists. }
    assert (ex1 = set_files (files ex1) ex1) as Hex1 by by destruct ex1.
    destruct (n_to_var nd) as [var|] eqn:Hvar.
    + apply bind_inv in Hrun as [(ex4 & v & _ & [=])|(e' & Hf & _)].
      rewrite Hex1 in Hf.
      apply Hstart in Hf as (? & ? & ? & ? & c & ? & ? & ?); try done.
      do 3 (split; [done|]). right. exists c. by repeat split.
    + destruct (n_append_to_file nd) as [raw|].
      * apply bind_inv in Hrun as [(ex4 & fn & [= <- Hfn] & Hrun)|(e' & [= <- _] & _)];
          cycle 1.
        { rewrite Htmp1, Hfifo1, Hlast1, Hcalls1. do 3 (split; [done|]).
          left. by repeat split. }
        apply bind_inv in Hrun as [(ex5 & ex0 & [= <- <-] & Hrun)|(e' & [=] & _)].
        destruct (PyStr.startswith _ _).
        { injection Hrun as <- _.
          rewrite Htmp1, Hfifo1, Hlast1, Hcalls1. do 3 (split; [done|]).
          left. by repeat split. }
        apply bind_inv in Hrun as [(ex6 & [] & [= <-] & Hrun)|(e' & [=] & _)].
        apply bind_inv in Hrun as [(ex7 & v & Hf & Hrun)|(e' & Hf & _)].
        { apply bind_inv in Hrun as [(ex8 & [] & _ & [=])|(e' & [=] & _)]. }
        apply Hstart in Hf as (? & ? & ? & ? & c & ? & ? & ?); try done.
        { do 3 (split; [done|]). right. exists c. by repeat split. }
        etrans; [exact Hfiles1|]. rewrite dom_insert. apply union_subseteq_r.
      * apply bind_inv in Hrun as [(ex4 & v & _ & [=])|(e' & Hf & _)].
        rewrite Hex1 in Hf.
        apply Hstart in Hf as (? & ? & ? & ? & c & ? & ? & ?); try done.
        do 3 (split; [done|]). right. exists c. by repeat split.
Qed.

End leaf_steps.

(** ** The executor across a whole tree *)

(** X12: whatever the tree and whether it returns or raises, a run only
    adds to the executor: [temp_dir] is the same, every log pipe registered
    before is still registered under the same path, no file that was written
    is gone, and the commands started before are still the first ones. *)
Theorem executor_only_grows w nd env cwd node_pos ex :
  extends ex (run_node w nd env cwd node_pos ex).1.
Proof.
  destruct (run_node w nd env cwd node_pos ex) as [ex' r] eqn:Hrun. simpl.
  refine (run_node_steps w (λ _, True) (λ _, extends) _ _ _ _
            nd I env cwd node_pos ex ex' r Hrun).
  - intros _ a. by repeat split.
  - intros _ a b c (Ht1 & Hf1 & Hd1 & Hc1) (Ht2 & Hf2 & Hd2 & Hc2).
    split; [congruence|]. repeat split; by etrans.
  - intros ? children _ _. by apply Forall_forall.
  - intros nd' env' cwd' pos a b r' _ _
      (Ht & Hf & Hd & [(Hc & _)|(c & Hc & _)])%leaf_step;
      repeat split; try done; rewrite Hc; [done|by apply prefix_app_r].
Qed.

(** X13: a tree that holds no [cmd] and no [hit] key leaves the executor
    exactly as it was, whether it returns or raises: nothing is started, no
    file is written, and no last environment is recorded. *)
Theorem env_only_tree_leaves_executor w nd env cwd node_pos ex :
  quiet nd = true →
  (run_node w nd env cwd node_pos ex).1 = ex.
Proof.
  intros Hq.
  destruct (run_node w nd env cwd node_pos ex) as [ex' r] eqn:Hrun. simpl.
  refine (run_node_steps w (λ nd, quiet nd = true) (λ _ a b, b = a) _ _ _ _
            nd Hq env cwd node_pos ex ex' r Hrun).
  - done.
  - by intros _ a b c -> ->.
  - intros [[cs|] ? ? ? ? ? ? ? ? ? ? ? ? ?] children Hq'; simpl; [|done].
    intros [= <-]. apply andb_true_iff in Hq' as [_ Hall].
    apply Forall_forall. intros c Hc. rewrite forallb_forall in Hall.
    apply Hall. by apply list_elem_of_In.
  - intros [? c h ? ? ? ? ? ? ? ? ? ? ?] ? ? ? ? ? ? Hq'. simpl in *.
    apply andb_true_iff in Hq' as [[->%bool_decide_eq_true ->%bool_decide_eq_true]
      %andb_true_iff _].
    by intros [[? [=]]|[? [=]]].
Qed.

Lemma env_only_tree_leaves_executor_witness :
  (run_node (sample_world "")
     (group_node [set_node "A" "1"; group_node [prepend_path_node "PATH" "/bin"];
                  set_node "B" "$NOPE"])
     ∅ "/" [] (new_executor "/tmp/job")).1
  = new_executor "/tmp/job".
Proof.
  exact (env_only_tree_leaves_executor (sample_world "")
     (group_node [set_node "A" "1"; group_node [prepend_path_node "PATH" "/bin"];
                  set_node "B" "$NOPE"])
     ∅ "/" [] (new_executor "/tmp/job") eq_refl).
Defined.

Lemma run_node_last_command w nd env cwd node_pos ex ex' r :
  run_node w nd env cwd node_pos ex = (ex', r) →
  last_command (returned r) ex ex'.
Proof.
  refine (run_node_steps w (λ _, True) last_command _ _ _ _
            nd I env cwd node_pos ex ex' r).
  - intros k a. by left.
  - intros k a b c [[Hc1 Hl1]|(cs1 & c1 & Hc1 & Hl1)] [[Hc2 Hl2]|(cs2 & c2 & Hc2 & Hl2)].
    + left. split; [congruence|]. intros Hk. rewrite Hl2, Hl1; done.
    + right. exists cs2, c2. by rewrite Hc2, Hc1.
    + right. exists cs1, c1. split; [congruence|].
      intros Hk. rewrite (Hl2 Hk). by apply Hl1.
    + right. exists (cs1 ++ [c1] ++ cs2), c2. split; [|done].
      rewrite Hc2, Hc1. by rewrite <-!app_assoc.
  - intros ? children _ _. by apply Forall_forall.
  - intros nd' env' cwd' pos a b r' _ _
      (_ & _ & _ & [(Hc & Hl & Hr)|(c & Hc & _ & Hl & Hok)])%leaf_step.
    + left. split; [done|]. by rewrite Hr.
    + right. exists [], c. split; [done|].
      destruct r' as [env''|e]; [|done]. intros _.
      by destruct (Hok env'' eq_refl) as [He _].
Qed.

(** X14: when [run_job] returns, the value is the executor's record of
    the last command: [None] when the job started no command at all, and
    otherwise a dict; if the last command started was a [cmd], it is the
    dict that command was started with (the node's environment with the
    names of its input files), so neither the variable its [to_var] sets nor
    any assignment made after it is in it. *)
Theorem run_job_returns_last_command_env w fs build_store job_spec override_env
    virtuals cwd config temp_dir out_env :
  let job := run_job w fs build_store job_spec override_env virtuals cwd config
               temp_dir in
  jo_result job = Returned out_env →
  ∃ ex, jo_executor job = Some ex
    ∧ (calls ex = [] → out_env = None)
    ∧ (∀ c, last (calls ex) = Some c →
         is_Some out_env
         ∧ (call_tool c = ByCmd → out_env = Some (call_env c))).
Proof.
  unfold run_job. cbv zeta.
  destruct (canonicalize_job_spec job_spec) as [cjs|]; [|done].
  destruct (get_imports_env _ _ _ _) as [env|]; [|done].
  destruct (CommandTreeExecution fs temp_dir) as [?|[ex0 rm]] eqn:Hinit; [|].
  { simpl. intros ->. unfold CommandTreeExecution in Hinit.
    destruct temp_dir as [d|]; [|done].
    destruct (listdir fs d) as [entries|]; [|done].
    by destruct (bool_decide (entries ≠ [])). }
  assert (calls ex0 = [] ∧ last_env ex0 = None) as [Hc0 Hl0].
  { unfold CommandTreeExecution in Hinit. destruct temp_dir as [d|].
    - destruct (listdir fs d) as [entries|]; [|done].
      destruct (bool_decide (entries ≠ [])); [done|]. by injection Hinit as <- _.
    - by injection Hinit as <- _. }
  destruct (run_node w _ _ cwd [] ex0) as [ex r] eqn:Hrun.
  apply run_node_last_command in Hrun.
  destruct r as [env'|e]; [|done]. simpl. intros [= <-].
  exists ex. split; [done|].
  destruct Hrun as [[Hc Hl]|(cs & c & Hc & Hl)].
  - rewrite Hc, Hc0, Hl, Hl0 by done. by split.
  - rewrite Hc, Hc0. simpl. split.
    + intros Hnil. by destruct cs.
    + intros c'. rewrite last_snoc. intros [= <-].
      destruct (Hl eq_refl) as (e & -> & He). split; [by eexists|].
      intros Hcmd. by rewrite (He Hcmd).
Qed.

Lemma run_job_returns_last_command_env_witness :
  let job := run_job (sample_world "out") sample_tempfiles (λ _, None) sample_job
               {[ "HDIST_VIRTUALS" := "mine" ]} ∅ "/" "{}" None in
  let out_env : gmap string string :=
    <["A" := "1"]> (<["HDIST_CONFIG" := "{}"]> (<["HDIST_VIRTUALS" := ""]>
      (<["PATH" := ""]> (<["HDIST_CFLAGS" := ""]> (<["HDIST_LDFLAGS" := ""]>
      (<["HDIST_IMPORT" := ""]> (<["HDIST_IMPORT_PATHS" := ""]> ∅))))))) in
  jo_result job = Returned (Some out_env)
  ∧ out_env !! "X" = None
  ∧ out_env !! "B" = None
  ∧ ∃ ex, jo_executor job = Some ex
      ∧ (calls ex = [] → Some out_env = None)
      ∧ (∀ c, last (calls ex) = Some c →
           is_Some (Some out_env)
           ∧ (call_tool c = ByCmd → Some out_env = Some (call_env c))).
Proof.
  cbv zeta. do 3 (split; [reflexivity|]).
  exact (run_job_returns_last_command_env (sample_world "out") sample_tempfiles
           (λ _, None) sample_job {[ "HDIST_VIRTUALS" := "mine" ]} ∅ "/" "{}" None
           _ eq_refl).
Defined.

(** ** Variables no node assigns *)

Section threading.

Lemma handle_env_mod_frame nd env var act sep ex ex' r :
  handle_env_mod nd env var act sep ex = (ex', r) →
  ex' = ex ∧ ∀ env', r = Ok env' → ∃ v, env' = <[var := v]> env.
Proof.
  unfold handle_env_mod, bind, lift, ret, raise.
  destruct (n_value nd) as [raw|]; [|by intros [= <- <-]].
  destruct (self_substitute raw env); [|by intros [= <- <-]].
  destruct act, (env !! var) as [old|];
    try destruct (String.length old =? 0); intros [= <- <-];
    (split; [done|]); intros ? [= <-]; by eexists.
Qed.

Lemma assigned_unfold K nd :
  K ∉ assigned nd →
  n_set nd ≠ Some K ∧ n_prepend_path nd ≠ Some K ∧ n_append_path nd ≠ Some K
  ∧ n_prepend_flag nd ≠ Some K ∧ n_append_flag nd ≠ Some K
  ∧ n_to_var nd ≠ Some K
  ∧ ∀ children, n_commands nd = Some children →
      Forall (λ c, K ∉ assigned c) children.
Proof.
  destruct nd as [cs ? ? s pp ap pf af ? ? ? tv ? ?]. simpl.
  rewrite !not_elem_of_app. intros (Hs & Hpp & Hap & Hpf & Haf & Htv & Hcs).
  repeat split; try (intros ->; simpl in *; set_solver).
  intros children ->. apply Forall_forall. intros c Hc Hin. apply Hcs.
  apply list_elem_of_In, in_flat_map. exists c.
  by split; apply list_elem_of_In.
Qed.

(** A variable that no node of the tree assigns, and that is not the name
    of an input file, has its value in every command the tree starts and in
    the dict the tree leaves. *)
Lemma run_node_threads w K :
  (∀ j, K ≠ input_name j) →
  ∀ nd, K ∉ assigned nd →
  ∀ env cwd node_pos ex ex' r,
    run_node w nd env cwd node_pos ex = (ex', r) →
    ∃ cs, calls ex' = calls ex ++ cs
      ∧ Forall (λ c, call_env c !! K = env !! K) cs
      ∧ ∀ env', r = Ok env' → env' !! K = env !! K.
Proof.
  intros HK nd. induction nd as [nd IH] using node_nested_ind.
  intros Hnd env cwd node_pos ex ex' r. rewrite run_node_unfold.
  apply assigned_unfold in Hnd as (Hs & Hpp & Hap & Hpf & Haf & Htv & Hcs).
  assert (∀ var act sep, var ≠ K →
            handle_env_mod nd env var act sep ex = (ex', r) →
            ∃ cs, calls ex' = calls ex ++ cs
              ∧ Forall (λ c, call_env c !! K = env !! K) cs
              ∧ ∀ env', r = Ok env' → env' !! K = env !! K) as Hmod.
  { intros var act sep Hvar [-> Hr]%handle_env_mod_frame. exists [].
    rewrite app_nil_r. do 2 (split; [done|]). intros env' [v ->]%Hr.
    by apply lookup_insert_ne. }
  assert (∀ e : exn, (ex, Raise e) = (ex', r) →
            ∃ cs, calls ex' = calls ex ++ cs
              ∧ Forall (λ c, call_env c !! K = env !! K) cs
              ∧ ∀ env', r = Ok env' → env' !! K = env !! K) as Hraise.
  { intros e [= <- <-]. exists []. by rewrite app_nil_r. }
  destruct (find_type nd type_keys None) as [[t|]|e] eqn:Ht; [|by apply Hraise..].
  apply find_type_has_key in Ht.
  destruct t; simpl in Ht; apply bool_decide_eq_true in Ht as [x Hx];
    rewrite ?Hx; simpl;
    try (apply Hmod; intros ->; congruence).
  - (* commands *)
    specialize (IH x Hx). specialize (Hcs x Hx).
    unfold handle_commands, bind, ret.
    assert (∀ cs i sub ex1 ex2 r2,
              Forall (λ c, K ∉ assigned c) cs →
              Forall (λ nd, K ∉ assigned nd → ∀ env cwd node_pos ex ex' r,
                run_node w nd env cwd node_pos ex = (ex', r) →
                ∃ cs, calls ex' = calls ex ++ cs
                  ∧ Forall (λ c, call_env c !! K = env !! K) cs
                  ∧ ∀ env', r = Ok env' → env' !! K = env !! K) cs →
              run_children (run_node w) (process_cwd nd cwd) node_pos cs i sub ex1
                = (ex2, r2) →
              ∃ l, calls ex2 = calls ex1 ++ l
                ∧ Forall (λ c, call_env c !! K = sub !! K) l) as Hloop.
    { induction cs as [|c cs IHcs]; intros i sub ex1 ex2 r2 HKs HIH; simpl.
      - intros [= <- <-]. exists []. by rewrite app_nil_r.
      - apply Forall_cons in HKs as [HKc HKs].
        apply Forall_cons in HIH as [HIHc HIH].
        unfold bind.
        destruct (run_node w c sub (process_cwd nd cwd) (node_pos ++ [i]) ex1)
          as [ex1' [sub'|e]] eqn:Hrun;
          destruct (HIHc HKc _ _ _ _ _ _ Hrun) as (l1 & Hc1 & Hl1 & Hsub).
        + intros Hrest.
          destruct (IHcs _ _ _ _ _ HKs HIH Hrest) as (l2 & Hc2 & Hl2).
          exists (l1 ++ l2). rewrite Hc2, Hc1, app_assoc. split; [done|].
          apply Forall_app. split; [done|].
          by rewrite (Hsub sub' eq_refl) in Hl2.
        + intros [= <- <-]. by exists l1. }
    destruct (run_children _ _ _ _ _ _ _) as [ex1 [sub|e]] eqn:Hrun;
      intros [= <- <-]; destruct (Hloop _ _ _ _ _ _ Hcs IH Hrun) as (l & Hc & Hl);
      exists l; repeat split; try done. by intros env' [= <-].
  - (* cmd *)
    intros (_ & _ & _ & [(Hc & _ & Hr)|(c & Hc & Henv & _ & Hok)])%leaf_step.
    + exists []. rewrite app_nil_r. do 2 (split; [done|]).
      intros env' ->. done.
    + exists [c]. split; [done|]. split; [by repeat constructor; apply Henv|].
      intros env' Hr. destruct (Hok env' Hr) as [_ [->|(var & v & Hvar & ->)]]; [done|].
      apply lookup_insert_ne. intros ->. by apply Htv.
  - (* hit *)
    intros (_ & _ & _ & [(Hc & _ & Hr)|(c & Hc & Henv & _ & Hok)])%leaf_step.
    + exists []. rewrite app_nil_r. do 2 (split; [done|]).
      intros env' ->. done.
    + exists [c]. split; [done|]. split; [by repeat constructor; apply Henv|].
      intros env' Hr. destruct (Hok env' Hr) as [_ [->|(var & v & Hvar & ->)]]; [done|].
      apply lookup_insert_ne. intros ->. by apply Htv.
Qed.

End threading.

(** X15: a variable that no node of a tree assigns (as the target of an
    environment node or of [to_var]) and that is not the name of an input
    file ([in0], [in1], ...) reaches every command the tree starts with the
    value it had at the root, and still has that value in the dict the tree
    leaves; the commands started before are not touched. *)
Theorem unassigned_variable_reaches_commands w K nd env cwd node_pos ex :
  K ∉ assigned nd →
  (∀ j, K ≠ input_name j) →
  ∃ cs, calls (run_node w nd env cwd node_pos ex).1 = calls ex ++ cs
    ∧ Forall (λ c, call_env c !! K = env !! K) cs
    ∧ ∀ env', (run_node w nd env cwd node_pos ex).2 = Ok env' →
        env' !! K = env !! K.
Proof.
  intros Hnd HK.
  destruct (run_node w nd env cwd node_pos ex) as [ex' r] eqn:Hrun.
  exact (run_node_threads w K HK nd Hnd env cwd node_pos ex ex' r Hrun).
Qed.

Lemma unassigned_variable_reaches_commands_witness :
  let nd := group_node
              [set_node "CC" "gcc";
               cmd_to_var_node ["uname"] "HOST";
               group_node [prepend_path_node "PATH" "/opt/bin"; cmd_node ["make"]]] in
  let env : gmap string string := {[ "PREFIX" := "/usr/local" ]} in
  ∃ cs, calls (run_node (sample_world "x") nd env "/" [] (new_executor "/tmp/job")).1
          = calls (new_executor "/tmp/job") ++ cs
    ∧ Forall (λ c, call_env c !! "PREFIX" = env !! "PREFIX") cs
    ∧ ∀ env', (run_node (sample_world "x") nd env "/" [] (new_executor "/tmp/job")).2
                = Ok env' →
        env' !! "PREFIX" = env !! "PREFIX".
Proof.
  cbv zeta.
  apply (unassigned_variable_reaches_commands (sample_world "x") "PREFIX").
  - repeat (apply not_elem_of_cons; split; [done|]). apply not_elem_of_nil.
  - intros j. unfold input_name. by rewrite str_app_cons.
Defined.

(** X16: the environment [run_job] builds reaches the commands in layers:
    for a variable that no node of the job assigns and that is not the name
    of an input file, every command the job starts sees [HDIST_CONFIG] as
    the rendered [config] and [HDIST_VIRTUALS] as the packed [virtuals]
    (neither [override_env] nor [nohash_params] can replace them), and any
    other variable with the value of [override_env], else of
    [nohash_params], else of the imports. *)
Theorem job_environment_layers w fs build_store job_spec override_env virtuals
    cwd config temp_dir K ex :
  jo_executor (run_job w fs build_store job_spec override_env virtuals cwd config
                 temp_dir) = Some ex →
  K ∉ assigned (js_node job_spec) →
  (∀ j, K ≠ input_name j) →
  ∃ imports imports_env,
    canonicalize_imports (default [] (js_import job_spec)) = Ok imports
    ∧ get_imports_env (os w) build_store virtuals imports = Ok imports_env
    ∧ Forall (λ c, call_env c !! K =
        if bool_decide (K = "HDIST_CONFIG") then Some config
        else if bool_decide (K = "HDIST_VIRTUALS")
        then Some (pack_virtuals_envvar virtuals)
        else match override_env !! K with
             | Some v => Some v
             | None =>
                 match default ∅ (js_nohash_params job_spec) !! K with
                 | Some v => Some v
                 | None => imports_env !! K
                 end
             end) (calls ex).
Proof.
  unfold run_job, canonicalize_job_spec. intros Hex Hnd HK.
  destruct (canonicalize_imports _) as [imports|] eqn:Hcan; [|done].
  cbn [rbind cjs_import cjs_nohash_params cjs_node] in Hex.
  destruct (get_imports_env (os w) build_store virtuals imports)
    as [imports_env|] eqn:Himp; [|done].
  exists imports, imports_env. do 2 (split; [done|]).
  destruct (CommandTreeExecution fs temp_dir) as [?|[ex0 rm]] eqn:Hinit; [done|].
  assert (calls ex0 = []) as Hc0.
  { unfold CommandTreeExecution in Hinit. destruct temp_dir as [d|].
    - destruct (listdir fs d) as [entries|]; [|done].
      destruct (bool_decide (entries ≠ [])); [done|]. by injection Hinit as <- _.
    - by injection Hinit as <- _. }
  destruct (run_node w _ _ cwd [] ex0) as [ex1 r] eqn:Hrun.
  apply (run_node_threads w K HK _ Hnd) in Hrun as (cs & Hcs & Hall & _).
  assert (ex = ex1) as -> by by destruct r; injection Hex.
  rewrite Hcs, Hc0. simpl. eapply Forall_impl; [exact Hall|].
  intros c ->. simpl.
  case_bool_decide as H1; [subst K; apply lookup_insert_eq|].
  rewrite lookup_insert_ne by done.
  case_bool_decide as H2; [subst K; apply lookup_insert_eq|].
  rewrite lookup_insert_ne by done.
  rewrite !lookup_union.
  by destruct (override_env !! K), (default ∅ (js_nohash_params job_spec) !! K),
    (imports_env !! K).
Qed.

Lemma job_environment_layers_witness :
  let job := run_job (sample_world "out") sample_tempfiles (λ _, None) sample_job
               {[ "HDIST_VIRTUALS" := "mine" ]} {[ "virtual:unix" := "unix/abc" ]}
               "/" "{}" None in
  ∃ ex, jo_executor job = Some ex
    ∧ length (calls ex) = 1
    ∧ Forall (λ c, call_env c !! "HDIST_VIRTUALS" = Some "virtual:unix=unix/abc")
        (calls ex).
Proof.
  cbv zeta. eexists. split; [reflexivity|]. split; [reflexivity|].
  destruct (job_environment_layers (sample_world "out") sample_tempfiles (λ _, None)
              sample_job {[ "HDIST_VIRTUALS" := "mine" ]}
              {[ "virtual:unix" := "unix/abc" ]} "/" "{}" None "HDIST_VIRTUALS" _
              eq_refl) as (imports & imports_env & _ & _ & Hall).
  - repeat (apply not_elem_of_cons; split; [done|]). apply not_elem_of_nil.
  - intros j. unfold input_name. by rewrite str_app_cons.
  - exact Hall.
Defined.

(** ** Reads, however the bytes are cut *)

Section chunking.
Import LogMux.

Lemma framed_cons x (lines : list string) :
  lines ≠ [] → framed (x :: lines) = (x :: (framed lines).1, (framed lines).2).
Proof.
  intros Hne. unfold framed. rewrite last_cons.
  destruct (last lines) as [l|] eqn:Hl.
  - destruct lines as [|y lines]; [done|].
    by destruct (bool_decide (last_char l = Some LF)).
  - by apply last_None in Hl.
Qed.

Lemma splitlines_nonempty (s : string) : s ≠ "" → splitlines s ≠ [].
Proof.
  destruct s as [|c s]; [done|]. intros _. simpl.
  destruct (Ascii.eqb c LF); [done|].
  destruct (Ascii.eqb c CR).
  - destruct s as [|c' s]; [done|]. by destruct (Ascii.eqb c' LF).
  - by destruct (splitlines s).
Qed.

Lemma string_ind2 (P : string → Prop) :
  P "" → (∀ c, P (String c "")) →
  (∀ c c' s, P s → P (String c' s) → P (String c (String c' s))) →
  ∀ s, P s.
Proof.
  intros H0 H1 H2.
  assert (∀ s, P s ∧ ∀ c, P (String c s)) as H; [|intros s; apply H].
  induction s as [|c' s [IH1 IH2]]; [split; [done|apply H1]|].
  split; [apply IH2|]. intros c. apply H2; [done|apply IH2].
Qed.

(** The equations of [splitlines]. *)
Lemma splitlines_LF (s : string) :
  splitlines (String LF s) = String LF "" :: splitlines s.
Proof. done. Qed.

Lemma splitlines_CR_LF (s : string) :
  splitlines (String CR (String LF s)) = String CR (String LF "") :: splitlines s.
Proof. done. Qed.

Lemma splitlines_CR (s : string) :
  (∀ s', s ≠ String LF s') →
  splitlines (String CR s) = String CR "" :: splitlines s.
Proof.
  intros Hs. cbn [splitlines]. change (Ascii.eqb CR LF) with false.
  change (Ascii.eqb CR CR) with true. cbv iota.
  destruct s as [|c s]; [done|].
  destruct (Ascii.eqb c LF) eqn:Hc; [|done].
  apply Ascii.eqb_eq in Hc as ->. by destruct (Hs s).
Qed.

Lemma splitlines_other c (s : string) :
  c ≠ LF → c ≠ CR →
  splitlines (String c s) =
    match splitlines s with
    | [] => [String c ""]
    | l :: ls => String c l :: ls
    end.
Proof.
  intros H1%Ascii.eqb_neq H2%Ascii.eqb_neq. cbn [splitlines]. by rewrite H1, H2.
Qed.

Lemma splitlines_lines (s : string) : Forall (λ l, l ≠ "") (splitlines s).
Proof.
  induction s as [|c|c c' s IH1 IH2] using string_ind2.
  - constructor.
  - simpl. destruct (Ascii.eqb c LF), (Ascii.eqb c CR); by repeat constructor.
  - destruct (decide (c = LF)) as [->|HLF].
    { rewrite splitlines_LF. by constructor. }
    destruct (decide (c = CR)) as [->|HCR].
    + destruct (decide (c' = LF)) as [->|HLF'].
      * rewrite splitlines_CR_LF. by constructor.
      * rewrite splitlines_CR by (intros s' [= ? _]; done). by constructor.
    + rewrite splitlines_other by done.
      destruct (splitlines (String c' s)) as [|l ls]; [by repeat constructor|].
      apply Forall_cons in IH2 as [_ Hls]. by constructor.
Qed.

Lemma framed_single (l : string) :
  framed [l] = if bool_decide (last_char l = Some LF) then ([l], "") else ([], l).
Proof. done. Qed.

Lemma last_char_cons c (l : string) : l ≠ "" → last_char (String c l) = last_char l.
Proof. by destruct l. Qed.

(** The lines of [s +:+ t] are the lines [s] completes, then the lines
    of what [s] leaves pending followed by [t]. *)
Lemma splitlines_app (t : string) : ∀ s : string,
  splitlines (s +:+ t) = complete_lines s ++ splitlines (pending s +:+ t).
Proof.
  unfold complete_lines, pending.
  induction s as [|c|c c' s IH1 IH2] using string_ind2.
  - done.
  - destruct (decide (c = LF)) as [->|HLF]; [done|].
    cbn [splitlines]. apply Ascii.eqb_neq in HLF as HLF'. rewrite HLF'.
    assert (framed [String c ""] = ([], String c "")) as Hf.
    { rewrite framed_single, bool_decide_false; [done|]. simpl. congruence. }
    destruct (Ascii.eqb c CR); by rewrite Hf.
  - pose proof (splitlines_nonempty (String c' s)) as Hne.
    rewrite !str_app_cons.
    destruct (decide (c = LF)) as [->|HLF].
    { rewrite !splitlines_LF, framed_cons by by apply Hne.
      cbn [fst snd]. rewrite <-str_app_cons, IH2. by rewrite <-app_comm_cons. }
    destruct (decide (c = CR)) as [->|HCR].
    + destruct (decide (c' = LF)) as [->|HLF'].
      * rewrite !splitlines_CR_LF. destruct s as [|c'' s].
        { done. }
        rewrite framed_cons by by apply splitlines_nonempty.
        cbn [fst snd]. rewrite IH1. by rewrite <-app_comm_cons.
      * rewrite !splitlines_CR by (intros s' [= ? _]; done).
        rewrite framed_cons by by apply Hne.
        cbn [fst snd]. rewrite <-str_app_cons, IH2. by rewrite <-app_comm_cons.
    + rewrite (splitlines_other c (String c' s)) by done.
      rewrite (splitlines_other c (String c' (s +:+ t))) by done.
      rewrite <-str_app_cons, IH2.
      pose proof (splitlines_lines (String c' s)) as Hlines.
      destruct (splitlines (String c' s)) as [|l ls]; [by destruct Hne|].
      apply Forall_cons in Hlines as [Hl Hls].
      destruct ls as [|l' ls].
      * rewrite !framed_single, last_char_cons by done.
        destruct (bool_decide (last_char l = Some LF)); cbn [fst snd app].
        { done. }
        rewrite str_app_cons. by rewrite (splitlines_other c (l +:+ t)).
      * rewrite !(framed_cons _ (l' :: ls)) by done. cbn [fst snd].
        by rewrite <-!app_comm_cons.
Qed.

Lemma framed_app (a lines : list string) :
  lines ≠ [] → framed (a ++ lines) = (a ++ (framed lines).1, (framed lines).2).
Proof.
  intros Hne. induction a as [|x a IH]; [simpl; by destruct (framed lines)|].
  rewrite <-app_comm_cons, framed_cons, IH; [done|]. by destruct a, lines.
Qed.

Lemma str_app_nonempty_r (s t : string) : t ≠ "" → s +:+ t ≠ "".
Proof. destruct s; [done|]. by rewrite str_app_cons. Qed.

Lemma str_app_nonempty_l (s t : string) : s ≠ "" → s +:+ t ≠ "".
Proof. destruct s; [done|]. by rewrite str_app_cons. Qed.

Lemma framed_splitlines_app (s t : string) :
  t ≠ "" →
  framed (splitlines (s +:+ t)) =
    (complete_lines s ++ complete_lines (pending s +:+ t),
     pending (pending s +:+ t)).
Proof.
  intros Ht. rewrite splitlines_app, framed_app; [done|].
  by apply splitlines_nonempty, str_app_nonempty_r.
Qed.

(** One read on a descriptor that is not forwarded. *)
Lemma on_pollin_chunk fd new_bytes m old lg :
  bool_decide (is_Some (stdout_to m)) && bool_decide (fd = stdout_fd m) = false →
  new_bytes ≠ "" →
  buffers m !! fd = Some old → loggers m !! fd = Some lg →
  on_pollin fd new_bytes m =
    Ok (add_log (emit lg (complete_lines (old +:+ new_bytes)))
          (set_buffers (<[fd := pending (old +:+ new_bytes)]> (buffers m)) m)).
Proof.
  intros Hfwd Hne Hold Hlg. unfold on_pollin, complete_lines, pending, framed.
  rewrite Hfwd, bool_decide_false, Hold, Hlg by done.
  pose proof (splitlines_nonempty (old +:+ new_bytes)
                (str_app_nonempty_r old new_bytes Hne)) as Hlines.
  pose proof (splitlines_lines (old +:+ new_bytes)) as Hall.
  destruct (last (splitlines (old +:+ new_bytes))) as [l|] eqn:Hl;
    [|by apply last_None in Hl].
  assert (l ≠ "") as Hlne.
  { apply last_Some_elem_of in Hl. by eapply Forall_forall in Hall. }
  destruct (last_char_nonempty l Hlne) as [c Hc]. rewrite Hc.
  destruct (Ascii.eqb c LF) eqn:HLF.
  - apply Ascii.eqb_eq in HLF as ->. by rewrite bool_decide_true.
  - apply Ascii.eqb_neq in HLF. rewrite bool_decide_false; [done|congruence].
Qed.

(** One read on a descriptor that is not forwarded, whatever the state. *)
Lemma on_pollin_cases fd new_bytes m :
  bool_decide (is_Some (stdout_to m)) && bool_decide (fd = stdout_fd m) = false →
  new_bytes ≠ "" →
  on_pollin fd new_bytes m =
    match buffers m !! fd, loggers m !! fd with
    | Some old, Some lg =>
        Ok (add_log (emit lg (complete_lines (old +:+ new_bytes)))
              (set_buffers (<[fd := pending (old +:+ new_bytes)]> (buffers m)) m))
    | _, _ => Raise KeyError
    end.
Proof.
  intros Hfwd Hne.
  destruct (buffers m !! fd) as [old|] eqn:Hold; cycle 1.
  { unfold on_pollin. by rewrite Hfwd, bool_decide_false, Hold. }
  destruct (loggers m !! fd) as [lg|] eqn:Hlg; [by apply on_pollin_chunk|].
  unfold on_pollin. rewrite Hfwd, bool_decide_false, Hold, Hlg by done.
  pose proof (splitlines_nonempty (old +:+ new_bytes)
                (str_app_nonempty_r old new_bytes Hne)) as Hlines.
  pose proof (splitlines_lines (old +:+ new_bytes)) as Hall.
  destruct (last (splitlines (old +:+ new_bytes))) as [l|] eqn:Hl;
    [|by apply last_None in Hl].
  assert (l ≠ "") as Hlne.
  { apply last_Some_elem_of in Hl. by eapply Forall_forall in Hall. }
  by destruct (last_char_nonempty l Hlne) as [c ->].
Qed.

(** A read that is forwarded to the capture sink. *)
Lemma on_pollin_forwarded fd new_bytes m :
  bool_decide (is_Some (stdout_to m)) && bool_decide (fd = stdout_fd m) = true →
  on_pollin fd new_bytes m =
    Ok (set_capture (Some (default "" (stdout_to m) +:+ new_bytes)) m).
Proof. intros Hfwd. unfold on_pollin. by rewrite Hfwd. Qed.

(** Two reads in a row on one descriptor do what one read of the joined
    bytes does, whatever the state and whatever comes after. *)
Lemma poll_loop_merge fd b1 b2 rest m :
  b1 ≠ "" → b2 ≠ "" →
  poll_loop (POLLIN fd b1 :: POLLIN fd b2 :: rest) m
  = poll_loop (POLLIN fd (b1 +:+ b2) :: rest) m.
Proof.
  intros H1 H2. cbn [poll_loop on_event].
  destruct (bool_decide (is_Some (stdout_to m)) && bool_decide (fd = stdout_fd m))
    eqn:Hfwd.
  { rewrite !(on_pollin_forwarded fd _ m) by done. cbn [rbind].
    rewrite on_pollin_forwarded; cycle 1.
    { apply andb_true_iff in Hfwd as [_ Hfd]. apply andb_true_iff.
      split; [apply bool_decide_eq_true; by eexists|exact Hfd]. }
    cbn [rbind]. simpl. by rewrite str_app_assoc. }
  rewrite (on_pollin_cases fd b1 m), (on_pollin_cases fd (b1 +:+ b2) m)
    by (done || by apply str_app_nonempty_r).
  destruct (buffers m !! fd) as [old|] eqn:Hold; [|done].
  destruct (loggers m !! fd) as [lg|] eqn:Hlg; [|done].
  pose proof (framed_splitlines_app (old +:+ b1) b2 H2) as Hf.
  rewrite str_app_assoc in Hf.
  assert (pending (old +:+ (b1 +:+ b2)) = pending (pending (old +:+ b1) +:+ b2)) as Hp.
  { unfold pending at 1. by rewrite Hf. }
  assert (complete_lines (old +:+ (b1 +:+ b2))
          = complete_lines (old +:+ b1) ++ complete_lines (pending (old +:+ b1) +:+ b2))
    as Hc.
  { unfold complete_lines at 1. by rewrite Hf. }
  cbn [rbind]. rewrite on_pollin_cases by done. simpl.
  rewrite lookup_insert_eq, Hlg, Hp, Hc. cbn [rbind]. f_equal.
  unfold add_log, set_buffers. simpl.
  rewrite insert_insert_eq, <-app_assoc. unfold emit. by rewrite fmap_app.
Qed.

Lemma stream_reads fd b (reads : list string) :
  stream fd (POLLIN fd <$> b :: reads) = b +:+ stream fd (POLLIN fd <$> reads).
Proof. simpl. by rewrite bool_decide_true. Qed.

Lemma poll_loop_single fd (reads : list string) : ∀ b rest m,
  b ≠ "" → Forall (λ b, b ≠ "") reads →
  poll_loop ((POLLIN fd <$> b :: reads) ++ rest) m
  = poll_loop (POLLIN fd (stream fd (POLLIN fd <$> b :: reads)) :: rest) m.
Proof.
  induction reads as [|b2 reads IH]; intros b rest m Hb Hreads.
  { simpl. by rewrite bool_decide_true, str_app_nil_r. }
  apply Forall_cons in Hreads as [Hb2 Hreads].
  rewrite stream_reads, stream_reads, <-str_app_assoc, <-stream_reads.
  rewrite <-IH by (done || by apply str_app_nonempty_r).
  rewrite !fmap_cons, <-!app_comm_cons. by apply poll_loop_merge.
Qed.

Lemma poll_loop_reads_ok fd (reads : list string) : ∀ m,
  is_Some (buffers m !! fd) → is_Some (loggers m !! fd) →
  Forall (λ b, b ≠ "") reads →
  is_ok (poll_loop (POLLIN fd <$> reads) m).
Proof.
  induction reads as [|b reads IH]; intros m [old Hold] [lg Hlg] Hreads.
  { by eexists. }
  apply Forall_cons in Hreads as [Hb Hreads]. cbn [fmap list_fmap poll_loop on_event].
  destruct (bool_decide (is_Some (stdout_to m)) && bool_decide (fd = stdout_fd m))
    eqn:Hfwd.
  - rewrite on_pollin_forwarded by done. cbn [rbind].
    apply IH; [by eexists..|done].
  - rewrite on_pollin_cases, Hold, Hlg by done. cbn [rbind].
    apply IH; simpl; [|by eexists|done].
    rewrite lookup_insert_eq. by eexists.
Qed.

End chunking.

(** X17: what is logged does not depend on how the bytes of a stream are
    cut into reads, carriage returns or not: reads in a row on one
    descriptor, none of them empty and with no other event between them,
    leave what one read of all their bytes leaves, in whatever state they
    come and whatever comes after; and on an open descriptor they raise
    nothing.  (A hang-up of a log pipe between two reads is another event:
    it flushes what the pipe has pending.) *)
Theorem framing_ignores_chunking m fd (reads : list string) rest :
  reads ≠ [] →
  Forall (λ b, b ≠ "") reads →
  LogMux.poll_loop ((LogMux.POLLIN fd <$> reads) ++ rest) m
    = LogMux.poll_loop
        (LogMux.POLLIN fd (LogMux.stream fd (LogMux.POLLIN fd <$> reads)) :: rest) m
  ∧ (is_Some (LogMux.buffers m !! fd) → is_Some (LogMux.loggers m !! fd) →
     is_ok (LogMux.poll_loop (LogMux.POLLIN fd <$> reads) m)).
Proof.
  intros Hne Hreads. destruct reads as [|b reads]; [done|]. split.
  - apply Forall_cons in Hreads as [Hb Hreads]. by apply poll_loop_single.
  - intros Hbuf Hlg. by apply poll_loop_reads_ok.
Qed.

Lemma framing_ignores_chunking_witness :
  let m := LogMux.start 1 2 true
             [(3, ("MYHEAD", INFO), "/tmp/job/logpipe-MYHEAD-INFO")] in
  let reads := [String "a" (String LogMux.CR ""); String LogMux.LF "b";
                LogMux.with_LF "c" +:+ "d"] in
  let rest := [LogMux.POLLHUP 3 (Ok 4); LogMux.POLLIN 4 (LogMux.with_LF "e")] in
  LogMux.poll_loop ((LogMux.POLLIN 3 <$> reads) ++ rest) m
    = LogMux.poll_loop
        (LogMux.POLLIN 3 (LogMux.stream 3 (LogMux.POLLIN 3 <$> reads)) :: rest) m
  ∧ (is_Some (LogMux.buffers m !! 3) → is_Some (LogMux.loggers m !! 3) →
     is_ok (LogMux.poll_loop (LogMux.POLLIN 3 <$> reads) m)).
Proof.
  cbv zeta. apply framing_ignores_chunking; [done|].
  repeat constructor; done.
Defined.

(** ** Captured standard output *)

Section capture.
Import LogMux.

Lemma on_event_same_but_capture ev a a' a1 :
  same_but_capture a a' → reads_from (stdout_fd a) ev = false →
  on_event ev a = Ok a1 →
  ∃ a1', on_event ev a' = Ok a1' ∧ same_but_capture a1 a1'
    ∧ stdout_to a1 = stdout_to a ∧ stdout_fd a1 = stdout_fd a.
Proof.
  intros (Hlg & Hbuf & Hpipes & Hfd & Herr & Hlog & Hcap & Hcap') Hev.
  destruct ev as [fd b|fd op|fd]; simpl in *.
  - apply bool_decide_eq_false in Hev. unfold on_pollin.
    rewrite Hlg, Hbuf, Hfd, !(bool_decide_false (fd = _)), !andb_false_r by done.
    destruct (bool_decide (b = "")); [done|].
    destruct (buffers a !! fd) as [old|]; [|done].
    destruct (last _) as [l|]; [|done].
    destruct (last_char l) as [c|]; [|done].
    destruct (loggers a !! fd) as [lg|]; [|done].
    intros [= <-]. eexists. split; [done|]. split; [|done].
    unfold same_but_capture. simpl. by rewrite Hlog.
  - rewrite Hpipes.
    destruct (bool_decide (is_Some (fd_to_logpipe a !! fd))); cycle 1.
    { intros [= <-]. exists a'. split; [done|]. split; [|done].
      by repeat split. }
    unfold reopen_fifo, close_fifo, flush_buffer.
    rewrite Hpipes, Hlg, Hbuf.
    destruct (fd_to_logpipe a !! fd) as [name|] eqn:Hname; [|done].
    destruct (loggers a !! fd) as [lg|] eqn:Hfdl; [|done].
    destruct (buffers a !! fd) as [buf|]; [|done]. simpl.
    destruct (bool_decide (buf = "")); simpl;
      rewrite Hlg, Hfdl, ?Hpipes, ?Hname; simpl;
      (destruct op as [new_fd|e]; [|done]); simpl;
      intros [= <-]; (eexists; split; [reflexivity|]); simpl;
      (split; [|done]); unfold same_but_capture; simpl;
      by rewrite ?Hlg, ?Hbuf, ?Hpipes, ?Hlog.
  - intros [= <-]. exists a'. split; [done|]. split; [|done].
    by repeat split.
Qed.

Lemma poll_loop_capture out (events : list event) : ∀ a a' m s,
  same_but_capture a a' → stdout_fd a = out → stdout_to a = Some s →
  poll_loop events a = Ok m →
  stdout_to m = Some (s +:+ stream out events)
  ∧ ∃ m', poll_loop (filter (λ ev, reads_from out ev = false) events) a' = Ok m'
      ∧ same_but_capture m m'.
Proof.
  induction events as [|ev events IH]; intros a a' m s Hsame Hout Hs.
  { simpl. intros [= <-]. rewrite str_app_nil_r. split; [done|]. by exists a'. }
  cbn [poll_loop]. destruct (reads_from out ev) eqn:Hev.
  - rewrite filter_cons_False by (by rewrite Hev).
    destruct ev as [fd b|fd op|fd]; try done. simpl in Hev.
    apply bool_decide_eq_true in Hev as ->.
    cbn [on_event stream foldr]. rewrite bool_decide_true by done.
    unfold on_pollin at 1. rewrite Hs, Hout, !bool_decide_true by done.
    cbn [andb rbind default]. intros Hrest.
    rewrite <-str_app_assoc.
    apply (IH (set_capture (Some (s +:+ b)) a) a' m (s +:+ b)); try done.
    destruct Hsame as (? & ? & ? & ? & ? & ? & ? & ?). by repeat split.
  - rewrite filter_cons_True by done.
    destruct (on_event ev a) as [a1|] eqn:Hstep; [|done]. cbn [rbind].
    destruct (on_event_same_but_capture ev a a' a1 Hsame)
      as (a1' & Hstep' & Hsame1 & Hcap1 & Hfd1); [by rewrite Hout|done|].
    cbn [poll_loop]. rewrite Hstep'. cbn [rbind]. intros Hrest.
    assert (stream out (ev :: events) = stream out events) as ->.
    { destruct ev as [fd b|fd op|fd]; try done. simpl in *. by rewrite Hev. }
    apply (IH a1 a1' m s); try done; congruence.
Qed.

End capture.

(** X18: with standard output captured, what the run forwards to
    [stdout_to] is the bytes read from standard output, in order and byte
    for byte, whatever they hold and however they are interleaved with the
    other events (reads of other descriptors, hang-ups); and those reads
    touch nothing else: the records and the buffers are those of the run
    without them. *)
Theorem captured_output_is_exact out err pipes (events : list LogMux.event) m :
  LogMux.poll_loop events (LogMux.start out err true pipes) = Ok m →
  LogMux.stdout_to m = Some (LogMux.stream out events)
  ∧ ∃ m', LogMux.poll_loop (filter (λ ev, reads_from out ev = false) events)
            (LogMux.start out err true pipes) = Ok m'
      ∧ LogMux.log m' = LogMux.log m
      ∧ LogMux.buffers m' = LogMux.buffers m.
Proof.
  intros Hrun.
  destruct (start_fresh out err true pipes) as (_ & _ & Hout & Hs0 & _).
  destruct (poll_loop_capture out events (LogMux.start out err true pipes)
              (LogMux.start out err true pipes) m "") as (Hc & m' & Hrun' & Hsame);
    try done.
  split; [exact Hc|]. exists m'. by destruct Hsame as (_ & ? & _ & _ & _ & ? & _).
Qed.

Lemma captured_output_is_exact_witness :
  let events := [LogMux.POLLIN 1 "x"; LogMux.POLLIN 2 (LogMux.with_LF "warning");
                 LogMux.POLLIN 1 ""; LogMux.POLLHUP 3 (Ok 3);
                 LogMux.POLLIN 1 (String LogMux.CR "y")] in
  ∃ m, LogMux.poll_loop events
         (LogMux.start 1 2 true [(3, ("H", INFO), "/tmp/job/logpipe-H-INFO")]) = Ok m
    ∧ LogMux.stdout_to m = Some (String "x" (String LogMux.CR "y"))
    ∧ LogMux.log m = [(None, DEBUG, "warning")].
Proof.
  cbv zeta. eexists. split; [reflexivity|]. split; [|reflexivity].
  exact (proj1 (captured_output_is_exact 1 2
           [(3, ("H", INFO), "/tmp/job/logpipe-H-INFO")]
           [LogMux.POLLIN 1 "x"; LogMux.POLLIN 2 (LogMux.with_LF "warning");
            LogMux.POLLIN 1 ""; LogMux.POLLHUP 3 (Ok 3);
            LogMux.POLLIN 1 (String LogMux.CR "y")] _ eq_refl)).
Defined.

(** ** Strings that do not unpack *)

Section unpack_failures.

Lemma split_length c (s : string) : length (PyStr.split c s) = S (count_char c s).
Proof.
  induction s as [|a s IH]; [done|]. rewrite split_cons. simpl.
  destruct (Ascii.eqb a c); simpl; [by rewrite IH|].
  destruct (PyStr.split c s); [done|]. by rewrite <-IH.
Qed.

Lemma count_char_app c (s t : string) :
  count_char c (s +:+ t) = count_char c s + count_char c t.
Proof.
  induction s as [|a s IH]; [done|]. rewrite str_app_cons. simpl.
  rewrite IH. lia.
Qed.

Lemma count_char_has_char c (s : string) :
  has_char c s = true → 0 < count_char c s.
Proof.
  induction s as [|a s IH]; [done|]. simpl.
  destruct (Ascii.eqb a c); simpl; [lia|]. exact IH.
Qed.

Lemma dict_of_tuples_cases (l : list (list string)) : ∀ acc,
  (Forall (λ tup, length tup = 2) l → is_ok (dict_of_tuples acc l))
  ∧ (¬ Forall (λ tup, length tup = 2) l → dict_of_tuples acc l = Raise ValueError).
Proof.
  induction l as [|tup l IH]; intros acc.
  { split; [by eexists|]. intros H. destruct H. constructor. }
  destruct tup as [|k [|v [|? ?]]]; simpl;
    try (split; [by intros [[=] _]%Forall_cons|done]).
  destruct (IH (<[k:=v]> acc)) as [Hok Hbad]. split.
  - intros [_ Hl]%Forall_cons. by apply Hok.
  - intros Hl. apply Hbad. intros Hl'. apply Hl. by constructor.
Qed.

End unpack_failures.

(** X19: a string that is not empty unpacks exactly when each of its
    pieces between [;] holds one [=]; otherwise [unpack_virtuals_envvar]
    raises [ValueError].  So what [pack_virtuals_envvar] makes of a mapping
    with an [=] in a key or a value (and no [;]) does not unpack. *)
Theorem unpack_virtuals_failures :
  (∀ x, x ≠ "" →
     (Forall (λ piece, count_char "=" piece = 1) (PyStr.split ";" x) →
        is_ok (unpack_virtuals_envvar x))
     ∧ (¬ Forall (λ piece, count_char "=" piece = 1) (PyStr.split ";" x) →
        unpack_virtuals_envvar x = Raise ValueError))
  ∧ (∀ v : gmap string string,
       (∀ k y, v !! k = Some y → has_char ";" k = false ∧ has_char ";" y = false) →
       (∃ k y, v !! k = Some y ∧ has_char "=" k || has_char "=" y = true) →
       unpack_virtuals_envvar (pack_virtuals_envvar v) = Raise ValueError).
Proof.
  assert (∀ x, x ≠ "" →
     (Forall (λ piece, count_char "=" piece = 1) (PyStr.split ";" x) →
        is_ok (unpack_virtuals_envvar x))
     ∧ (¬ Forall (λ piece, count_char "=" piece = 1) (PyStr.split ";" x) →
        unpack_virtuals_envvar x = Raise ValueError)) as Hgen.
  { intros x Hx. unfold unpack_virtuals_envvar. destruct x as [|a x]; [done|].
    destruct (dict_of_tuples_cases
                (PyStr.split "=" <$> PyStr.split ";" (String a x)) ∅) as [Hok Hbad].
    assert (Forall (λ tup, length tup = 2)
              (PyStr.split "=" <$> PyStr.split ";" (String a x))
            ↔ Forall (λ piece, count_char "=" piece = 1)
                (PyStr.split ";" (String a x))) as Hiff.
    { rewrite Forall_fmap. apply Forall_iff. intros piece. simpl.
      rewrite split_length. lia. }
    split; intros H; [apply Hok|apply Hbad]; by rewrite Hiff. }
  split; [exact Hgen|].
  intros v Hsemi (k & y & Hky & Heq).
  unfold pack_virtuals_envvar, pack_items.
  pose proof (merge_sort_Permutation tuple_le (map_to_list v)) as Hperm.
  set (l := merge_sort tuple_le (map_to_list v)) in *.
  assert ((k, y) ∈ l) as Hin.
  { rewrite Hperm. by apply elem_of_map_to_list. }
  assert (Forall (λ tup, has_char ";" (format_tuple tup) = false) l) as Hl.
  { apply Forall_forall. intros [k' y'] Hin'. rewrite Hperm in Hin'.
    apply elem_of_map_to_list in Hin'. destruct (Hsemi k' y' Hin') as [H1 H2].
    by apply format_tuple_no_semicolon. }
  destruct l as [|tup l'] eqn:El; [by apply elem_of_nil in Hin|].
  apply (Hgen _ (join_format_nonempty tup l')).
  rewrite split_join; [| done | by apply Forall_fmap].
  rewrite Forall_fmap. intros Hall.
  eapply Forall_forall in Hall; [|exact Hin]. simpl in Hall.
  unfold format_tuple in Hall. simpl in Hall.
  rewrite !count_char_app in Hall. simpl in Hall.
  apply orb_true_iff in Heq as [H|H]; apply count_char_has_char in H; lia.
Qed.

Lemma unpack_virtuals_failures_witness :
  unpack_virtuals_envvar "virtual:a=b;" = Raise ValueError
  ∧ unpack_virtuals_envvar (pack_virtuals_envvar {[ "virtual:a" := "b=c" ]})
    = Raise ValueError.
Proof.
  split.
  - refine (proj2 (proj1 unpack_virtuals_failures "virtual:a=b;" _) _); [done|].
    intros H. by apply (Forall_lookup_1 _ _ 1 "") in H.
  - apply (proj2 unpack_virtuals_failures).
    + by intros k y [<- <-]%lookup_singleton_Some.
    + exists "virtual:a", "b=c". by rewrite lookup_singleton_eq.
Defined.

(** ** Where commands are started *)

Section working_directories.

Lemma find_type_unique nd t t' :
  find_type nd type_keys None = Ok (Some t) → has_key nd t' = true → t' = t.
Proof.
  destruct nd as [[?|] [?|] [?|] [?|] [?|] [?|] [?|] [?|] ? ? ? ? ? ?];
    intros Ht; vm_compute in Ht; try discriminate Ht;
    injection Ht as <-; destruct t'; intros H; vm_compute in H;
    done.
Qed.

Lemma cwds_unfold nd cwd :
  cwds nd cwd =
    match n_commands nd with
    | Some children => flat_map (λ child, cwds child (process_cwd nd cwd)) children
    | None =>
        match n_cmd nd, n_hit nd with
        | None, None => []
        | _, _ => [process_cwd nd cwd]
        end
    end.
Proof. by destruct nd. Qed.

Lemma run_node_cwds w nd : ∀ env cwd node_pos ex ex' r,
  run_node w nd env cwd node_pos ex = (ex', r) →
  ∃ cs, calls ex' = calls ex ++ cs
    ∧ call_cwd <$> cs `prefix_of` cwds nd cwd
    ∧ (returned r = true → call_cwd <$> cs = cwds nd cwd).
Proof.
  induction nd as [nd IH] using node_nested_ind.
  intros env cwd node_pos ex ex' r. rewrite run_node_unfold, cwds_unfold.
  assert (∀ l, (ex, r) = (ex', r) → returned r = false →
            ∃ cs, calls ex' = calls ex ++ cs
              ∧ call_cwd <$> cs `prefix_of` l
              ∧ (returned r = true → call_cwd <$> cs = l)) as Hnone.
  { intros l [= <-] Hr. exists []. rewrite app_nil_r, Hr.
    split; [done|]. split; [apply prefix_nil|done]. }
  destruct (find_type nd type_keys None) as [[t|]|e] eqn:Ht;
    [|intros [= <- <-]; by apply Hnone..].
  pose proof (find_type_has_key nd t Ht) as Hkey.
  pose proof (find_type_unique nd t) as Huniq. specialize (Huniq TCommands Ht) as Hcom.
  specialize (Huniq TCmd Ht) as Hcmd. specialize (Huniq THit Ht) as Hhit.
  clear Huniq. simpl in Hcom, Hcmd, Hhit.
  assert (∀ var act sep, t ≠ TCommands → t ≠ TCmd → t ≠ THit →
            handle_env_mod nd env var act sep ex = (ex', r) →
            ∃ cs, calls ex' = calls ex ++ cs
              ∧ call_cwd <$> cs `prefix_of`
                  match n_commands nd with
                  | Some children =>
                      flat_map (λ child, cwds child (process_cwd nd cwd)) children
                  | None =>
                      match n_cmd nd, n_hit nd with
                      | None, None => []
                      | _, _ => [process_cwd nd cwd]
                      end
                  end
              ∧ (returned r = true → call_cwd <$> cs = 
                  match n_commands nd with
                  | Some children =>
                      flat_map (λ child, cwds child (process_cwd nd cwd)) children
                  | None =>
                      match n_cmd nd, n_hit nd with
                      | None, None => []
                      | _, _ => [process_cwd nd cwd]
                      end
                  end)) as Hmod.
  { intros var act sep H1 H2 H3 [-> _]%handle_env_mod_frame.
    destruct (n_commands nd); [destruct H1; symmetry; apply Hcom; by apply bool_decide_eq_true|].
    destruct (n_cmd nd); [destruct H2; symmetry; apply Hcmd; by apply bool_decide_eq_true|].
    destruct (n_hit nd); [destruct H3; symmetry; apply Hhit; by apply bool_decide_eq_true|].
    exists []. rewrite app_nil_r. by repeat split. }
  destruct t; try (by apply Hmod).
  - (* commands *)
    simpl in Hkey. apply bool_decide_eq_true in Hkey as [children Hc].
    rewrite Hc. specialize (IH children Hc).
    unfold handle_commands, bind, ret.
    assert (∀ cs i sub ex1 ex2 r2,
              Forall (λ nd, ∀ env cwd node_pos ex ex' r,
                run_node w nd env cwd node_pos ex = (ex', r) →
                ∃ cs, calls ex' = calls ex ++ cs
                  ∧ call_cwd <$> cs `prefix_of` cwds nd cwd
                  ∧ (returned r = true → call_cwd <$> cs = cwds nd cwd)) cs →
              run_children (run_node w) (process_cwd nd cwd) node_pos cs i sub ex1
                = (ex2, r2) →
              ∃ l, calls ex2 = calls ex1 ++ l
                ∧ call_cwd <$> l `prefix_of`
                    flat_map (λ child, cwds child (process_cwd nd cwd)) cs
                ∧ (returned r2 = true → call_cwd <$> l
                    = flat_map (λ child, cwds child (process_cwd nd cwd)) cs)) as Hloop.
    { induction cs as [|c cs IHcs]; intros i sub ex1 ex2 r2 HIH; simpl.
      - intros [= <- <-]. exists []. by rewrite app_nil_r.
      - apply Forall_cons in HIH as [HIHc HIH].
        unfold bind.
        destruct (run_node w c sub (process_cwd nd cwd) (node_pos ++ [i]) ex1)
          as [ex1' [sub'|e]] eqn:Hrun;
          destruct (HIHc _ _ _ _ _ _ Hrun) as (l1 & Hc1 & Hp1 & Hr1).
        + intros Hrest.
          destruct (IHcs _ _ _ _ _ HIH Hrest) as (l2 & Hc2 & Hp2 & Hr2).
          exists (l1 ++ l2). rewrite Hc2, Hc1, app_assoc, fmap_app, (Hr1 eq_refl).
          split; [done|]. split; [by apply prefix_app|].
          intros Hr. by rewrite (Hr2 Hr).
        + intros [= <- <-]. exists l1. split; [done|].
          split; [by apply prefix_app_r|done]. }
    destruct (run_children _ _ _ _ _ _ _) as [ex1 [sub|e]] eqn:Hrun;
      intros [= <- <-]; destruct (Hloop _ _ _ _ _ _ IH Hrun) as (l & Hl & Hp & Hr);
      by exists l.
  - (* cmd *)
    simpl in Hkey. apply bool_decide_eq_true in Hkey as [args Hargs].
    destruct (n_commands nd) eqn:Hc;
      [by specialize (Hcom (bool_decide_eq_true_2 _ (mk_is_Some _ _ eq_refl)))|].
    rewrite Hargs.
    intros (_ & _ & _ & [(Hcalls & _ & Hr)|(c & Hcalls & [Hcwd _] & _)])%leaf_step.
    + exists []. rewrite app_nil_r, Hr. split; [done|].
      split; [apply prefix_nil|done].
    + exists [c]. simpl. by rewrite Hcwd.
  - (* hit *)
    simpl in Hkey. apply bool_decide_eq_true in Hkey as [args Hargs].
    destruct (n_commands nd) eqn:Hc;
      [by specialize (Hcom (bool_decide_eq_true_2 _ (mk_is_Some _ _ eq_refl)))|].
    destruct (n_cmd nd) eqn:Hc';
      [by specialize (Hcmd (bool_decide_eq_true_2 _ (mk_is_Some _ _ eq_refl)))|].
    rewrite Hargs.
    intros (_ & _ & _ & [(Hcalls & _ & Hr)|(c & Hcalls & [Hcwd _] & _)])%leaf_step.
    + exists []. rewrite app_nil_r, Hr. split; [done|].
      split; [apply prefix_nil|done].
    + exists [c]. simpl. by rewrite Hcwd.
Qed.

End working_directories.

(** X20: the working directories of the commands a tree starts are fixed
    by the tree and the directory it is run in: each [cwd] key is joined, as
    it is written (no variable is substituted in it), to the directory of
    the enclosing node, and a group's [cwd] holds for the commands below it
    only.  The commands started are started in these directories in order;
    all of them when the tree returns, the first ones when it raises. *)
Theorem commands_run_in_tree_cwds w nd env cwd node_pos ex :
  ∃ cs, calls (run_node w nd env cwd node_pos ex).1 = calls ex ++ cs
    ∧ call_cwd <$> cs `prefix_of` cwds nd cwd
    ∧ (returned (run_node w nd env cwd node_pos ex).2 = true →
       call_cwd <$> cs = cwds nd cwd).
Proof.
  destruct (run_node w nd env cwd node_pos ex) as [ex' r] eqn:Hrun.
  exact (run_node_cwds w nd env cwd node_pos ex ex' r Hrun).
Qed.

(** ** The name of a log pipe in a variable *)

Section logpipe_to_var.

Lemma rev_app (s t : string) :
  String.rev (s +:+ t) = String.rev t +:+ String.rev s.
Proof.
  induction s as [|a s IH]; [by rewrite str_app_nil_r|].
  by rewrite str_app_cons, !rev_cons, IH, str_app_assoc.
Qed.

Lemma rev_involutive (s : string) : String.rev (String.rev s) = s.
Proof.
  induction s as [|a s IH]; [done|]. by rewrite rev_cons, rev_app, IH.
Qed.




End logpipe_to_var.



(** ** Properties every step keeps *)

Section preservation.
Context (P : executor → Prop).

Lemma preserves_ret {A} (a : A) : preserves P (ret a).
Proof. by intros ex ex' r [= <- <-]. Qed.

Lemma preserves_raise {A} (e : exn) : preserves P (raise (A:=A) e).
Proof. by intros ex ex' r [= <- <-]. Qed.

Lemma preserves_lift {A} (x : result A) : preserves P (lift x).
Proof. by intros ex ex' r [= <- <-]. Qed.

Lemma preserves_get : preserves P get.
Proof. by intros ex ex' r [= <- <-]. Qed.

Lemma preserves_modify f : (∀ ex, P ex → P (f ex)) → preserves P (modify f).
Proof. intros Hf ex ex' r [= <- <-]. apply Hf. Qed.

Lemma preserves_bind {A B} (m : M A) (k : A → M B) :
  preserves P m → (∀ a, preserves P (k a)) → preserves P (bind m k).
Proof.
  intros Hm Hk ex ex' r [(ex1 & a & H1 & H2)|(e & H1 & _)]%bind_inv HP.
  - eapply Hk; [exact H2|]. by eapply Hm.
  - by eapply Hm.
Qed.

Hypothesis P_files : ∀ ex f, P ex → P (set_files f ex).
Hypothesis P_call : ∀ ex c, P ex → P (add_call c ex).
Hypothesis P_last : ∀ ex e c, P ex → P (set_last e c ex).
Hypothesis P_pipe : ∀ sublogger_name level_str,
  preserves P (create_log_pipe sublogger_name level_str).

Ltac step :=
  first
    [ apply preserves_ret | apply preserves_raise | apply preserves_lift
    | apply preserves_get | apply P_pipe
    | apply preserves_modify; intros; first [by apply P_files | by apply P_call
                                             | by apply P_last]
    | apply preserves_bind; [|intros ?] ].

Lemma preserves_dump_inputs_go inputs node_pos : ∀ i env,
  preserves P (dump_inputs_go inputs node_pos i env).
Proof.
  induction inputs as [|inp rest IH]; intros i env; cbn [dump_inputs_go]; [step|].
  step; [step|]. destruct (negb _); [step|].
  destruct (in_text inp), (in_string inp), (in_json inp);
    (step; [unfold write_file; step|apply IH]).
Qed.

Lemma preserves_run_cmd w args env cwd stdout_to :
  preserves P (run_cmd w args env cwd stdout_to).
Proof. unfold run_cmd. repeat step. Qed.

Lemma preserves_run_hit w args env cwd stdout_to :
  preserves P (run_hit w args env cwd stdout_to).
Proof.
  unfold run_hit. step; [step|].
  destruct args as [|a1 rest]; [by repeat step|].
  destruct (bool_decide (a1 = "logpipe")); [|by repeat step].
  destruct rest as [|n [|l [|? ?]]]; by repeat step.
Qed.

Lemma preserves_leaf w nd env cwd node_pos :
  preserves P (handle_command_nodes w nd env cwd node_pos).
Proof.
  unfold handle_command_nodes.
  destruct (negb _); [step|]. destruct (1 <? _); [step|].
  destruct (_ && _); [step|].
  assert (∃ args func,
    (∀ args env cwd stdout_to, preserves P (func args env cwd stdout_to))
    ∧ match n_cmd nd, n_hit nd with
      | Some args, _ => Some (args, run_cmd w)
      | None, Some args => Some (args, run_hit w)
      | None, None => None
      end = Some (args, func)
    ∨ match n_cmd nd, n_hit nd with
      | Some args, _ => Some (args, run_cmd w)
      | None, Some args => Some (args, run_hit w)
      | None, None => None
      end = None) as (args & func & [[Hfunc ->]| ->]); [|clear P_pipe|step].
  { destruct (n_cmd nd) as [a|], (n_hit nd) as [b|].
    - exists a, (run_cmd w). left. split; [apply preserves_run_cmd|done].
    - exists a, (run_cmd w). left. split; [apply preserves_run_cmd|done].
    - exists b, (run_hit w). left. split; [apply preserves_run_hit|done].
    - exists [], (run_cmd w). by right. }
  step; [apply preserves_dump_inputs_go|]. step; [step|].
  step; [|step; [step|step]].
  destruct (n_to_var nd); [step; [apply Hfunc|step]|].
  destruct (n_append_to_file nd); [|step; [apply Hfunc|step]].
  step; [step|]. step; [step|]. destruct (PyStr.startswith _ _); [step|].
  unfold open_append, append_file.
  step; [step|]. step; [apply Hfunc|]. step; [step|step].
Qed.

(** A property that every step of a leaf keeps is kept by a tree. *)
Lemma preserves_run_node w nd env cwd node_pos :
  preserves P (run_node w nd env cwd node_pos).
Proof.
  intros ex ex' r Hrun.
  refine (run_node_steps w (λ _, True) (λ _ a b, P a → P b) _ _ _ _
            nd I env cwd node_pos ex ex' r Hrun).
  - done.
  - intros _ a b c Hab Hbc Ha. by apply Hbc, Hab.
  - intros ? children _ _. by apply Forall_forall.
  - intros nd' env' cwd' pos a b r' _ _ Hleaf. by eapply preserves_leaf.
Qed.

End preservation.

(** ** Cleaning up *)

Section cleanup.

Lemma level_of_string_name level_str lv :
  level_of_string level_str = Some lv → level_name lv = level_str.
Proof.
  unfold level_of_string. intros H.
  repeat (case_bool_decide; [by injection H as <-|]). done.
Qed.

Lemma create_log_pipe_in_temp_dir d sublogger_name level_str :
  preserves (λ ex, temp_dir ex = d ∧ pipes_in_temp_dir ex)
    (create_log_pipe sublogger_name level_str).
Proof.
  intros ex ex' r Hrun [Hd Hpipes]. unfold create_log_pipe in Hrun.
  destruct (level_of_string level_str) as [lv|] eqn:Hlv;
    [|by injection Hrun as <- _].
  unfold bind, get, modify, ret in Hrun.
  destruct (log_fifo_filenames ex !! (sublogger_name, lv)) eqn:Hreg;
    injection Hrun as <- _; [done|].
  split; [done|]. intros name lv' path. simpl.
  destruct (decide ((name, lv') = (sublogger_name, lv))) as [[= -> ->]|Hne].
  - rewrite lookup_insert_eq. intros [= <-].
    by rewrite (level_of_string_name level_str lv).
  - rewrite lookup_insert_ne by done. apply Hpipes.
Qed.

End cleanup.

(** X22: once [run_job] has made its executor, the directory it works in
    is the one it was given, or the one [mkdtemp] made, and the file name
    registered for every log pipe of the job is
    [pjoin(temp_dir, "logpipe-HEADING-LEVEL")] for the heading and level it
    is registered under: a path below that directory (the directory's name,
    a slash, and the rest) whenever the directory's name is not empty.  A
    directory [run_job] made itself is the one [close] removes on the way
    out, whether the job returned or raised; a directory the caller gave is
    not removed. *)
Theorem run_job_cleanup w fs build_store job_spec override_env virtuals cwd config
    given ex :
  let job := run_job w fs build_store job_spec override_env virtuals cwd config
               given in
  jo_executor job = Some ex →
  temp_dir ex = default (mkdtemp fs) given
  ∧ jo_rmtree job = match given with
                    | None => Some (mkdtemp fs)
                    | Some _ => None
                    end
  ∧ ∀ sublogger_name lv path,
      log_fifo_filenames ex !! (sublogger_name, lv) = Some path →
      path = pjoin (temp_dir ex)
               ("logpipe-" +:+ sublogger_name +:+ "-" +:+ level_name lv)
      ∧ (temp_dir ex ≠ "" → path_under (temp_dir ex) path = true).
Proof.
  unfold run_job. cbv zeta.
  destruct (canonicalize_job_spec job_spec) as [cjs|]; [|done].
  destruct (get_imports_env _ _ _ _) as [env|]; [|done].
  destruct (CommandTreeExecution fs given) as [?|[ex0 rm]] eqn:Hinit; [done|].
  assert (temp_dir ex0 = default (mkdtemp fs) given
          ∧ log_fifo_filenames ex0 = ∅
          ∧ rm = bool_decide (given = None)) as (Hd0 & Hf0 & ->).
  { unfold CommandTreeExecution in Hinit. destruct given as [d|].
    - destruct (listdir fs d) as [entries|]; [|done].
      destruct (bool_decide (entries ≠ [])); [done|]. by injection Hinit as <- <-.
    - by injection Hinit as <- <-. }
  destruct (run_node w _ _ cwd [] ex0) as [ex1 r] eqn:Hrun.
  assert (temp_dir ex1 = default (mkdtemp fs) given ∧ pipes_in_temp_dir ex1)
    as [Hd Hpipes].
  { refine (preserves_run_node
              (λ ex, temp_dir ex = default (mkdtemp fs) given ∧ pipes_in_temp_dir ex)
              _ _ _ _ w _ _ _ _ _ _ _ Hrun _); try done.
    - apply create_log_pipe_in_temp_dir.
    - split; [done|]. intros name lv path. by rewrite Hf0, lookup_empty. }
  intros Hex. assert (ex = ex1) as -> by by destruct r; injection Hex.
  split; [done|]. split.
  - unfold close.
    destruct given; [rewrite bool_decide_false by done|rewrite bool_decide_true by done];
      destruct r; simpl; by rewrite ?Hd.
  - intros name lv path Hpath. rewrite (Hpipes name lv path Hpath).
    split; [done|]. apply fifo_path_under.
Qed.

Lemma run_job_cleanup_witness :
  let job := run_job failing_world sample_tempfiles (λ _, None) logpipe_job
               ∅ ∅ "/" "{}" None in
  jo_result job = Raised CalledProcessError
  ∧ jo_rmtree job = Some "/tmp/hashdist-run-job-1"
  ∧ ∃ ex, jo_executor job = Some ex
      ∧ temp_dir ex = "/tmp/hashdist-run-job-1"
      ∧ log_fifo_filenames ex
        = {[ ("mylog", INFO) := "/tmp/hashdist-run-job-1/logpipe-mylog-INFO" ]}
      ∧ ∀ sublogger_name lv path,
          log_fifo_filenames ex !! (sublogger_name, lv) = Some path →
          path = pjoin (temp_dir ex)
                   ("logpipe-" +:+ sublogger_name +:+ "-" +:+ level_name lv)
          ∧ (temp_dir ex ≠ "" → path_under (temp_dir ex) path = true).
Proof.
  cbv zeta. split; [reflexivity|]. split; [reflexivity|].
  eexists. split; [reflexivity|]. split; [reflexivity|].
  split; [by vm_compute|].
  exact (proj2 (proj2 (run_job_cleanup failing_world sample_tempfiles (λ _, None)
                         logpipe_job ∅ ∅ "/" "{}" None _ eq_refl))).
Defined.

(** ** Files that do not clash *)

Section file_names.

Lemma pretty_nat_digits (Q : string → Prop) :
  (∀ d s, Q (String (pretty_N_char d) s)) → ∀ n : nat, Q (pretty n).
Proof.
  intros HQ n. unfold pretty, pretty_nat, pretty, pretty_N.
  case_decide as Hn; [apply (HQ 0%N)|].
  assert (0 < N.of_nat n)%N as Hpos by lia.
  rewrite pretty_N_go_step by done.
  by apply pretty_N_go_preserves.
Qed.

Lemma pretty_nat_nonempty (n : nat) : pretty n ≠ "".
Proof. by apply pretty_nat_digits. Qed.

Lemma pretty_nat_no_underscore (n : nat) : has_char "_" (pretty n) = false.
Proof.
  unfold pretty, pretty_nat, pretty, pretty_N.
  case_decide; [done|].
  assert (∀ x s, has_char "_" s = false → has_char "_" (pretty_N_go x s) = false)
    as Hgo; [|by apply Hgo].
  intros x. induction (N.lt_wf_0 x) as [x _ IH]; intros s Hs.
  assert (x = 0 ∨ 0 < x)%N as [->|Hx] by lia.
  - by rewrite pretty_N_go_0.
  - rewrite pretty_N_go_step by done. apply IH; [apply N.div_lt; lia|].
    cbn [has_char]. rewrite Hs, orb_false_r.
    generalize (x `mod` 10)%N. intros d. unfold pretty_N_char.
    by repeat case_match.
Qed.

Lemma join_snoc sep (l : list string) x :
  l ≠ [] → PyStr.join sep (l ++ [x]) = PyStr.join sep l +:+ sep +:+ x.
Proof.
  induction l as [|y l IH]; [done|]. intros _.
  destruct l as [|z l]; [done|].
  change (PyStr.join sep ((y :: z :: l) ++ [x]))
    with (y +:+ sep +:+ PyStr.join sep ((z :: l) ++ [x])).
  change (PyStr.join sep (y :: z :: l)) with (y +:+ sep +:+ PyStr.join sep (z :: l)).
  rewrite IH by done. by rewrite !str_app_assoc.
Qed.

Lemma input_filename_pieces node_pos i inp :
  input_filename node_pos (input_name i) +:+ input_suffix inp
  = PyStr.join "_" (input_pieces node_pos i inp).
Proof.
  unfold input_filename, input_pieces.
  destruct node_pos as [|n rest].
  - by rewrite !str_app_assoc.
  - rewrite join_snoc by done. by rewrite !str_app_assoc.
Qed.

Lemma input_pieces_no_underscore node_pos i inp :
  Forall (λ x, has_char "_" x = false) (input_pieces node_pos i inp).
Proof.
  unfold input_pieces. apply Forall_app. split.
  - destruct node_pos as [|n rest]; [by repeat constructor|].
    apply Forall_fmap, Forall_forall. intros m _. apply pretty_nat_no_underscore.
  - repeat constructor. unfold input_name.
    rewrite !has_char_app, pretty_nat_no_underscore.
    by destruct (input_suffix_cases inp) as [-> | ->].
Qed.

Lemma input_pieces_inj pos pos' i i' inp inp' :
  input_pieces pos i inp = input_pieces pos' i' inp' → pos = pos' ∧ i = i'.
Proof.
  unfold input_pieces. intros [Hpos Hname]%app_inj_tail. split.
  - destruct pos as [|n rest], pos' as [|n' rest']; try done.
    + injection Hpos as Hn _. by destruct (pretty_nat_nonempty n').
    + injection Hpos as Hn _. by destruct (pretty_nat_nonempty n).
    + by apply (inj (fmap pretty)) in Hpos.
  - apply (input_path_inj "" [] i i' inp inp'). unfold input_path.
    rewrite !pjoin_relative by apply input_filename_relative.
    unfold input_filename. simpl. by rewrite !str_app_assoc, Hname.
Qed.

(** Different nodes, or different inputs of a node, have different files. *)
Lemma input_path_inj_pos dir pos pos' i i' inp inp' :
  input_path dir pos i inp = input_path dir pos' i' inp' → pos = pos' ∧ i = i'.
Proof.
  unfold input_path.
  rewrite !pjoin_relative by apply input_filename_relative.
  rewrite !str_app_assoc, !input_filename_pieces.
  intros H%(inj (String.app _)).
  apply (f_equal (PyStr.split "_")) in H.
  rewrite !(split_join "_") in H;
    try apply input_pieces_no_underscore; try (unfold input_pieces; by destruct pos);
    try (unfold input_pieces; by destruct pos').
  by eapply input_pieces_inj.
Qed.

(** No input file has the name of a log pipe. *)
Lemma input_path_not_fifo dir pos i inp sublogger_name level_str :
  input_path dir pos i inp ≠ fifo_path dir sublogger_name level_str.
Proof.
  unfold input_path, fifo_path.
  rewrite !pjoin_relative by (done || apply input_filename_relative).
  rewrite !str_app_assoc. intros H%(inj (String.app _)).
  unfold input_filename in H. destruct pos as [|n rest]; [done|].
  assert (∃ a s, PyStr.join "_" (pretty <$> n :: rest) = String a s
                 ∧ a ≠ "l"%char) as (a & s & Hj & Ha).
  { assert (∃ a s, pretty n = String a s ∧ a ≠ "l"%char) as (a & s & Hn & Ha).
    { apply (pretty_nat_digits (λ x, ∃ a s, x = String a s ∧ a ≠ "l"%char)).
      intros d s. eexists _, _. split; [done|].
      unfold pretty_N_char. by repeat case_match. }
    destruct rest as [|m rest].
    - by exists a, s.
    - change (PyStr.join "_" (pretty <$> n :: m :: rest))
        with (pretty n +:+ "_" +:+ PyStr.join "_" (pretty <$> m :: rest)).
      rewrite Hn, str_app_cons. by eexists _, _. }
  rewrite Hj, !str_app_cons in H. by injection H as -> _.
Qed.

End file_names.

(** X23: the files of a job in [temp_dir] do not clash: the name of an
    input file tells the position of its node and the number of the input,
    and it is never the name of a log pipe; so when [dump_inputs] returns
    for a node, the input files of every other node and the files named as
    log pipes are as they were, and so is the registry of log pipes. *)
Theorem inputs_keep_other_files inputs node_pos ex ex' env :
  dump_inputs inputs node_pos ex = (ex', Ok env) →
  (∀ pos i inp, pos ≠ node_pos →
     files ex' !! input_path (temp_dir ex) pos i inp
       = files ex !! input_path (temp_dir ex) pos i inp)
  ∧ (∀ sublogger_name level_str,
       files ex' !! fifo_path (temp_dir ex) sublogger_name level_str
         = files ex !! fifo_path (temp_dir ex) sublogger_name level_str)
  ∧ log_fifo_filenames ex' = log_fifo_filenames ex.
Proof.
  unfold dump_inputs. intros Hrun.
  destruct (decide (Forall (λ inp, input_ok inp = true) inputs)) as [Hok|Hbad];
    cycle 1.
  { destruct (dump_inputs_go_fail inputs node_pos 0 ∅ ex Hbad) as (? & Hfail & _).
    congruence. }
  destruct (dump_inputs_go_ok inputs node_pos 0 ∅ ex Hok)
    as (ex1 & env1 & Hrun1 & _ & _ & Hfifo & _ & _ & _ & Hfiles).
  rewrite Hrun in Hrun1. injection Hrun1 as <- <-.
  split; [|split; [|done]].
  - intros pos i inp Hpos. apply Hfiles.
    intros k inp' _ [? _]%input_path_inj_pos. done.
  - intros name level. apply Hfiles.
    intros k inp' _ Heq. symmetry in Heq. by apply input_path_not_fifo in Heq.
Qed.

Lemma inputs_keep_other_files_witness :
  let ex := set_files {[ "/tmp/job/0_in0" := "make" ]} (new_executor "/tmp/job") in
  files (dump_inputs [Input None (Some "make install") None] [1] ex).1
    !! "/tmp/job/0_in0" = Some "make".
Proof.
  cbv zeta.
  exact (proj1 (inputs_keep_other_files [Input None (Some "make install") None] [1]
                  (set_files {[ "/tmp/job/0_in0" := "make" ]} (new_executor "/tmp/job"))
                  _ _ eq_refl)
           [0] 0 (Input None (Some "") None) ltac:(done)).
Defined.

(** ** Redirection with [append_to_file], for every leaf *)

Lemma run_tool_started w tl args env cwd stdout_to ex ex' r :
  run_tool w tl args env cwd stdout_to ex = (ex', r) →
  started tl args env cwd stdout_to ex ex' r.
Proof. destruct tl; [apply run_cmd_started|apply run_hit_started]. Qed.

(** A leaf is handled by [handle_command_nodes], which finds its tool and
    arguments and lets it pass the three checks on its keys unless it has
    both [to_var] and the old key [stdout_to_file]. *)
Lemma run_node_leaf w nd tl args env cwd node_pos :
  leaf_command nd = Some (tl, args) →
  has (n_to_var nd) + has (n_stdout_to_file nd) ≤ 1 →
  run_node w nd env cwd node_pos =
    let* in_env := dump_inputs (default [] (n_inputs nd)) node_pos in
    let node_env := in_env ∪ env in
    let node_cwd := process_cwd nd cwd in
    let* args := lift (substitute_all args node_env) in
    let* envs :=
      match n_to_var nd, n_append_to_file nd with
      | Some var, _ =>
          let* r := run_tool w tl args node_env node_cwd ToBuffer in
          ret (<[var := PyStr.strip r.1]> env, r.2)
      | None, Some raw =>
          let* stdout_filename := lift (self_substitute raw node_env) in
          let stdout_filename :=
            if isabs stdout_filename then stdout_filename
            else pjoin node_cwd stdout_filename in
          let stdout_filename := realpath (os w) stdout_filename in
          let* ex := get in
          if PyStr.startswith stdout_filename (temp_dir ex)
          then raise NotImplementedError
          else
            open_append stdout_filename >>>
            let* r := run_tool w tl args node_env node_cwd (ToFile stdout_filename) in
            append_file stdout_filename r.1 >>>
            ret (env, r.2)
      | None, None =>
          let* r := run_tool w tl args node_env node_cwd ToLog in
          ret (env, r.2)
      end in
    modify (set_last envs.2 node_cwd) >>>
    ret envs.1.
Proof.
  unfold leaf_command. intros Hleaf Hvar. rewrite run_node_unfold.
  destruct (find_type nd type_keys None) as [[t|]|] eqn:Ht; try done.
  assert (∀ t', has_key nd t' = true → t' = t) as Huniq
    by (intros t'; by apply find_type_unique).
  assert (n_commands nd = None) as Hc.
  { destruct (n_commands nd) eqn:E; [|done].
    assert (TCommands = t) as <- by (apply Huniq; simpl; by rewrite E). done. }
  assert (n_set nd = None) as Hs.
  { destruct (n_set nd) eqn:E; [|done].
    assert (TSet = t) as <- by (apply Huniq; simpl; by rewrite E). done. }
  assert (match n_cmd nd, n_hit nd with
          | Some a, _ => Some (a, run_cmd w)
          | None, Some a => Some (a, run_hit w)
          | None, None => None
          end = Some (args, run_tool w tl)
          ∧ has (n_cmd nd) + has (n_hit nd) = 1) as [Hfunc Hone].
  { destruct (n_cmd nd) as [a|] eqn:Ea.
    - assert (TCmd = t) as <- by (apply Huniq; simpl; by rewrite Ea).
      injection Hleaf as <- <-. split; [done|].
      destruct (n_hit nd) eqn:Eb; [|done].
      by assert (THit = TCmd) by (apply Huniq; simpl; by rewrite Eb).
    - destruct t; try done. destruct (n_hit nd) as [b|]; [|done].
      by injection Hleaf as <- <-. }
  replace (match t with TCmd | THit => _ | _ => _ end)
    with (handle_command_nodes w nd env cwd node_pos) by by destruct t.
  unfold handle_command_nodes.
  rewrite Hc, Hs, Hfunc, Hone. simpl.
  destruct (1 <? _) eqn:Hlt; [apply Nat.ltb_lt in Hlt; lia|].
  done.
Qed.

(** C9: what a leaf with [append_to_file] does, whether it is a [cmd] or a
    [hit] node and whatever its [cwd] and [inputs]; the input files are
    written and the arguments substituted first.  Without [to_var], the
    path is substituted in the node's environment, joined to the node's
    directory when relative and made canonical.  The test that follows is
    [stdout_filename.startswith(self.temp_dir)], a test on strings: it
    holds of every path under [temp_dir], and of others too.  When it holds
    the node raises [NotImplementedError] and no command is started.  When
    it fails the file is opened for appending, the command is started with
    the file as its sink, and what it printed is appended when it returns.
    With [to_var] the path is not looked at: the command runs with the
    buffer as its sink. *)
Theorem append_to_file_redirection w nd tl args raw env cwd node_pos ex ex1
    in_env args' :
  leaf_command nd = Some (tl, args) →
  n_append_to_file nd = Some raw →
  dump_inputs (default [] (n_inputs nd)) node_pos ex = (ex1, Ok in_env) →
  substitute_all args (in_env ∪ env) = Ok args' →
  let node_env := in_env ∪ env in
  let node_cwd := process_cwd nd cwd in
  (temp_dir ex1 = temp_dir ex ∧ calls ex1 = calls ex)
  ∧ (n_to_var nd = None → ∀ e,
       self_substitute raw node_env = Raise e →
       run_node w nd env cwd node_pos ex = (ex1, Raise e))
  ∧ (n_to_var nd = None → ∀ p,
       self_substitute raw node_env = Ok p →
       let file := realpath (os w) (if isabs p then p else pjoin node_cwd p) in
       (path_under (temp_dir ex) file = true →
          PyStr.startswith file (temp_dir ex) = true)
       ∧ (PyStr.startswith file (temp_dir ex) = true →
          run_node w nd env cwd node_pos ex = (ex1, Raise NotImplementedError))
       ∧ (PyStr.startswith file (temp_dir ex) = false →
          let opened :=
            set_files (<[file := default "" (files ex1 !! file)]> (files ex1)) ex1 in
          ∃ ex2 r,
            run_tool w tl args' node_env node_cwd (ToFile file) opened = (ex2, r)
            ∧ calls ex2 = calls ex ++ [Call tl args' node_env node_cwd (ToFile file)]
            ∧ files ex2 = files opened
            ∧ run_node w nd env cwd node_pos ex =
                match r with
                | Ok r =>
                    (set_last r.2 node_cwd
                       (set_files
                          (<[file := default "" (files ex2 !! file) +:+ r.1]>
                             (files ex2))
                          ex2),
                     Ok env)
                | Raise e => (ex2, Raise e)
                end))
  ∧ (∀ var, n_to_var nd = Some var → n_stdout_to_file nd = None →
       run_node w nd env cwd node_pos ex =
         match run_tool w tl args' node_env node_cwd ToBuffer ex1 with
         | (ex2, Ok r) =>
             (set_last r.2 node_cwd ex2, Ok (<[var := PyStr.strip r.1]> env))
         | (ex2, Raise e) => (ex2, Raise e)
         end).
Proof.
  intros Hleaf Hraw Hdump Hargs. cbv zeta.
  pose proof Hdump as Hframe. unfold dump_inputs in Hframe.
  apply dump_inputs_go_frame in Hframe as (Htmp & _ & _ & Hcalls & _).
  split; [done|].
  assert (n_to_var nd = None →
          has (n_to_var nd) + has (n_stdout_to_file nd) ≤ 1) as Hle.
  { intros ->. destruct (n_stdout_to_file nd); simpl; lia. }
  split; [|split].
  - intros Hvar e Hp.
    rewrite (run_node_leaf w nd tl args env cwd node_pos Hleaf (Hle Hvar)).
    unfold bind, lift. by rewrite Hdump, Hargs, Hvar, Hraw, Hp.
  - intros Hvar p Hp. split; [apply path_under_startswith|].
    rewrite (run_node_leaf w nd tl args env cwd node_pos Hleaf (Hle Hvar)).
    unfold bind, lift, get. rewrite Hdump, Hargs, Hvar, Hraw, Hp, Htmp.
    set (file := realpath (os w) _).
    split; intros Hpre; rewrite Hpre; [done|].
    unfold open_append, modify.
    set (opened := set_files _ ex1).
    destruct (run_tool w tl args' (in_env ∪ env) (process_cwd nd cwd)
                (ToFile file) opened) as [ex2 r] eqn:Hrun.
    exists ex2, r. split; [done|].
    apply run_tool_started in Hrun as (_ & _ & Hfiles & _ & Hcalls2 & _).
    split; [by rewrite Hcalls2; simpl; rewrite Hcalls|]. split; [done|].
    by destruct r.
  - intros var Hvar Hout.
    rewrite (run_node_leaf w nd tl args env cwd node_pos Hleaf); cycle 1.
    { rewrite Hvar, Hout. simpl. lia. }
    unfold bind, lift. rewrite Hdump, Hargs, Hvar.
    by destruct (run_tool w tl args' (in_env ∪ env) (process_cwd nd cwd)
                   ToBuffer ex1) as [ex2 [r|e]].
Qed.

Lemma append_to_file_redirection_witness :
  (path_under "/tmp/job" "/tmp/job2/x" = false
   ∧ run_node (sample_world "hi") (cmd_append_node ["/bin/echo"; "hi"] "/tmp/job2/x")
       ∅ "/" [0] (new_executor "/tmp/job")
     = (new_executor "/tmp/job", Raise NotImplementedError))
  ∧ run_node (sample_world "hi") (hit_append_node ["create-links"; "$in0"] "$D/log")
      {[ "D" := "logs" ]} "/build" [2] (new_executor "/tmp/job")
    = (Executor "/tmp/job" ∅
         (Some {[ "in0" := "/tmp/job/2_in0"; "D" := "logs" ]}) (Some "/build/sub")
         {[ "/tmp/job/2_in0" := "x"; "/build/sub/logs/log" := "" ]}
         [Call ByHit ["create-links"; "/tmp/job/2_in0"]
            {[ "in0" := "/tmp/job/2_in0"; "D" := "logs" ]} "/build/sub"
            (ToFile "/build/sub/logs/log")],
       Ok {[ "D" := "logs" ]}).
Proof.
  split.
  - split; [reflexivity|].
    exact (proj1 (proj2 (proj1 (proj2 (proj2
             (append_to_file_redirection (sample_world "hi")
                (cmd_append_node ["/bin/echo"; "hi"] "/tmp/job2/x") ByCmd
                ["/bin/echo"; "hi"] "/tmp/job2/x" ∅ "/" [0] (new_executor "/tmp/job")
                (new_executor "/tmp/job") ∅ ["/bin/echo"; "hi"]
                eq_refl eq_refl eq_refl eq_refl)))
             eq_refl "/tmp/job2/x" eq_refl)) eq_refl).
  - destruct (proj2 (proj2
             (append_to_file_redirection (sample_world "hi")
                (hit_append_node ["create-links"; "$in0"] "$D/log") ByHit
                ["create-links"; "$in0"] "$D/log" {[ "D" := "logs" ]} "/build" [2]
                (new_executor "/tmp/job")
                (set_files {[ "/tmp/job/2_in0" := "x" ]} (new_executor "/tmp/job"))
                {[ "in0" := "/tmp/job/2_in0" ]} ["create-links"; "/tmp/job/2_in0"]
                ltac:(vm_compute; reflexivity) ltac:(vm_compute; reflexivity)
                ltac:(vm_compute; reflexivity) ltac:(vm_compute; reflexivity))))
      as [Hfile _].
    destruct (Hfile eq_refl "logs/log" ltac:(vm_compute; reflexivity))
      as (_ & _ & Hrun).
    destruct (Hrun ltac:(vm_compute; reflexivity))
      as (ex2 & r & Htool & _ & _ & Hnode).
    rewrite Hnode. clear Hnode.
    apply (f_equal fst) in Htool as Hex. apply (f_equal snd) in Htool as Hr.
    cbn [fst snd] in Hex, Hr. subst ex2 r.
    vm_compute. reflexivity.
Defined.

(** ** Scopes *)

Section scopes.

Lemma lstrip_split (s : string) :
  ∃ l, s = l +:+ PyStr.lstrip s ∧ blank l = true.
Proof.
  induction s as [|a s (l & IH & Hl)]; [by exists ""|]. simpl.
  destruct (PyStr.is_space a) eqn:Ha.
  - exists (String a l). rewrite str_app_cons, <-IH. simpl. by rewrite Ha, Hl.
  - by exists "".
Qed.

Lemma lstrip_starts (s : string) : starts_blank (PyStr.lstrip s) = false.
Proof.
  induction s as [|a s IH]; [done|]. simpl.
  by destruct (PyStr.is_space a) eqn:Ha; [|simpl].
Qed.

Lemma blank_app (s t : string) : blank (s +:+ t) = blank s && blank t.
Proof.
  induction s as [|a s IH]; [done|]. rewrite str_app_cons. simpl.
  by rewrite IH, andb_assoc.
Qed.

Lemma blank_rev (s : string) : blank (String.rev s) = blank s.
Proof.
  induction s as [|a s IH]; [done|]. rewrite rev_cons, blank_app, IH. simpl.
  by rewrite andb_true_r, andb_comm.
Qed.

Lemma starts_blank_app (s t : string) :
  s ≠ "" → starts_blank (s +:+ t) = starts_blank s.
Proof. by destruct s. Qed.

Lemma ends_blank_snoc (s : string) (a : ascii) :
  ends_blank (s +:+ String a "") = PyStr.is_space a.
Proof.
  induction s as [|b s IH]; [done|]. rewrite str_app_cons.
  change (ends_blank (String b (s +:+ String a "")))
    with (match s +:+ String a "" with
          | EmptyString => PyStr.is_space b
          | _ => ends_blank (s +:+ String a "")
          end).
  rewrite IH. by destruct s.
Qed.

Lemma ends_blank_rev (s : string) : ends_blank (String.rev s) = starts_blank s.
Proof. destruct s as [|a s]; [done|]. by rewrite rev_cons, ends_blank_snoc. Qed.

(** [str.strip()] removes the white space at the two ends and nothing
    else. *)
Lemma strip_stripped (out : string) : stripped out (PyStr.strip out).
Proof.
  unfold PyStr.strip.
  destruct (lstrip_split out) as (l & Hout & Hl).
  destruct (lstrip_split (String.rev (PyStr.lstrip out))) as (r & Hrev & Hr).
  set (q := PyStr.lstrip (String.rev (PyStr.lstrip out))) in *.
  assert (PyStr.lstrip out = String.rev q +:+ String.rev r) as Hmid.
  { by rewrite <-rev_app, <-Hrev, rev_involutive. }
  split; [|split].
  - exists l, (String.rev r). split; [by rewrite <-Hmid|].
    by rewrite blank_rev.
  - destruct (String.rev q) as [|a t] eqn:Hq; [done|].
    rewrite <-(starts_blank_app (String a t) (String.rev r)) by done.
    rewrite <-Hmid. apply lstrip_starts.
  - rewrite ends_blank_rev. apply lstrip_starts.
Qed.

Lemma run_children_app run cwd node_pos pre rest : ∀ i env ex,
  run_children run cwd node_pos (pre ++ rest) i env ex =
    match run_children run cwd node_pos pre i env ex with
    | (ex1, Ok env1) => run_children run cwd node_pos rest (i + length pre) env1 ex1
    | (ex1, Raise e) => (ex1, Raise e)
    end.
Proof.
  induction pre as [|nd pre IH]; intros i env ex.
  { simpl. unfold ret. by rewrite Nat.add_0_r. }
  simpl. unfold bind.
  destruct (run nd env cwd (node_pos ++ [i]) ex) as [ex1 [env1|e]]; [|done].
  rewrite IH. by rewrite Nat.add_succ_r.
Qed.

(** A leaf that has both [to_var] and the old key [stdout_to_file] raises. *)
Lemma leaf_returns_checked w nd env cwd node_pos ex ex' env' tl args :
  leaf_command nd = Some (tl, args) →
  run_node w nd env cwd node_pos ex = (ex', Ok env') →
  has (n_to_var nd) + has (n_stdout_to_file nd) ≤ 1.
Proof.
  unfold leaf_command. intros Hleaf. rewrite run_node_unfold.
  destruct (find_type nd type_keys None) as [[t|]|]; try done.
  destruct t; try done; unfold handle_command_nodes;
    (destruct (negb _); [done|]);
    (destruct (1 <? _) eqn:Hlt; [done|]); intros _;
    by apply Nat.ltb_ge in Hlt.
Qed.

End scopes.

(** C1: a group runs its children in order, each in the dict the one before
    it left, starting from the dict the group was given, and returns the
    dict it was given: whatever its children did to theirs, the enclosing
    scope sees none of it.  For a child [nd] that returns: the children
    after it run in the dict it leaves; that dict is the one [nd] was given
    when [nd] is itself a group or a leaf without [to_var]; and when [nd] is
    a leaf with [to_var: V] it is the one [nd] was given with [V] bound to
    what the command of [nd], run with the buffer as its sink, printed,
    without the white space at the two ends. *)
Theorem scope_isolation_to_var_escape w parent children env0 cwd0 pos0 ex0 :
  find_type parent type_keys None = Ok (Some TCommands) →
  n_commands parent = Some children →
  let node_cwd := process_cwd parent cwd0 in
  run_node w parent env0 cwd0 pos0 ex0 =
    match run_children (run_node w) node_cwd pos0 children 0 env0 ex0 with
    | (ex1, Ok _) => (ex1, Ok env0)
    | (ex1, Raise e) => (ex1, Raise e)
    end
  ∧ ∀ pre nd post ex env ex' env',
      children = pre ++ nd :: post →
      let i := length pre in
      let pos := pos0 ++ [i] in
      run_children (run_node w) node_cwd pos0 pre 0 env0 ex0 = (ex, Ok env) →
      run_node w nd env node_cwd pos ex = (ex', Ok env') →
      run_children (run_node w) node_cwd pos0 children 0 env0 ex0
        = run_children (run_node w) node_cwd pos0 post (S i) env' ex'
      ∧ (∀ next rest, post = next :: rest →
           run_children (run_node w) node_cwd pos0 post (S i) env' ex' =
             match run_node w next env' node_cwd (pos0 ++ [S i]) ex' with
             | (ex1, Ok env1) =>
                 run_children (run_node w) node_cwd pos0 rest (S (S i)) env1 ex1
             | (ex1, Raise e) => (ex1, Raise e)
             end)
      ∧ (find_type nd type_keys None = Ok (Some TCommands) → env' = env)
      ∧ (∀ tl args, leaf_command nd = Some (tl, args) → n_to_var nd = None →
           env' = env)
      ∧ (∀ tl args var, leaf_command nd = Some (tl, args) →
           n_to_var nd = Some var →
           let leaf_cwd := process_cwd nd node_cwd in
           ∃ ex1 in_env args' ex2 out env2,
             dump_inputs (default [] (n_inputs nd)) pos ex = (ex1, Ok in_env)
             ∧ substitute_all args (in_env ∪ env) = Ok args'
             ∧ run_tool w tl args' (in_env ∪ env) leaf_cwd ToBuffer ex1
               = (ex2, Ok (out, env2))
             ∧ calls ex2
               = calls ex ++ [Call tl args' (in_env ∪ env) leaf_cwd ToBuffer]
             ∧ (tl = ByCmd →
                popen w (add_call (Call tl args' (in_env ∪ env) leaf_cwd ToBuffer) ex1)
                  args' (in_env ∪ env) leaf_cwd = Ok out)
             ∧ env' = <[var := PyStr.strip out]> env
             ∧ stripped out (PyStr.strip out)).
Proof.
  intros Ht Hc. cbv zeta. split.
  { rewrite run_node_unfold, Ht, Hc. unfold handle_commands, bind, ret.
    by destruct (run_children _ _ _ _ _ _ _) as [ex1 [sub|e]]. }
  intros pre nd post ex env ex' env' -> Hpre Hnd.
  split; [|split; [|split; [|split]]].
  - rewrite run_children_app, Hpre. simpl.
    by apply run_children_cons.
  - intros next rest ->. simpl. unfold bind.
    by destruct (run_node w next env' _ _ ex') as [ex1 [env1|e]].
  - intros Hg. rewrite run_node_unfold, Hg in Hnd.
    destruct (n_commands nd); [|done]. by eapply handle_commands_env.
  - intros tl args Hleaf Hvar.
    rewrite (run_node_leaf w nd tl args) in Hnd; [|done|]; cycle 1.
    { rewrite Hvar. destruct (n_stdout_to_file nd); simpl; lia. }
    revert Hnd. unfold open_append, append_file, bind, lift, ret, get, raise, modify.
    rewrite Hvar.
    destruct (dump_inputs _ _ _) as [ex1 [in_env|e]]; [|done].
    destruct (substitute_all _ _) as [args'|e]; [|done].
    destruct (n_append_to_file nd) as [raw|].
    + destruct (self_substitute raw _) as [p|e]; [|done].
      destruct (PyStr.startswith _ _); [done|]. cbv beta iota.
      destruct (run_tool _ _ _ _ _ _ _) as [ex2 [r|e]]; [|done].
      by intros [= _ ->].
    + destruct (run_tool _ _ _ _ _ _ _) as [ex2 [r|e]]; [|done].
      by intros [= _ ->].
  - intros tl args var Hleaf Hvar.
    pose proof (leaf_returns_checked _ _ _ _ _ _ _ _ _ _ Hleaf Hnd) as Hle.
    rewrite (run_node_leaf w nd tl args) in Hnd by done.
    revert Hnd. unfold bind, lift, ret, modify. rewrite Hvar.
    destruct (dump_inputs _ _ _) as [ex1 [in_env|e]] eqn:Hdump; [|done].
    destruct (substitute_all _ _) as [args'|e] eqn:Hargs; [|done].
    destruct (run_tool _ _ _ _ _ _ _) as [ex2 [[out env2]|e]] eqn:Hrun; [|done].
    intros [= _ <-]. exists ex1, in_env, args', ex2, out, env2.
    do 3 (split; [done|]).
    unfold dump_inputs in Hdump.
    apply dump_inputs_go_frame in Hdump as (_ & _ & _ & Hcalls & _).
    split; [|split; [|split; [done|apply strip_stripped]]].
    + apply run_tool_started in Hrun as (_ & _ & _ & _ & -> & _).
      by rewrite Hcalls.
    + intros ->. revert Hrun. simpl.
      unfold run_cmd, bind, modify, get, lift, ret. simpl.
      destruct (popen w _ args' _ _); [|done]. by intros [= _ ->].
Qed.

Lemma scope_isolation_to_var_escape_witness :
  run_node echo_A_world to_var_scenario ∅ "/" [] (new_executor "/tmp/job")
  = (Executor "/tmp/job" ∅ (Some {[ "A" := "1"; "OUT" := "1" ]}) (Some "/") ∅
       [Call ByCmd ["/bin/sh"; "-c"; "echo $A"] {[ "A" := "1" ]} "/" ToBuffer;
        Call ByCmd ["echo"; "1"] {[ "A" := "1"; "OUT" := "1" ]} "/" ToLog],
     Ok ∅).
Proof.
  set (leaf := cmd_to_var_node ["/bin/sh"; "-c"; "echo \$A"] "OUT").
  set (ex' := set_last {[ "A" := "1" ]} "/"
                (add_call
                   (Call ByCmd ["/bin/sh"; "-c"; "echo $A"] {[ "A" := "1" ]} "/"
                      ToBuffer)
                   (new_executor "/tmp/job"))).
  assert (run_children (run_node echo_A_world) "/" []
            [set_node "A" "1"; group_node [set_node "A" "2"]] 0 ∅
            (new_executor "/tmp/job")
          = (new_executor "/tmp/job", Ok {[ "A" := "1" ]})) as Hpre
    by (vm_compute; reflexivity).
  assert (run_node echo_A_world leaf {[ "A" := "1" ]} "/" [2]
            (new_executor "/tmp/job")
          = (ex', Ok (<["OUT" := "1"]> {[ "A" := "1" ]}))) as Hleaf
    by (vm_compute; reflexivity).
  destruct (scope_isolation_to_var_escape echo_A_world to_var_scenario
              [set_node "A" "1"; group_node [set_node "A" "2"]; leaf;
               cmd_node ["echo"; "$OUT"]]
              ∅ "/" [] (new_executor "/tmp/job") eq_refl eq_refl)
    as [Hgroup Hchild].
  destruct (Hchild [set_node "A" "1"; group_node [set_node "A" "2"]] leaf
              [cmd_node ["echo"; "$OUT"]] _ _ _ _ eq_refl Hpre Hleaf)
    as (Hkids & Hnext & _).
  rewrite Hgroup, Hkids, (Hnext _ _ eq_refl).
  vm_compute. reflexivity.
Defined.
